(** * DigiSocket: outbound message relay, LID/PN identity map, group metadata

    A shallow embedding of the parts of

      - [src/Signal/lid-mapping.ts]   (class [LIDMappingStore]),
      - the groups socket, [makeGroupsSocket] ([extractGroupMetadata], the
        group caches),
      - [src/Socket/messages-send.ts] ([sendReceipt], [getUSyncDevices],
        [assertSessions], [createParticipantNodes], [relayMessage])

    that the properties at the end of the file speak about.

    Conventions.
      - A JS object used as a dictionary is a [gmap string _]; object spread
        [{...a, ...b}] is [b ∪ a] (stdpp's union prefers its left operand).
      - Asynchronous code is sequenced in program order; [Promise.all] over a
        list of tasks runs them left to right.
      - A function that can throw lives in the monad [M S], state plus
        exception; the state reached when the exception is raised is kept.
      - Collaborators that are not part of these files (the WABinary JID
        helpers, the Signal repository, the socket, the protobuf encoders, the
        configuration callbacks) are fields of the classes [WABinary] and
        [Collaborators]; every statement holds for all of them unless a
        hypothesis says otherwise.
      - [logger.trace]/[logger.debug]/[logger.info] calls have no effect on
        the results and are left out; the [logger.warn] calls of the stateful
        code are recorded in the state. *)

From Stdlib Require Import ZArith Ascii String List Lia DecimalString.
From stdpp Require Import base option list gmap strings.

Local Open Scope string_scope.
Local Open Scope list_scope.
Local Open Scope Z_scope.

(** ** JavaScript conventions *)

Module JS.

(** Truthiness of a string: the empty string is falsy. *)
Definition truthyStr (s : string) : bool := negb (String.eqb s "").

(** Truthiness of a [string | undefined] value. *)
Definition truthy (o : option string) : bool :=
  match o with Some s => truthyStr s | None => false end.

(** [a || b] on [string | undefined] operands. *)
Definition orElse (o : option string) (d : option string) : option string :=
  if truthy o then o else d.

(** Strict equality [a === b] on [string | undefined] values. *)
Definition seq (a b : option string) : bool := bool_decide (a = b).

(** Truthiness of a [number | undefined] value (NaN does not occur in the
    model: numbers are integers). *)
Definition truthyNum (o : option Z) : bool :=
  match o with Some n => negb (n =? 0) | None => false end.

(** *** Decimal numerals *)

Definition digitOf (c : ascii) : option N :=
  let n := N_of_ascii c in
  if ((48 <=? n) && (n <=? 57))%N then Some (n - 48)%N else None.

Fixpoint parseDecAux (s : string) (acc : N) : option N :=
  match s with
  | EmptyString => Some acc
  | String c r =>
      match digitOf c with
      | Some d => parseDecAux r (10 * acc + d)%N
      | None => None
      end
  end.

Definition parseDec (s : string) : option N :=
  match s with
  | EmptyString => None
  | _ => parseDecAux s 0%N
  end.

(** *** Own-property order of an object

    [Object.entries] lists the keys that are array indices (canonical
    numerals below 2^32 - 1) first, in ascending numeric order, and then the
    other string keys in insertion order. *)

Definition arrayIndex (k : string) : option N :=
  match k with
  | EmptyString => None
  | String c r =>
      if (Ascii.eqb c "0" && negb (String.eqb r ""))%bool then None
      else if (10 <? String.length k)%nat then None
      else match parseDec k with
           | Some n => if (n <? 4294967295)%N then Some n else None
           | None => None
           end
  end.

Section Obj.
Context {V : Type}.

(** An object under construction: its string-keyed properties in
    insertion order. *)
Definition Obj := list (string * V).

Fixpoint get (k : string) (o : Obj) : option V :=
  match o with
  | [] => None
  | (k', v) :: r => if String.eqb k k' then Some v else get k r
  end.

(** [o[k] = v]: an existing key keeps its place. *)
Fixpoint set (k : string) (v : V) (o : Obj) : Obj :=
  match o with
  | [] => [(k, v)]
  | (k', v') :: r =>
      if String.eqb k k' then (k, v) :: r else (k', v') :: set k v r
  end.

Fixpoint insertIdx (n : N) (e : string * V) (l : list (N * (string * V)))
  : list (N * (string * V)) :=
  match l with
  | [] => [(n, e)]
  | (m, e') :: r =>
      if (n <=? m)%N then (n, e) :: l else (m, e') :: insertIdx n e r
  end.

Definition indexed (o : Obj) : list (N * (string * V)) :=
  foldr (fun e acc =>
           match arrayIndex (fst e) with
           | Some n => insertIdx n e acc
           | None => acc
           end) [] o.

Definition named (o : Obj) : Obj :=
  List.filter (fun e => match arrayIndex (fst e) with
                        | Some _ => false | None => true end) o.

(** [Object.entries(o)]. *)
Definition entries (o : Obj) : list (string * V) :=
  List.map snd (indexed o) ++ named o.

Definition keys (o : Obj) : list string := List.map fst (entries o).
End Obj.
Arguments Obj : clear implicits.

(** [s.split(c)] for a one-character separator. *)
Fixpoint split (c : ascii) (s : string) : list string :=
  match s with
  | EmptyString => [EmptyString]
  | String a r =>
      if Ascii.eqb a c then EmptyString :: split c r
      else match split c r with
           | h :: t => String a h :: t
           | [] => [String a EmptyString]
           end
  end.

(** [n.toString()] for an integer. *)
Definition showZ (n : Z) : string := NilZero.string_of_int (Z.to_int n).

(** The property key a [string | undefined] value is converted to. *)
Definition keyOf (o : option string) : string := default "undefined" o.

(** [[...new Set(l)]]: first occurrences, in order. *)
Fixpoint uniqFrom (seen l : list string) : list string :=
  match l with
  | [] => []
  | x :: r =>
      if existsb (String.eqb x) seen then uniqFrom seen r
      else x :: uniqFrom (x :: seen) r
  end.

Definition uniq (l : list string) : list string := uniqFrom [] l.

(** [s.endsWith(suffix)]. *)
Definition endsWith (s suffix : string) : bool :=
  let n := String.length s in
  let k := String.length suffix in
  ((k <=? n)%nat && String.eqb (substring (n - k) k s) suffix)%bool.

End JS.

(** ** Binary nodes *)

Definition Bytes := list Byte.byte.

Inductive NodeContent (N : Type) :=
| NoContent
| Children (cs : list N)
| Binary (b : Bytes).
Arguments NoContent {N}.
Arguments Children {N} cs.
Arguments Binary {N} b.

#[warnings="-register-all"] Inductive BinaryNode := Node {
  tag : string;
  attrs : gmap string string;
  content : NodeContent BinaryNode
}.

(** The child nodes of a node whose content is an array. *)
Definition childNodes (n : BinaryNode) : list BinaryNode :=
  match content n with Children cs => cs | _ => [] end.

Definition withAttr (k v : string) (n : BinaryNode) : BinaryNode :=
  Node (tag n) (<[k := v]> (attrs n)) (content n).

(** ** State and exceptions *)

Definition Err := string.

Definition M (S A : Type) : Type := S -> (Err + A) * S.

#[global] Instance M_ret S : MRet (M S) := fun A a s => (inr a, s).

#[global] Instance M_bind S : MBind (M S) := fun A B f m s =>
  match m s with
  | (inr a, s') => f a s'
  | (inl e, s') => (inl e, s')
  end.

Definition throw {S A} (e : Err) : M S A := fun s => (inl e, s).
Definition gets {S A} (f : S -> A) : M S A := fun s => (inr (f s), s).
Definition modify {S} (f : S -> S) : M S unit := fun s => (inr tt, f s).

(** [try { m } catch (err) { h err }]. *)
Definition tryCatch {S A} (m : M S A) (h : Err -> M S A) : M S A := fun s =>
  match m s with
  | (inl e, s') => h e s'
  | r => r
  end.

(** Run a computation on a component of the state. *)
Definition zoom {S T A} (proj : S -> T) (upd : T -> S -> S) (m : M T A) : M S A :=
  fun s => let '(r, t) := m (proj s) in (r, upd t s).

(** [for (const x of l) { await f(x) }]. *)
Fixpoint forEach {S A} (f : A -> M S unit) (l : list A) : M S unit :=
  match l with
  | [] => mret tt
  | x :: r => f x;; forEach f r
  end.

(** [await Promise.all(l.map(f))], tasks taken in order. *)
Fixpoint mapM {S A B} (f : A -> M S B) (l : list A) : M S (list B) :=
  match l with
  | [] => mret []
  | x :: r => y ← f x; ys ← mapM f r; mret (y :: ys)
  end.

(** ** The WABinary helpers

    [jidDecode], [jidEncode] and the predicates on JIDs are imported from
    [../WABinary], which is not among the files modelled here. *)

Record FullJid := {
  user : string;
  server : string;
  device : option Z
}.

Class WABinary := {
  S_WHATSAPP_NET : string;
  jidDecode : string -> option FullJid;
  (** [jidEncode(user, server, device)], each argument possibly
      [undefined] *)
  jidEncode : option string -> option string -> option Z -> string;
  (** [jidNormalizedUser(jid)], [jid] possibly [undefined] *)
  jidNormalizedUser : option string -> string;
  isLidUser : string -> bool;
  isPnUser : string -> bool;
  isHostedLidUser : string -> bool;
  isHostedPnUser : string -> bool;
  isJidGroup : string -> bool;
  areJidsSameUser : string -> string -> bool;
  getBinaryNodeChild : BinaryNode -> string -> option BinaryNode;
  getBinaryNodeChildren : BinaryNode -> string -> list BinaryNode;
  getBinaryNodeChildString : BinaryNode -> string -> option string
}.

(** The predicates applied to a value that may be [undefined]; they are
    taken to be falsy there, and [jidDecode(undefined)] to be [undefined]. *)
Definition optPred (p : string -> bool) (o : option string) : bool :=
  match o with Some j => p j | None => false end.

(** ** [LIDMappingStore] (src/Signal/lid-mapping.ts) *)

(** The store's state: the LRU cache (unbounded; its seven-day expiry is a
    matter of wall-clock time and is not modelled), the ['lid-mapping']
    category of the key store, and the warnings logged so far. *)
Record LIDMappingStore := {
  mappingCache : gmap string string;
  lidMappingKeys : gmap string string;
  lidWarnings : list string
}.

Definition cacheGet (k : string) : M LIDMappingStore (option string) :=
  gets (fun st => mappingCache st !! k).

Definition cacheSet (k v : string) : M LIDMappingStore unit :=
  modify (fun st => {| mappingCache := <[k := v]> (mappingCache st);
                       lidMappingKeys := lidMappingKeys st;
                       lidWarnings := lidWarnings st |}).

(** [(await this.keys.get('lid-mapping', [k]))[k]].  The key store is the
    map [lidMappingKeys] and its promise is taken to resolve: a rejected read
    ends the calling function at this await (lines 44, 93, 134), and what is
    stated about [LIDMappingStore] concerns the calls in which the key store
    answers. *)
Definition keysGet (k : string) : M LIDMappingStore (option string) :=
  gets (fun st => lidMappingKeys st !! k).

(** [await this.keys.set({ 'lid-mapping': { [k1]: v1, [k2]: v2 } })] inside
    [this.keys.transaction] (lines 63-75); when the two computed keys
    coincide the later property wins.  As for the reads, the write is taken to
    resolve: a rejected write ends [storeLIDPNMappings] at this await. *)
Definition keysSet2 (k1 v1 k2 v2 : string) : M LIDMappingStore unit :=
  modify (fun st => {| mappingCache := mappingCache st;
                       lidMappingKeys := <[k2 := v2]> (<[k1 := v1]> (lidMappingKeys st));
                       lidWarnings := lidWarnings st |}).

Definition lidWarn (msg : string) : M LIDMappingStore unit :=
  modify (fun st => {| mappingCache := mappingCache st;
                       lidMappingKeys := lidMappingKeys st;
                       lidWarnings := lidWarnings st ++ [msg] |}).

(** How a loop body leaves: on to the next iteration, or [return] from the
    enclosing function. *)
Inductive Flow (A : Type) :=
| Next (a : A)
| Return.
Arguments Next {A} a.
Arguments Return {A}.

Section LIDMapping.
Context `{WABinary}.

(** The guard of line 27, negated: the pair is a LID user with a PN user, in
    either order. *)
Definition validPair (p : string * string) : bool :=
  let '(lid, pn) := p in
  (isLidUser lid && isPnUser pn) || (isPnUser lid && isLidUser pn).

Definition invalidMappingMessage (p : string * string) : string :=
  "Invalid LID-PN mapping: " +:+ fst p +:+ ", " +:+ snd p.

(** Lines 41-51: the LID user already recorded for [pnUser], cache first,
    then the key store (whose hit is copied into the cache). *)
Definition existingLidUserFor (pnUser : string) : M LIDMappingStore (option string) :=
  cached ← cacheGet ("pn:" +:+ pnUser);
  if JS.truthy cached then mret cached
  else
    stored ← keysGet pnUser;
    match stored with
    | Some e =>
        if JS.truthyStr e
        then cacheSet ("pn:" +:+ pnUser) e;;
             cacheSet ("lid:" +:+ e) pnUser;;
             mret stored
        else mret stored
    | None => mret stored
    end.

(** The validation loop of [storeLIDPNMappings] (lines 26-59), [pairMap]
    being the object built so far. *)
Fixpoint collectPairs (pairs : list (string * string)) (pairMap : JS.Obj string)
  : M LIDMappingStore (Flow (JS.Obj string)) :=
  match pairs with
  | [] => mret (Next pairMap)
  | (lid, pn) :: rest =>
      if negb (validPair (lid, pn)) then
        lidWarn (invalidMappingMessage (lid, pn));;
        collectPairs rest pairMap
      else
        let '(lidJid, pnJid) := if isLidUser lid then (lid, pn) else (pn, lid) in
        match jidDecode lidJid, jidDecode pnJid with
        | Some lidDecoded, Some pnDecoded =>
            let pnUser := user pnDecoded in
            let lidUser := user lidDecoded in
            existingLidUser ← existingLidUserFor pnUser;
            if JS.seq existingLidUser (Some lidUser)
            then collectPairs rest pairMap
            else collectPairs rest (JS.set pnUser lidUser pairMap)
        | _, _ => mret Return
        end
  end.

(** The body of the transaction (lines 64-74) for one entry. *)
Definition storeEntry (e : string * string) : M LIDMappingStore unit :=
  let '(pnUser, lidUser) := e in
  keysSet2 pnUser lidUser (lidUser +:+ "_reverse") pnUser;;
  cacheSet ("pn:" +:+ pnUser) lidUser;;
  cacheSet ("lid:" +:+ lidUser) pnUser.

Definition storeLIDPNMappings (pairs : list (string * string)) : M LIDMappingStore unit :=
  r ← collectPairs pairs [];
  match r with
  | Return => mret tt
  | Next pairMap => forEach storeEntry (JS.entries pairMap)
  end.

Definition getLIDForPN (pn : string) : M LIDMappingStore (option string) :=
  if negb (isPnUser pn) then mret None
  else match jidDecode pn with
  | None => mret None
  | Some decoded =>
      let pnUser := user decoded in
      cached ← cacheGet ("pn:" +:+ pnUser);
      found ←
        (if JS.truthy cached then mret cached
         else
           stored ← keysGet pnUser;
           match stored with
           | Some l =>
               if JS.truthyStr l
               then cacheSet ("pn:" +:+ pnUser) l;;
                    cacheSet ("lid:" +:+ l) pnUser;;
                    mret (Some l)
               else mret None
           | None => mret None
           end);
      match found with
      | None => mret None
      | Some lidUser =>
          if negb (JS.truthyStr lidUser)
          then lidWarn ("Invalid or empty LID user for PN " +:+ pn +:+ ": lidUser = " +:+ lidUser);;
               mret None
          else mret (Some (lidUser +:+ "@lid"))
      end
  end.

Definition getPNForLID (lid : string) : M LIDMappingStore (option string) :=
  if negb (isLidUser lid) then mret None
  else match jidDecode lid with
  | None => mret None
  | Some decoded =>
      let lidUser := user decoded in
      cached ← cacheGet ("lid:" +:+ lidUser);
      found ←
        (if JS.truthy cached then mret cached
         else
           stored ← keysGet (lidUser +:+ "_reverse");
           match stored with
           | Some p =>
               if JS.truthyStr p
               then cacheSet ("lid:" +:+ lidUser) p;; mret (Some p)
               else mret None
           | None => mret None
           end);
      match found with
      | None => mret None
      | Some pnUser => mret (Some (pnUser +:+ "@s.whatsapp.net"))
      end
  end.

End LIDMapping.

(** ** Messages, devices, group metadata *)

(** The optional sub-messages of a [proto.IMessage] that the relay inspects. *)
Inductive MessageField :=
| imageMessage | videoMessage | audioMessage | contactMessage
| documentMessage | contactsArrayMessage | liveLocationMessage
| stickerMessage | listMessage | listResponseMessage
| buttonsResponseMessage | orderMessage | productMessage
| interactiveResponseMessage | groupInviteMessage
| pollCreationMessage | pollCreationMessageV2 | pollCreationMessageV3
| eventMessage | buttonsMessage | interactiveMessage | templateMessage.

(** A [proto.IMessage]: which of the inspected sub-messages are set, the
    flags read inside them, the two wrappers the relay builds itself, and the
    rest of the message as an opaque [body]. *)
#[warnings="-register-all"] Inductive IMessage := Message {
  has : MessageField -> bool;
  gifPlayback : bool;
  ptt : bool;
  nativeFlowButtons : list string;
  messageContextInfo : option Bytes;
  deviceSentMessage : option (string * IMessage);
  senderKeyDistributionMessage : option (Bytes * string);
  body : Bytes
}.

(** What [patchMessageBeforeSending] resolves to: one message for every
    recipient, or an array of [{ recipientJid, message }]. *)
Inductive PatchResult :=
| PatchedOne (m : IMessage)
| PatchedMany (l : list (option string * IMessage)).

(** The [type] of a pairwise Signal ciphertext. *)
Inductive CiphertextType := ct_msg | ct_pkmsg.

#[global] Instance CiphertextType_eq_dec : EqDecision CiphertextType.
Proof. solve_decision. Defined.

Definition ctypeName (t : CiphertextType) : string :=
  match t with ct_msg => "msg" | ct_pkmsg => "pkmsg" end.

(** [DeviceWithJid]: [JidWithDevice & { jid: string }]. *)
Record DeviceWithJid := {
  d_user : string;
  d_device : option Z;
  d_jid : string
}.

(** An item of [extractDeviceJids]'s result. *)
Record ExtractedDevice := {
  x_user : string;
  x_server : string;
  x_device : option Z;
  x_originalJid : option string
}.

Inductive WAMessageAddressingMode := PN | LID.

#[global] Instance WAMessageAddressingMode_eq_dec : EqDecision WAMessageAddressingMode.
Proof. solve_decision. Defined.

Definition addressingModeName (a : WAMessageAddressingMode) : string :=
  match a with PN => "pn" | LID => "lid" end.

Record GroupParticipant := {
  p_id : option string;
  p_jid : option string;
  p_phoneNumber : option string;
  p_lid : option string;
  p_admin : option string
}.

(** [GroupMetadata]; [g_participants] is [None] when the value is not an
    array, [g_cachedAt] is the [_cachedAt] stamp a caller's cache may add. *)
Record GroupMetadata := {
  g_id : string;
  g_notify : option string;
  g_addressingMode : option WAMessageAddressingMode;
  g_subject : option string;
  g_subjectOwner : option string;
  g_subjectOwnerPn : option string;
  g_subjectTime : option Z;
  g_size : option Z;
  g_creation : option Z;
  g_owner : option string;
  g_ownerPn : option string;
  g_owner_country_code : option string;
  g_desc : option string;
  g_descId : option string;
  g_descOwner : option string;
  g_descOwnerPn : option string;
  g_descTime : option Z;
  g_linkedParent : option string;
  g_restrict : bool;
  g_announce : bool;
  g_isCommunity : bool;
  g_isCommunityAnnounce : bool;
  g_joinApprovalMode : bool;
  g_memberAddMode : bool;
  g_participants : option (list GroupParticipant);
  g_ephemeralDuration : option Z;
  g_cachedAt : option Z
}.

(** An entry of the in-memory [groupMetadataCache] of the groups socket. *)
Record CachedGroup := {
  c_participants : list (option string);
  c_addressingMode : option WAMessageAddressingMode;
  c_updatedAt : Z
}.

(** ** [extractGroupMetadata] (the groups socket)

    The optional [logger] argument only receives debug and warning lines and
    is left out.  [toNumber] is the unary plus of the language applied to an
    attribute that may be missing; [None] stands for NaN. *)

Section Groups.
Context `{WABinary}.
Variable toNumber : option string -> option Z.

(** One [participant] child, given its attributes (lines 414-473). *)
Definition extractParticipant
  (lidMappingCache : option (gmap string (gmap string string)))
  (groupId : string) (a : gmap string string) : GroupParticipant :=
  let jid := a !! "jid" in
  let isLid := optPred isLidUser jid in
  let isPn := optPred isPnUser jid in
  let fromCache :=
    match lidMappingCache with
    | Some cache =>
        let mappedPhone := (cache !! groupId) ≫= (fun m => m !! JS.keyOf jid) in
        if JS.truthy mappedPhone && optPred isPnUser mappedPhone
        then mappedPhone else jid
    | None => jid
    end in
  let '(phoneJid, originalLid) :=
    if isPn then (jid, a !! "lid")
    else if isLid then
      (match a !! "phone_number" with
       | Some pn =>
           if JS.truthyStr pn
           then (if isPnUser pn then Some pn else Some (jidNormalizedUser (Some pn)))
           else fromCache
       | None => fromCache
       end, jid)
    else (jid, None) in
  {| p_id := phoneJid;
     p_jid := phoneJid;
     p_phoneNumber := if bool_decide (phoneJid = originalLid) then None else phoneJid;
     p_lid := originalLid;
     p_admin := JS.orElse (a !! "type") None |}.

Definition normalizedAttr (a : gmap string string) (k : string) : option string :=
  if JS.truthy (a !! k) then Some (jidNormalizedUser (a !! k)) else None.

Definition hasChild (n : BinaryNode) (t : string) : bool :=
  bool_decide (is_Some (getBinaryNodeChild n t)).

Definition extractGroupMetadata (result : BinaryNode)
  (lidMappingCache : option (gmap string (gmap string string)))
  : Err + GroupMetadata :=
  match getBinaryNodeChild result "group" with
  | None => inl "TypeError: cannot read properties of undefined"
  | Some group =>
      let descChild := getBinaryNodeChild group "description" in
      let desc := descChild ≫= (fun d => getBinaryNodeChildString d "body") in
      let descOwner := descChild ≫= (fun d => normalizedAttr (attrs d) "participant") in
      let descOwnerPn := descChild ≫= (fun d => normalizedAttr (attrs d) "participant_pn") in
      let descTime := descChild ≫= (fun d => toNumber (attrs d !! "t")) in
      let descId := descChild ≫= (fun d => attrs d !! "id") in
      match attrs group !! "id" with
      | None => inl "TypeError: cannot read properties of undefined"
      | Some gid =>
          let groupId :=
            if existsb (Ascii.eqb "@") (list_ascii_of_string gid)
            then gid else jidEncode (Some gid) (Some "g.us") None in
          let eph := getBinaryNodeChild group "ephemeral" ≫= (fun e => attrs e !! "expiration") in
          let memberAddMode :=
            bool_decide (getBinaryNodeChildString group "member_add_mode" = Some "all_member_add") in
          let participantNodes := getBinaryNodeChildren group "participant" in
          inr {|
            g_id := groupId;
            g_notify := attrs group !! "notify";
            g_addressingMode :=
              Some (if bool_decide (attrs group !! "addressing_mode" = Some "lid") then LID else PN);
            g_subject := attrs group !! "subject";
            g_subjectOwner := attrs group !! "s_o";
            g_subjectOwnerPn := attrs group !! "s_o_pn";
            g_subjectTime := toNumber (attrs group !! "s_t");
            g_size :=
              if JS.truthy (attrs group !! "size") then toNumber (attrs group !! "size")
              else Some (Z.of_nat (length participantNodes));
            g_creation := toNumber (attrs group !! "creation");
            g_owner := normalizedAttr (attrs group) "creator";
            g_ownerPn := normalizedAttr (attrs group) "creator_pn";
            g_owner_country_code := attrs group !! "creator_country_code";
            g_desc := desc;
            g_descId := descId;
            g_descOwner := descOwner;
            g_descOwnerPn := descOwnerPn;
            g_descTime := descTime;
            g_linkedParent :=
              JS.orElse (getBinaryNodeChild group "linked_parent" ≫= (fun l => attrs l !! "jid")) None;
            g_restrict := hasChild group "locked";
            g_announce := hasChild group "announcement";
            g_isCommunity := hasChild group "parent";
            g_isCommunityAnnounce := hasChild group "default_sub_group";
            g_joinApprovalMode := hasChild group "membership_approval_mode";
            g_memberAddMode := memberAddMode;
            g_participants :=
              Some (List.map (fun n => extractParticipant lidMappingCache groupId (attrs n))
                             participantNodes);
            g_ephemeralDuration := if JS.truthy eph then toNumber eph else None;
            g_cachedAt := None
          |}
      end
  end.

End Groups.

(** ** The socket: collaborators, configuration, state *)

(** Everything the modelled functions call but do not define.  [W] is the
    state of the outside world (connection, Signal sessions, clock, random
    source); an operation on it may throw. *)
Class Collaborators (W : Type) := {
  (** an entry of a USync result list, with its [id] and [lid] fields *)
  USyncItem : Type;
  usyncId : USyncItem -> string;
  usyncLid : USyncItem -> option string;
  (** unary plus on an attribute value *)
  toNumber : option string -> option Z;
  (** [Date.now()] *)
  dateNow : M W Z;
  unixTimestampSeconds : M W Z;
  (** [query(node)] on the socket *)
  query : BinaryNode -> M W BinaryNode;
  (** the transport behind [sendNode] *)
  transmit : BinaryNode -> M W unit;
  generateMessageIDV2 : string -> M W string;
  (** [sock.executeUSyncQuery] for a device+LID query in context [message]
      over the given user ids; [None] is a falsy result *)
  executeUSyncQuery : list string -> M W (option (list USyncItem));
  extractDeviceJids : list USyncItem -> string -> option string -> bool -> list ExtractedDevice;
  (** [signalRepository.lidMapping.getLIDsForPNs]; its entries are
      [(pn, lid)] *)
  getLIDsForPNs : list string -> M (LIDMappingStore * W) (option (list (string * string)));
  jidToSignalProtocolAddress : string -> string;
  (** [(await signalRepository.validateSession(jid)).exists] *)
  validateSession : string -> M W bool;
  parseAndInjectE2ESessions : BinaryNode -> M W unit;
  (** [signalRepository.encryptMessage({ jid, data })] *)
  encryptMessage : string -> Bytes -> M W (CiphertextType * Bytes);
  (** [signalRepository.encryptGroupMessage({ group, data, meId })]:
      ciphertext and sender-key distribution message *)
  encryptGroupMessage : string -> Bytes -> string -> M W (Bytes * Bytes);
  encodeWAMessage : IMessage -> Bytes;
  encodeNewsletterMessage : PatchResult -> Bytes;
  (** [encodeSignedDeviceIdentity(authState.creds.account, true)] *)
  encodeSignedDeviceIdentity : Bytes;
  generateParticipantHashV2 : list string -> string;
  (** [normalizeMessageContent(message)?.pinInChatMessage] is truthy *)
  hasPinInChatMessage : IMessage -> bool;
  (** whether the key store behind [authState.keys] takes the write
      [set({ 'device-list': updates })]: the promise may reject; when it
      resolves, the [deviceList] of the socket holds the entries *)
  keysSetDeviceList : list (string * list string) -> M W unit
}.

(** The fields of [SocketConfig] and of [authState.creds] that are read.
    [cacheHasMget] says whether the user-devices cache offers [mget]; whether
    it offers [mset] makes no difference to a cache that is a map. *)
Record SocketConfig (W : Type) := {
  compatV6GroupSend : bool;
  patchMessageBeforeSending : option (IMessage -> option (list string) -> M W PatchResult);
  cachedGroupMetadata : option (string -> M W (option GroupMetadata));
  enableRecentMessageCache : bool;
  cacheHasMget : bool;
  meId : string;
  meLid : option string
}.
Arguments compatV6GroupSend {W}.
Arguments patchMessageBeforeSending {W}.
Arguments cachedGroupMetadata {W}.
Arguments enableRecentMessageCache {W}.
Arguments cacheHasMget {W}.
Arguments meId {W}.
Arguments meLid {W}.

(** The state the socket functions act on.  [sent] lists the nodes handed to
    [sendNode]; [encrypted] lists the pairwise encryptions that returned,
    with the JID and the ciphertext type (it is only ever appended to and
    never read). *)
Record Socket (W : Type) := {
  world : W;
  sent : list BinaryNode;
  encrypted : list (string * CiphertextType);
  lidMapping : LIDMappingStore;
  senderKeyMemory : gmap string (gmap string bool);
  deviceList : gmap string (list string);
  userDevicesCache : gmap string (list DeviceWithJid);
  peerSessionsCache : gmap string bool;
  groupMetadataCache : gmap string CachedGroup;
  lidMappingCache : gmap string (gmap string string);
  recentMessages : list (string * string * IMessage);
  warnings : list string
}.
Arguments world {W}.
Arguments sent {W}.
Arguments encrypted {W}.
Arguments lidMapping {W}.
Arguments senderKeyMemory {W}.
Arguments deviceList {W}.
Arguments userDevicesCache {W}.
Arguments peerSessionsCache {W}.
Arguments groupMetadataCache {W}.
Arguments lidMappingCache {W}.
Arguments recentMessages {W}.
Arguments warnings {W}.

Section SocketState.
Context {W : Type}.

Definition setWorld (w : W) (s : Socket W) : Socket W :=
  {| world := w; sent := sent s; encrypted := encrypted s;
     lidMapping := lidMapping s; senderKeyMemory := senderKeyMemory s;
     deviceList := deviceList s; userDevicesCache := userDevicesCache s;
     peerSessionsCache := peerSessionsCache s;
     groupMetadataCache := groupMetadataCache s;
     lidMappingCache := lidMappingCache s;
     recentMessages := recentMessages s; warnings := warnings s |}.

Definition setSent (x : list BinaryNode) (s : Socket W) : Socket W :=
  {| world := world s; sent := x; encrypted := encrypted s;
     lidMapping := lidMapping s; senderKeyMemory := senderKeyMemory s;
     deviceList := deviceList s; userDevicesCache := userDevicesCache s;
     peerSessionsCache := peerSessionsCache s;
     groupMetadataCache := groupMetadataCache s;
     lidMappingCache := lidMappingCache s;
     recentMessages := recentMessages s; warnings := warnings s |}.

Definition setEncrypted (x : list (string * CiphertextType)) (s : Socket W) : Socket W :=
  {| world := world s; sent := sent s; encrypted := x;
     lidMapping := lidMapping s; senderKeyMemory := senderKeyMemory s;
     deviceList := deviceList s; userDevicesCache := userDevicesCache s;
     peerSessionsCache := peerSessionsCache s;
     groupMetadataCache := groupMetadataCache s;
     lidMappingCache := lidMappingCache s;
     recentMessages := recentMessages s; warnings := warnings s |}.

Definition setLidMapping (x : LIDMappingStore) (s : Socket W) : Socket W :=
  {| world := world s; sent := sent s; encrypted := encrypted s;
     lidMapping := x; senderKeyMemory := senderKeyMemory s;
     deviceList := deviceList s; userDevicesCache := userDevicesCache s;
     peerSessionsCache := peerSessionsCache s;
     groupMetadataCache := groupMetadataCache s;
     lidMappingCache := lidMappingCache s;
     recentMessages := recentMessages s; warnings := warnings s |}.

Definition setSenderKeyMemory (x : gmap string (gmap string bool)) (s : Socket W) : Socket W :=
  {| world := world s; sent := sent s; encrypted := encrypted s;
     lidMapping := lidMapping s; senderKeyMemory := x;
     deviceList := deviceList s; userDevicesCache := userDevicesCache s;
     peerSessionsCache := peerSessionsCache s;
     groupMetadataCache := groupMetadataCache s;
     lidMappingCache := lidMappingCache s;
     recentMessages := recentMessages s; warnings := warnings s |}.

Definition setDeviceList (x : gmap string (list string)) (s : Socket W) : Socket W :=
  {| world := world s; sent := sent s; encrypted := encrypted s;
     lidMapping := lidMapping s; senderKeyMemory := senderKeyMemory s;
     deviceList := x; userDevicesCache := userDevicesCache s;
     peerSessionsCache := peerSessionsCache s;
     groupMetadataCache := groupMetadataCache s;
     lidMappingCache := lidMappingCache s;
     recentMessages := recentMessages s; warnings := warnings s |}.

Definition setUserDevicesCache (x : gmap string (list DeviceWithJid)) (s : Socket W) : Socket W :=
  {| world := world s; sent := sent s; encrypted := encrypted s;
     lidMapping := lidMapping s; senderKeyMemory := senderKeyMemory s;
     deviceList := deviceList s; userDevicesCache := x;
     peerSessionsCache := peerSessionsCache s;
     groupMetadataCache := groupMetadataCache s;
     lidMappingCache := lidMappingCache s;
     recentMessages := recentMessages s; warnings := warnings s |}.

Definition setPeerSessionsCache (x : gmap string bool) (s : Socket W) : Socket W :=
  {| world := world s; sent := sent s; encrypted := encrypted s;
     lidMapping := lidMapping s; senderKeyMemory := senderKeyMemory s;
     deviceList := deviceList s; userDevicesCache := userDevicesCache s;
     peerSessionsCache := x;
     groupMetadataCache := groupMetadataCache s;
     lidMappingCache := lidMappingCache s;
     recentMessages := recentMessages s; warnings := warnings s |}.

Definition setGroupMetadataCache (x : gmap string CachedGroup) (s : Socket W) : Socket W :=
  {| world := world s; sent := sent s; encrypted := encrypted s;
     lidMapping := lidMapping s; senderKeyMemory := senderKeyMemory s;
     deviceList := deviceList s; userDevicesCache := userDevicesCache s;
     peerSessionsCache := peerSessionsCache s;
     groupMetadataCache := x;
     lidMappingCache := lidMappingCache s;
     recentMessages := recentMessages s; warnings := warnings s |}.

Definition setLidMappingCache (x : gmap string (gmap string string)) (s : Socket W) : Socket W :=
  {| world := world s; sent := sent s; encrypted := encrypted s;
     lidMapping := lidMapping s; senderKeyMemory := senderKeyMemory s;
     deviceList := deviceList s; userDevicesCache := userDevicesCache s;
     peerSessionsCache := peerSessionsCache s;
     groupMetadataCache := groupMetadataCache s;
     lidMappingCache := x;
     recentMessages := recentMessages s; warnings := warnings s |}.

Definition setRecentMessages (x : list (string * string * IMessage)) (s : Socket W) : Socket W :=
  {| world := world s; sent := sent s; encrypted := encrypted s;
     lidMapping := lidMapping s; senderKeyMemory := senderKeyMemory s;
     deviceList := deviceList s; userDevicesCache := userDevicesCache s;
     peerSessionsCache := peerSessionsCache s;
     groupMetadataCache := groupMetadataCache s;
     lidMappingCache := lidMappingCache s;
     recentMessages := x; warnings := warnings s |}.

Definition setWarnings (x : list string) (s : Socket W) : Socket W :=
  {| world := world s; sent := sent s; encrypted := encrypted s;
     lidMapping := lidMapping s; senderKeyMemory := senderKeyMemory s;
     deviceList := deviceList s; userDevicesCache := userDevicesCache s;
     peerSessionsCache := peerSessionsCache s;
     groupMetadataCache := groupMetadataCache s;
     lidMappingCache := lidMappingCache s;
     recentMessages := recentMessages s; warnings := x |}.

(** An operation of the outside world, run on the socket. *)
Definition io {A} (m : M W A) : M (Socket W) A := zoom world setWorld m.

(** An operation of the LID mapping store, run on the socket. *)
Definition onLidMapping {A} (m : M LIDMappingStore A) : M (Socket W) A :=
  zoom lidMapping setLidMapping m.

(** An operation that may touch the LID mapping store and the world. *)
Definition onLidMappingAndWorld {A} (m : M (LIDMappingStore * W) A) : M (Socket W) A :=
  zoom (fun s => (lidMapping s, world s))
       (fun p s => setLidMapping (fst p) (setWorld (snd p) s)) m.

Definition warn (msg : string) : M (Socket W) unit :=
  modify (fun s => setWarnings (warnings s ++ [msg]) s).

End SocketState.

(** ** The groups socket ([makeGroupsSocket]) and the send socket
       (src/Socket/messages-send.ts) *)

Record RetryParticipant := {
  rp_jid : string;
  rp_count : Z
}.

Record MessageRelayOptions := {
  messageId : option string;
  participant : option RetryParticipant;
  additionalAttributes : option (gmap string string);
  additionalNodes : option (list BinaryNode);
  useUserDevicesCache : option bool;
  useCachedGroupMetadata : option bool;
  statusJidList : option (list string)
}.

Definition emptyMessage : IMessage :=
  {| has := fun _ => false; gifPlayback := false; ptt := false;
     nativeFlowButtons := []; messageContextInfo := None;
     deviceSentMessage := None; senderKeyDistributionMessage := None;
     body := [] |}.

Definition getMessageType (message : IMessage) : string :=
  if has message pollCreationMessage || has message pollCreationMessageV2
     || has message pollCreationMessageV3 then "poll"
  else if has message eventMessage then "event"
  else "text".

Definition getMediaType (message : IMessage) : string :=
  if has message imageMessage then "image"
  else if has message videoMessage then (if gifPlayback message then "gif" else "video")
  else if has message audioMessage then (if ptt message then "ptt" else "audio")
  else if has message contactMessage then "vcard"
  else if has message documentMessage then "document"
  else if has message contactsArrayMessage then "contact_array"
  else if has message liveLocationMessage then "livelocation"
  else if has message stickerMessage then "sticker"
  else if has message listMessage then "list"
  else if has message listResponseMessage then "list_response"
  else if has message buttonsResponseMessage then "buttons_response"
  else if has message orderMessage then "order"
  else if has message productMessage then "product"
  else if has message interactiveResponseMessage then "native_flow_response"
  else if has message groupInviteMessage then "url"
  else "".

Definition getButtonType (message : IMessage) : option string :=
  if has message buttonsMessage then Some "buttons"
  else if has message buttonsResponseMessage then Some "buttons_response"
  else if has message interactiveResponseMessage then Some "interactive_response"
  else if has message listMessage then Some "list"
  else if has message listResponseMessage then Some "list_response"
  else if has message interactiveMessage then Some "interactive"
  else None.

Definition hasPaymentInfoButton (message : IMessage) : bool :=
  existsb (String.eqb "payment_info") (nativeFlowButtons message).

Definition getButtonArgs (message : IMessage) : gmap string string :=
  if has message templateMessage then ∅
  else if has message listMessage then <["type" := "product_list"]> {["v" := "2"]}
  else if has message interactiveMessage then
    (if hasPaymentInfoButton message
     then <["type" := "native_flow"]> {["v" := "1"]}
     else {["type" := "native_flow"]})
  else ∅.

Definition getButtonContent (message : IMessage) : list BinaryNode :=
  if has message templateMessage then []
  else if has message interactiveMessage then
    (if hasPaymentInfoButton message
     then [Node "native_flow" {["name" := "payment_info"]} NoContent]
     else [Node "native_flow" (<["name" := "mixed"]> {["v" := "2"]}) NoContent])
  else [].

(** Nodes of the shapes the relay looks for. *)
Definition isEncOfType (t : string) (n : BinaryNode) : bool :=
  String.eqb (tag n) "enc" && bool_decide (attrs n !! "type" = Some t).

Definition hasTag (t : string) (n : BinaryNode) : bool := String.eqb (tag n) t.

Section Sockets.
Context `{WABinary} {W : Type} `{Collaborators W}.
Variable config : SocketConfig W.

Abbreviation St := (Socket W).

(** *** The groups socket *)

(** Lines 52-89; whatever is thrown inside is caught and logged. *)
Definition storeLIDMappingsAndParticipants (metadata : GroupMetadata) : M St unit :=
  tryCatch
    (match g_participants metadata with
     | None => throw "TypeError: metadata.participants is not iterable"
     | Some ps =>
         let phoneJidOf p := JS.orElse (p_jid p) (p_id p) in
         let participantIds := List.map phoneJidOf ps in
         let lidMappings : gmap string string :=
           fold_left (fun m p =>
                        if JS.truthy (p_lid p) && JS.truthy (phoneJidOf p)
                           && negb (JS.seq (p_lid p) (phoneJidOf p))
                        then <[JS.keyOf (phoneJidOf p) := JS.keyOf (p_lid p)]>
                               (<[JS.keyOf (p_lid p) := JS.keyOf (phoneJidOf p)]> m)
                        else m) ps ∅ in
         now ← io dateNow;
         modify (fun s => setGroupMetadataCache
                   (<[g_id metadata :=
                        {| c_participants := participantIds;
                           c_addressingMode :=
                             match g_addressingMode metadata with
                             | Some a => Some a
                             | None => Some LID
                             end;
                           c_updatedAt := now |}]> (groupMetadataCache s)) s);;
         if bool_decide (lidMappings = ∅) then mret tt
         else modify (fun s => setLidMappingCache
                        (<[g_id metadata := lidMappings]> (lidMappingCache s)) s)
     end)
    (fun _ => warn "failed to store group metadata").

Definition groupQuery (jid type : string) (content : list BinaryNode) : M St BinaryNode :=
  io (query (Node "iq"
               (<["to" := jid]> (<["xmlns" := "w:g2"]> {["type" := type]}))
               (Children content))).

Definition groupMetadata (jid : string) : M St GroupMetadata :=
  result ← groupQuery jid "get" [Node "query" {["request" := "interactive"]} NoContent];
  cache ← gets lidMappingCache;
  match extractGroupMetadata toNumber result (Some cache) with
  | inl e => throw e
  | inr metadata =>
      storeLIDMappingsAndParticipants metadata;;
      mret metadata
  end.

Definition getCachedGroupMetadata (jid : string) : M St (option CachedGroup) :=
  gets (fun s => groupMetadataCache s !! jid).

(** *** messages-send.ts *)

(** [sendNode(node)]: the node is recorded as handed over, then transmitted. *)
Definition sendNode (node : BinaryNode) : M St unit :=
  modify (fun s => setSent (sent s ++ [node]) s);;
  io (transmit node).

(** Lines 208-259.  [messageIds] is [None] when the argument is missing. *)
Definition sendReceipt (jid : string) (participant : option string)
  (messageIds : option (list string)) (type : option string) : M St unit :=
  match messageIds with
  | None | Some [] => throw "missing ids in receipt"
  | Some (first :: remainingMessageIds) =>
      let isReadReceipt :=
        bool_decide (type = Some "read") || bool_decide (type = Some "read-self") in
      attrs1 ←
        (if isReadReceipt
         then t ← io unixTimestampSeconds;
              mret (<["t" := JS.showZ t]> ({["id" := first]} : gmap string string))
         else mret ({["id" := first]} : gmap string string));
      let attrs2 :=
        if bool_decide (type = Some "sender") && (isPnUser jid || isLidUser jid)
        then match participant with
             | Some p => <["to" := p]> (<["recipient" := jid]> attrs1)
             | None => <["recipient" := jid]> attrs1
             end
        else match participant with
             | Some p =>
                 if JS.truthyStr p
                 then <["participant" := p]> (<["to" := jid]> attrs1)
                 else <["to" := jid]> attrs1
             | None => <["to" := jid]> attrs1
             end in
      let attrs3 :=
        match type with
        | Some t => if JS.truthyStr t then <["type" := t]> attrs2 else attrs2
        | None => attrs2
        end in
      let content :=
        match remainingMessageIds with
        | [] => NoContent
        | _ => Children
                 [Node "list" ∅
                    (Children (List.map (fun id => Node "item" {["id" := id]} NoContent)
                                        remainingMessageIds))]
        end in
      sendNode (Node "receipt" attrs3 content)
  end.

(** [typeof device === 'number' && device >= 0]. *)
Definition isExplicitDevice (device : option Z) : bool :=
  match device with Some d => 0 <=? d | None => false end.

(** The callback of the [map] at lines 297-316: an input with an explicit
    device (and a user) goes to [deviceResults] as it is; any other input is
    kept, normalised unless it is a LID user, together with its user. *)
Definition classifyJid (jid : option string) : DeviceWithJid + (string * option string) :=
  let decoded := jid ≫= jidDecode in
  match jid, decoded with
  | Some j, Some d =>
      if isExplicitDevice (device d) && JS.truthyStr (user d)
      then inl {| d_user := user d; d_device := device d; d_jid := j |}
      else inr (if isLidUser j then j else jidNormalizedUser jid, Some (user d))
  | Some j, None => inr (if isLidUser j then j else jidNormalizedUser jid, None)
  | None, _ => inr (jidNormalizedUser jid, None)
  end.

Definition explicitDevices (jids : list (option string)) : list DeviceWithJid :=
  omap (fun jid => match classifyJid jid with inl d => Some d | inr _ => None end) jids.

Definition jidsWithUser (jids : list (option string)) : list (string * option string) :=
  omap (fun jid => match classifyJid jid with inl _ => None | inr x => Some x end) jids.

(** The cache entry consulted for [user] at lines 328-330.  With [mget] only
    the users asked for can be found. *)
Definition cachedDevicesFor (cache : gmap string (list DeviceWithJid))
  (usersToFetch : list string) (user : option string) : option (list DeviceWithJid) :=
  let k := JS.keyOf user in
  if cacheHasMget config
  then (if existsb (String.eqb k) usersToFetch then cache !! k else None)
  else cache !! k.

(** The loop of lines 326-340: devices taken from the cache, and the JIDs
    left to fetch. *)
Fixpoint splitCached (cache : gmap string (list DeviceWithJid)) (useCache : bool)
  (usersToFetch : list string) (l : list (string * option string))
  : list DeviceWithJid * list string :=
  match l with
  | [] => ([], [])
  | (jid, user) :: r =>
      let '(ds, tf) := splitCached cache useCache usersToFetch r in
      if useCache then
        match cachedDevicesFor cache usersToFetch user with
        | Some devices => (devices ++ ds, tf)
        | None => (ds, jid :: tf)
        end
      else (ds, jid :: tf)
  end.

(** Lines 371-380: the wire JID of an extracted device. *)
Definition withJid (item : ExtractedDevice) : DeviceWithJid :=
  let finalJid :=
    match x_originalJid item with
    | Some o =>
        if JS.truthyStr o
        then jidEncode (head (JS.split ":" (default "" (head (JS.split "@" o)))))
                       (JS.split "@" o !! 1%nat) (x_device item)
        else jidEncode (Some (x_user item)) (Some (x_server item)) (x_device item)
    | None => jidEncode (Some (x_user item)) (Some (x_server item)) (x_device item)
    end in
  {| d_user := x_user item; d_device := x_device item; d_jid := finalJid |}.

(** [deviceMap] of lines 368-386. *)
Definition deviceMapOf (items : list DeviceWithJid) : JS.Obj (list DeviceWithJid) :=
  fold_left (fun dm it =>
               JS.set (d_user it) (default [] (JS.get (d_user it) dm) ++ [it]) dm)
            items [].

Definition deviceName (d : DeviceWithJid) : string :=
  match d_device d with Some n => JS.showZ n | None => "0" end.

Definition getUSyncDevices (jids : list (option string)) (useCache ignoreZeroDevices : bool)
  : M St (list DeviceWithJid) :=
  let explicit := explicitDevices jids in
  let rest := jidsWithUser jids in
  let usersToFetch := omap (fun x => if JS.truthy (snd x) then snd x else None) rest in
  cache ← gets userDevicesCache;
  let '(cached, toFetch) := splitCached cache useCache usersToFetch rest in
  let deviceResults := explicit ++ cached in
  match toFetch with
  | [] => mret deviceResults
  | _ =>
      result ← io (executeUSyncQuery toFetch);
      match result with
      | None => mret deviceResults
      | Some list =>
          let lidResults := List.filter (fun a => JS.truthy (usyncLid a)) list in
          (match lidResults with
           | [] => mret tt
           | _ => onLidMapping
                    (storeLIDPNMappings
                       (List.map (fun a => (JS.keyOf (usyncLid a), usyncId a)) lidResults))
           end);;
          let extracted :=
            extractDeviceJids list (meId config) (meLid config) ignoreZeroDevices in
          let items := List.map withJid extracted in
          let deviceMap := deviceMapOf items in
          modify (fun s => setUserDevicesCache
                    (fold_left (fun c e => <[fst e := snd e]> c)
                               (JS.entries deviceMap) (userDevicesCache s)) s);;
          let userDeviceUpdates :=
            List.filter (fun e => negb (bool_decide (snd e = [])))
                        (JS.entries deviceMap) in
          let userDeviceUpdates :=
            List.map (fun e => (fst e, List.map deviceName (snd e))) userDeviceUpdates in
          (match userDeviceUpdates with
           | [] => mret tt
           | _ =>
               tryCatch
                 (io (keysSetDeviceList userDeviceUpdates);;
                  modify (fun s => setDeviceList
                            (fold_left (fun c e => <[fst e := snd e]> c)
                                       userDeviceUpdates (deviceList s)) s))
                 (fun _ => warn "failed to store user device lists")
           end);;
          mret (deviceResults ++ items)
      end
  end.

(** The loop of lines 444-461: the JIDs for which no session is known. *)
Fixpoint jidsWithoutSession (uniqueJids : list string) : M St (list string) :=
  match uniqueJids with
  | [] => mret []
  | jid :: r =>
      let signalId := jidToSignalProtocolAddress jid in
      cachedSession ← gets (fun s => peerSessionsCache s !! signalId);
      known ←
        (match cachedSession with
         | Some b => mret b
         | None =>
             hasSession ← io (validateSession jid);
             modify (fun s => setPeerSessionsCache
                       (<[signalId := hasSession]> (peerSessionsCache s)) s);;
             mret hasSession
         end : M St bool);
      more ← jidsWithoutSession r;
      mret (if (known : bool) then more else jid :: more)
  end.

Definition assertSessionsInternal (jids : list string) : M St bool :=
  let uniqueJids := JS.uniq jids in
  jidsRequiringFetch ← jidsWithoutSession uniqueJids;
  match jidsRequiringFetch with
  | [] => mret false
  | _ =>
      mapped ← onLidMappingAndWorld
                 (getLIDsForPNs
                    (List.filter (fun jid => isPnUser jid || isHostedPnUser jid)
                                 jidsRequiringFetch));
      let wireJids :=
        List.filter (fun jid => isLidUser jid || isHostedLidUser jid) jidsRequiringFetch
        ++ List.map snd (default [] mapped) in
      result ← io (query
                     (Node "iq"
                        (<["to" := S_WHATSAPP_NET]>
                           (<["type" := "get"]> {["xmlns" := "encrypt"]}))
                        (Children
                           [Node "key" ∅
                              (Children (List.map (fun jid => Node "user" {["jid" := jid]} NoContent)
                                                  wireJids))])));
      io (parseAndInjectE2ESessions result);;
      modify (fun s => setPeerSessionsCache
                (fold_left (fun c wireJid => <[jidToSignalProtocolAddress wireJid := true]> c)
                           wireJids (peerSessionsCache s)) s);;
      mret true
  end.

Definition assertSessions (jids : list string) : M St bool :=
  if compatV6GroupSend config
  then tryCatch (assertSessionsInternal jids) (fun _ => mret false)
  else assertSessionsInternal jids.

(** [signalRepository.encryptMessage], with the outcome noted in
    [encrypted]. *)
Definition encryptPairwise (jid : string) (data : Bytes) : M St (CiphertextType * Bytes) :=
  r ← io (encryptMessage jid data);
  modify (fun s => setEncrypted (encrypted s ++ [(jid, fst r)]) s);;
  mret r.

Definition callPatch (message : IMessage) (recipientJids : option (list string))
  : M St PatchResult :=
  match patchMessageBeforeSending config with
  | Some patch => io (patch message recipientJids)
  | None => throw "TypeError: patchMessageBeforeSending is not a function"
  end.

(** [meLid ? jidDecode(meLid)?.user : null]. *)
Definition meLidUserOf : option string :=
  if JS.truthy (meLid config) then user <$> (meLid config ≫= jidDecode) else None.

(** [jid === meId || (meLid && jid === meLid)]. *)
Definition isExactSenderDevice (jid : string) : bool :=
  String.eqb jid (meId config)
  || (JS.truthy (meLid config) && JS.seq (Some jid) (meLid config)).

(** The task run for one entry of [patchedMessages] (lines 562-623): the
    [<to>] node, if any, and whether the ciphertext is a [pkmsg]. *)
Definition encryptFor (extraAttrs : gmap string string) (dsmMessage : option IMessage)
  (entry : option string * IMessage) : M St (option BinaryNode * bool) :=
  let '(recipientJid, patchedMessage) := entry in
  match recipientJid with
  | None => mret (None, false)
  | Some jid =>
      if negb (JS.truthyStr jid) then mret (None, false)
      else
        msgToEncrypt ←
          (match dsmMessage with
          | None => mret patchedMessage
          | Some dsm =>
              match jidDecode jid, jidDecode (meId config) with
              | Some target, Some own =>
                  let targetUser := user target in
                  let ownPnUser := user own in
                  let isOwnUser :=
                    String.eqb targetUser ownPnUser
                    || (JS.truthy meLidUserOf && JS.seq (Some targetUser) meLidUserOf) in
                  mret (if isOwnUser && negb (isExactSenderDevice jid)
                        then dsm else patchedMessage)
              | _, _ => throw "TypeError: cannot destructure property 'user'"
              end
          end : M St IMessage);
        let bytes := encodeWAMessage msgToEncrypt in
        tryCatch
          ('(type, ciphertext) ← encryptPairwise jid bytes;
           mret (Some (Node "to" {["jid" := jid]}
                         (Children
                            [Node "enc"
                               (extraAttrs ∪ <["type" := ctypeName type]> {["v" := "2"]})
                               (Binary ciphertext)])),
                 bool_decide (type = ct_pkmsg)))
          (fun err =>
             if compatV6GroupSend config
             then warn "error encrypting for device ignored";;
                  (mret (None, false) : M St (option BinaryNode * bool))
             else throw err)
  end.

Definition createParticipantNodes (recipientJids : list string) (message : IMessage)
  (extraAttrs : option (gmap string string)) (dsmMessage : option IMessage)
  : M St (list BinaryNode * bool) :=
  match recipientJids with
  | [] => mret ([], false)
  | _ =>
      patched ← callPatch message (Some recipientJids);
      let patchedMessages :=
        match patched with
        | PatchedMany l => l
        | PatchedOne m => List.map (fun jid => (Some jid, m)) recipientJids
        end in
      results ← mapM (encryptFor (default ∅ extraAttrs) dsmMessage) patchedMessages;
      mret (omap fst results, existsb snd results)
  end.

(** *** [relayMessage] (lines 630-1120) *)

(** What the destination-specific part of [relayMessage] leaves behind:
    [binaryNodeContent], [participants], [shouldIncludeDeviceIdentity],
    [additionalAttributes], and [extraAttrs] as it stands at the end. *)
Record RelayParts := {
  r_content : list BinaryNode;
  r_participants : list BinaryNode;
  r_identity : bool;
  r_attrs : gmap string string;
  r_extraAttrs : gmap string string
}.

Definition CACHE_MAX_AGE : Z := 5 * 60 * 1000.

Definition statusJid : string := "status@broadcast".

(** The group data built from the internal cache (lines 757-764). *)
Definition minimalGroupData (jid : string) (cached : CachedGroup) : GroupMetadata :=
  {| g_id := jid; g_notify := None;
     g_addressingMode := c_addressingMode cached;
     g_subject := Some ""; g_subjectOwner := None; g_subjectOwnerPn := None;
     g_subjectTime := None; g_size := None; g_creation := Some 0;
     g_owner := None; g_ownerPn := None; g_owner_country_code := None;
     g_desc := None; g_descId := None; g_descOwner := None;
     g_descOwnerPn := None; g_descTime := None; g_linkedParent := None;
     g_restrict := false; g_announce := false; g_isCommunity := false;
     g_isCommunityAnnounce := false; g_joinApprovalMode := false;
     g_memberAddMode := false;
     g_participants :=
       Some (List.map (fun id => {| p_id := id; p_jid := None; p_phoneNumber := None;
                                    p_lid := None; p_admin := None |})
                      (c_participants cached));
     g_ephemeralDuration := None; g_cachedAt := None |}.

Definition fetchedGroupData (jid : string) : M St (option GroupMetadata) :=
  g ← groupMetadata jid; mret (Some g).

(** Lines 724-776: the caller's cache, then the internal cache, then the
    server. *)
Definition loadGroupData (jid : string) (isStatus useCachedGroupMetadata : bool)
  : M St (option GroupMetadata) :=
  fromCaller ←
    (match useCachedGroupMetadata, cachedGroupMetadata config with
     | true, Some lookup => io (lookup jid)
     | _, _ => mret None
     end : M St (option GroupMetadata));
  groupData ←
    (match fromCaller with
     | Some g =>
         if JS.truthyNum (g_cachedAt g) then
           now ← io dateNow;
           mret (if CACHE_MAX_AGE <? (now : Z) - default 0 (g_cachedAt g)
                 then None else fromCaller)
         else mret fromCaller
     | None => mret None
     end : M St (option GroupMetadata));
  if bool_decide (is_Some (groupData ≫= g_participants)) then mret groupData
  else if isStatus then mret groupData
  else
    cached ← getCachedGroupMetadata jid;
    match cached with
    | Some c =>
        match c_participants c with
        | [] => fetchedGroupData jid
        | _ =>
            now ← io dateNow;
            if (now : Z) - c_updatedAt c <? CACHE_MAX_AGE
            then mret (Some (minimalGroupData jid c))
            else fetchedGroupData jid
        end
    | None => fetchedGroupData jid
    end.

(** Lines 777-795. *)
Definition loadSenderKeyMap (jid : string) (participant : option RetryParticipant)
  (isStatus : bool) : M St (gmap string bool) :=
  match participant with
  | None =>
      if isStatus then mret ∅
      else gets (fun s => default ∅ (senderKeyMemory s !! jid))
  | Some _ => mret ∅
  end.

Definition isLidGroupData (groupData : option GroupMetadata) : bool :=
  bool_decide (groupData ≫= g_addressingMode = Some LID).

(** Lines 798-844, the recipients of a fresh group or status send: the
    devices to address and the updated [additionalAttributes]. *)
Definition groupRecipients (isStatus : bool) (groupData : option GroupMetadata)
  (statusJidList : option (list string)) (useUserDevicesCache : bool)
  (additionalAttributes : gmap string string)
  : M St (list DeviceWithJid * gmap string string) :=
  participantsList0 ←
    (match groupData with
     | Some g =>
         if isStatus then mret []
         else match g_participants g with
              | Some ps => mret (List.map (fun p => JS.orElse (p_lid p) (p_id p)) ps)
              | None => throw "TypeError: groupData.participants.map is not a function"
              end
     | None => mret []
     end : M St (list (option string)));
  participantsList1 ←
    (if negb isStatus && isLidGroupData groupData then
       match omap (fun p => if optPred isPnUser p then p else None) participantsList0 with
       | [] => mret participantsList0
       | pnParticipants =>
           lidMappings ← onLidMappingAndWorld (getLIDsForPNs pnParticipants);
           match lidMappings with
           | Some ((_ :: _) as l) =>
               let lidMap : gmap string string :=
                 fold_left (fun m e => <[fst e := snd e]> m) l ∅ in
               mret (List.map (fun p => JS.orElse (p ≫= (fun k => lidMap !! k)) p)
                              participantsList0)
           | _ => mret participantsList0
           end
       end
     else mret participantsList0 : M St (list (option string)));
  let participantsList :=
    if isStatus then participantsList1 ++ List.map Some (default [] statusJidList)
    else participantsList1 in
  let attrs' :=
    if negb isStatus
    then <["addressing_mode" :=
             addressingModeName (default PN (groupData ≫= g_addressingMode))]>
           additionalAttributes
    else additionalAttributes in
  additionalDevices ← getUSyncDevices participantsList useUserDevicesCache false;
  let myJid := if isLidGroupData groupData then meLid config else Some (meId config) in
  let myUser := user <$> (myJid ≫= jidDecode) in
  let Mephone :=
    existsb (fun d => JS.seq (Some (d_user d)) myUser
                      && bool_decide (d_device d = Some 0)) additionalDevices in
  let own :=
    if negb Mephone && JS.truthy myUser && JS.truthy myJid
    then [{| d_user := JS.keyOf myUser; d_device := Some 0;
             d_jid := jidNormalizedUser myJid |}]
    else [] in
  mret (additionalDevices ++ own, attrs').

(** Lines 880-885: the JID under which a device gets the sender key. *)
Definition senderIdOf (d : DeviceWithJid) : string :=
  let server := JS.orElse (server <$> jidDecode (d_jid d)) (Some "lid") in
  jidEncode (Some (d_user d)) server (d_device d).

Definition senderKeyJidsOf (devices : list DeviceWithJid) : list string :=
  List.map senderIdOf devices.

Definition markAll (senderKeyJids : list string) (senderKeyMap : gmap string bool)
  : gmap string bool :=
  fold_left (fun m senderId => <[senderId := true]> m) senderKeyJids senderKeyMap.

Definition senderKeyMessage (skdm : Bytes) (groupId : string) : IMessage :=
  {| has := fun _ => false; gifPlayback := false; ptt := false;
     nativeFlowButtons := []; messageContextInfo := None;
     deviceSentMessage := None;
     senderKeyDistributionMessage := Some (skdm, groupId);
     body := [] |}.

(** Lines 722-930: a group or status destination. *)
Definition relayToGroup (jid : string) (message : IMessage)
  (participant : option RetryParticipant) (isStatus : bool)
  (statusJidList : option (list string))
  (useUserDevicesCache useCachedGroupMetadata : bool)
  (devices0 : list DeviceWithJid)
  (additionalAttributes extraAttrs : gmap string string)
  : M St RelayParts :=
  let isRetryResend :=
    match participant with Some p => JS.truthyStr (rp_jid p) | None => false end in
  let destinationJid := if negb isStatus then jid else statusJid in
  groupData ← loadGroupData jid isStatus useCachedGroupMetadata;
  senderKeyMap ← loadSenderKeyMap jid participant isStatus;
  '(devices, attrs1) ←
    (match participant with
     | None =>
         groupRecipients isStatus groupData statusJidList useUserDevicesCache
                         additionalAttributes
     | Some _ => mret (devices0, additionalAttributes)
     end : M St (list DeviceWithJid * gmap string string));
  let attrs2 :=
    match groupData ≫= g_ephemeralDuration with
    | Some e => if 0 <? e then <["expiration" := JS.showZ e]> attrs1 else attrs1
    | None => attrs1
    end in
  patched ← callPatch message None;
  match patched with
  | PatchedMany _ => throw "Per-jid patching is not supported in groups"
  | PatchedOne patchedMessage =>
      let bytes := encodeWAMessage patchedMessage in
      let groupMeId :=
        if isLidGroupData groupData && JS.truthy (meLid config)
        then JS.keyOf (meLid config) else meId config in
      '(ciphertext, senderKeyDistributionMessage) ←
        io (encryptGroupMessage destinationJid bytes groupMeId);
      let senderKeyJids := senderKeyJidsOf devices in
      let senderKeyMap' := markAll senderKeyJids senderKeyMap in
      '(nodes, identity) ←
        (match senderKeyJids with
         | [] => mret ([], false)
         | _ =>
             assertSessions senderKeyJids;;
             createParticipantNodes senderKeyJids
               (senderKeyMessage senderKeyDistributionMessage destinationJid)
               (Some extraAttrs) None
         end : M St (list BinaryNode * bool));
      let partsWith content :=
        {| r_content := content;
           r_participants := nodes;
           r_identity := isRetryResend || (identity : bool);
           r_attrs := attrs2;
           r_extraAttrs := extraAttrs |} in
      let skmsg :=
        Node "enc" (extraAttrs ∪ <["type" := "skmsg"]> {["v" := "2"]}) (Binary ciphertext) in
      let storeSenderKeyMap :=
        modify (fun s => setSenderKeyMemory
                  (<[jid := senderKeyMap']> (senderKeyMemory s)) s) in
      match participant with
      | Some p =>
          if isRetryResend then
            '(type, encryptedContent) ← encryptPairwise (rp_jid p) bytes;
            mret (partsWith
                    [Node "enc"
                       (<["count" := JS.showZ (rp_count p)]>
                          (<["type" := ctypeName type]> {["v" := "2"]}))
                       (Binary encryptedContent)])
          else storeSenderKeyMap;; mret (partsWith [skmsg])
      | None => storeSenderKeyMap;; mret (partsWith [skmsg])
      end
  end.

(** Lines 993-1010: the sender's exact device is skipped, the others are
    split into the sender's own devices and the rest. *)
Definition directRecipients (mePnUser : string) (meLidUser : option string)
  (devices : list DeviceWithJid) : list string * list string :=
  let kept := List.filter (fun d => negb (isExactSenderDevice (d_jid d))) devices in
  let isMe d :=
    String.eqb (d_user d) mePnUser || JS.seq (Some (d_user d)) meLidUser in
  (List.map d_jid (List.filter isMe kept),
   List.map d_jid (List.filter (fun d => negb (isMe d)) kept)).

(** Lines 931-1030: any other destination.  [jidDecode(meLid)!.user] and
    [jidDecode(meId)!.user] at line 954 decode [ownId] again and give
    [ownUser]. *)
Definition relayDirect (jid destUser : string) (isLid : bool) (message meMsg : IMessage)
  (participant : option RetryParticipant)
  (devices0 : list DeviceWithJid)
  (additionalAttributes extraAttrs : gmap string string)
  : M St RelayParts :=
  let isRetryResend :=
    match participant with Some p => JS.truthyStr (rp_jid p) | None => false end in
  let useLid := isLid && JS.truthy (meLid config) in
  let ownId := if useLid then JS.keyOf (meLid config) else meId config in
  match jidDecode ownId with
  | None => throw "TypeError: cannot destructure property 'user'"
  | Some own =>
      let ownUser := user own in
      devices ←
        (match participant with
         | Some _ => mret devices0
         | None =>
             let targetUserServer := if isLid then "lid" else "s.whatsapp.net" in
             let target :=
               {| d_user := destUser; d_device := Some 0;
                  d_jid := jidEncode (Some destUser) (Some targetUserServer) (Some 0) |} in
             let placeholders :=
               if negb (String.eqb destUser ownUser)
               then [target;
                     {| d_user := ownUser; d_device := Some 0;
                        d_jid := jidEncode (Some ownUser) (Some targetUserServer) (Some 0) |}]
               else [target] in
             if negb (bool_decide (additionalAttributes !! "category" = Some "peer")) then
               let senderIdentity :=
                 if useLid
                 then jidEncode (user <$> (meLid config ≫= jidDecode)) (Some "lid") None
                 else jidEncode (user <$> jidDecode (meId config))
                                (Some "s.whatsapp.net") None in
               getUSyncDevices [Some senderIdentity; Some jid] true false
             else mret placeholders
         end : M St (list DeviceWithJid));
      match jidDecode (meId config) with
      | None => throw "TypeError: cannot destructure property 'user'"
      | Some mePn =>
          meLidUser ←
            (if JS.truthy (meLid config) then
               match meLid config ≫= jidDecode with
               | Some l => mret (Some (user l))
               | None => throw "TypeError: cannot destructure property 'user'"
               end
             else mret None : M St (option string));
          let '(meRecipients, otherRecipients) :=
            directRecipients (user mePn) meLidUser devices in
          let allRecipients :=
            List.map d_jid
              (List.filter (fun d => negb (isExactSenderDevice (d_jid d))) devices) in
          assertSessions allRecipients;;
          '(meNodes, s1) ← createParticipantNodes meRecipients meMsg (Some extraAttrs) None;
          '(otherNodes, s2) ←
            createParticipantNodes otherRecipients message (Some extraAttrs) (Some meMsg);
          let extraAttrs' :=
            match meRecipients ++ otherRecipients with
            | [] => extraAttrs
            | l => <["phash" := generateParticipantHashV2 l]> extraAttrs
            end in
          mret {| r_content := [];
                  r_participants := meNodes ++ otherNodes;
                  r_identity := isRetryResend || (s1 : bool) || (s2 : bool);
                  r_attrs := additionalAttributes;
                  r_extraAttrs := extraAttrs' |}
      end
  end.

(** Lines 1062-1074: the routing attributes. *)
Definition routeStanza (destinationJid : string) (participant : option RetryParticipant)
  (a : gmap string string) : gmap string string :=
  match participant with
  | Some p =>
      if isJidGroup destinationJid
      then <["participant" := rp_jid p]> (<["to" := destinationJid]> a)
      else if areJidsSameUser (rp_jid p) (meId config)
      then <["recipient" := destinationJid]> (<["to" := rp_jid p]> a)
      else <["to" := rp_jid p]> a
  | None => <["to" := destinationJid]> a
  end.

(** Lines 1032-1107: the stanza built from the parts. *)
Definition assembleStanza (msgId destinationJid : string) (message : IMessage)
  (participant : option RetryParticipant) (additionalNodes : option (list BinaryNode))
  (parts : RelayParts) : BinaryNode :=
  let wrapped :=
    match r_participants parts with
    | [] => []
    | first :: _ =>
        if bool_decide (r_attrs parts !! "category" = Some "peer")
        then match childNodes first with
             | peerNode :: _ => [peerNode]
             | [] => []
             end
        else [Node "participants" ∅ (Children (r_participants parts))]
    end in
  let stanzaAttrs :=
    routeStanza destinationJid participant
      (r_attrs parts
         ∪ <["type" := getMessageType message]>
             (<["to" := destinationJid]> {["id" := msgId]})) in
  let identity :=
    if r_identity parts
    then [Node "device-identity" ∅ (Binary encodeSignedDeviceIdentity)]
    else [] in
  let biz :=
    match getButtonType message with
    | Some buttonType =>
        [Node "biz" ∅
           (Children
              [Node buttonType (getButtonArgs message)
                 (if String.eqb buttonType "list" then NoContent
                  else Children (getButtonContent message))])]
    | None => []
    end in
  Node "message" stanzaAttrs
    (Children (r_content parts ++ wrapped ++ identity ++ biz ++ default [] additionalNodes)).

Definition relayMessage (jid : string) (message : IMessage) (opts : MessageRelayOptions)
  : M St string :=
  let isRetryResend :=
    match participant opts with Some p => JS.truthyStr (rp_jid p) | None => false end in
  match jidDecode jid with
  | None => throw "TypeError: cannot destructure property 'user'"
  | Some decoded =>
      let isGroup := String.eqb (server decoded) "g.us" in
      let isStatus := String.eqb jid statusJid in
      let isLid := String.eqb (server decoded) "lid" in
      let isNewsletter := String.eqb (server decoded) "newsletter" in
      msgId ←
        (if JS.truthy (messageId opts) then mret (JS.keyOf (messageId opts))
         else io (generateMessageIDV2 (meId config)) : M St string);
      let useUserDevicesCache' := negb (bool_decide (useUserDevicesCache opts = Some false)) in
      let useCachedGroupMetadata' :=
        negb (bool_decide (useCachedGroupMetadata opts = Some false)) && negb isStatus in
      let destinationJid := if negb isStatus then jid else statusJid in
      let meMsg :=
        {| has := fun _ => false; gifPlayback := false; ptt := false;
           nativeFlowButtons := [];
           messageContextInfo := messageContextInfo message;
           deviceSentMessage := Some (destinationJid, message);
           senderKeyDistributionMessage := None; body := [] |} in
      let attrs0 := default ∅ (additionalAttributes opts) in
      '(devices0, attrs1) ←
        (match participant opts with
         | Some p =>
             match jidDecode (rp_jid p) with
             | Some pd =>
                 mret ([{| d_user := user pd; d_device := device pd;
                           d_jid := rp_jid p |}],
                       if negb isGroup && negb isStatus
                       then <["device_fanout" := "false"]> attrs0 else attrs0)
             | None => throw "TypeError: cannot destructure property 'user'"
             end
         | None => mret ([], attrs0)
         end : M St (list DeviceWithJid * gmap string string));
      (** the body of [authState.keys.transaction]; committing and rolling
          back are the key store's business and are not modelled *)
      let mediaType := getMediaType message in
      let extraAttrs0 : gmap string string :=
        if JS.truthyStr mediaType then {["mediatype" := mediaType]} else ∅ in
      if isNewsletter then
        patched ←
          (match patchMessageBeforeSending config with
           | Some patch => io (patch message (Some []))
           | None => mret (PatchedOne message)
           end : M St PatchResult);
        let bytes := encodeNewsletterMessage patched in
        sendNode
          (Node "message"
             (attrs1 ∪ <["type" := getMessageType message]>
                         (<["id" := msgId]> {["to" := jid]}))
             (Children [Node "plaintext" ∅ (Binary bytes)]));;
        mret msgId
      else
        let extraAttrs :=
          if hasPinInChatMessage message
          then <["decrypt-fail" := "hide"]> extraAttrs0 else extraAttrs0 in
        parts ←
          (if isGroup || isStatus
           then relayToGroup jid message (participant opts) isStatus (statusJidList opts)
                  useUserDevicesCache' useCachedGroupMetadata' devices0 attrs1 extraAttrs
           else relayDirect jid (user decoded) isLid message meMsg
                  (participant opts) devices0 attrs1 extraAttrs);
        sendNode (assembleStanza msgId destinationJid message (participant opts)
                    (additionalNodes opts) parts);;
        (if enableRecentMessageCache config
            && negb (bool_decide (is_Some (participant opts)))
         then modify (fun s => setRecentMessages
                        (recentMessages s ++ [(destinationJid, msgId, message)]) s)
         else mret tt);;
        mret msgId
  end.

End Sockets.

(** ** A sample environment

    Concrete collaborators on which the functions above can be run.  The JID
    helpers follow the grammar [user[_agent][:device]@server] that
    messages-send.ts itself relies on when it takes a JID apart (lines
    372-374). *)

Module Sample.

Fixpoint splitAtFirst (c : ascii) (s : string) : option (string * string) :=
  match s with
  | EmptyString => None
  | String a r =>
      if Ascii.eqb a c then Some (EmptyString, r)
      else match splitAtFirst c r with
           | Some (u, v) => Some (String a u, v)
           | None => None
           end
  end.

Definition decodeJid (jid : string) : option FullJid :=
  match splitAtFirst "@" jid with
  | None => None
  | Some (userCombined, server) =>
      let parts := JS.split ":" userCombined in
      let userAgent := default "" (head parts) in
      let user := default "" (head (JS.split "_" userAgent)) in
      Some {| user := user; server := server;
              device := if JS.truthy (parts !! 1%nat)
                        then Z.of_N <$> (parts !! 1%nat ≫= JS.parseDec)
                        else None |}
  end.

Definition encodeJid (user server : option string) (device : option Z) : string :=
  (if JS.truthy user then JS.keyOf user else "")
  +:+ (if JS.truthyNum device then ":" +:+ JS.showZ (default 0 device) else "")
  +:+ "@" +:+ JS.keyOf server.

Definition normalizedUser (jid : option string) : string :=
  match jid ≫= decodeJid with
  | None => ""
  | Some d =>
      encodeJid (Some (user d))
                (Some (if String.eqb (server d) "c.us" then "s.whatsapp.net" else server d))
                None
  end.

Definition sameUser (a b : string) : bool :=
  bool_decide (user <$> decodeJid a = user <$> decodeJid b).

Definition childrenWithTag (n : BinaryNode) (t : string) : list BinaryNode :=
  List.filter (hasTag t) (childNodes n).

Definition childWithTag (n : BinaryNode) (t : string) : option BinaryNode :=
  head (childrenWithTag n t).

Definition childString (n : BinaryNode) (t : string) : option string :=
  match childWithTag n t with
  | Some c => match content c with
              | Binary b => Some (string_of_list_byte b)
              | _ => None
              end
  | None => None
  end.

#[export] Instance wabinary : WABinary := {|
  S_WHATSAPP_NET := "@s.whatsapp.net";
  jidDecode := decodeJid;
  jidEncode := encodeJid;
  jidNormalizedUser := normalizedUser;
  isLidUser := fun j => JS.endsWith j "@lid";
  isPnUser := fun j => JS.endsWith j "@s.whatsapp.net";
  isHostedLidUser := fun j => JS.endsWith j "@hosted.lid";
  isHostedPnUser := fun j => JS.endsWith j "@hosted";
  isJidGroup := fun j => JS.endsWith j "@g.us";
  areJidsSameUser := sameUser;
  getBinaryNodeChild := childWithTag;
  getBinaryNodeChildren := childrenWithTag;
  getBinaryNodeChildString := childString
|}.

(** The sample world: the JIDs with which a Signal session exists.  The first
    encryption for a JID yields a [pkmsg] and establishes the session. *)
Definition World := list string.

Definition hasSession (jid : string) (w : World) : bool := existsb (String.eqb jid) w.

(** A USync entry: the user's id, its LID if any, its device numbers. *)
Definition Item : Type := string * option string * list Z.

Definition devicesOfItem (i : Item) : list ExtractedDevice :=
  match decodeJid (fst (fst i)) with
  | Some d =>
      List.map (fun n => {| x_user := user d; x_server := server d;
                            x_device := Some n; x_originalJid := None |}) (snd i)
  | None => []
  end.

(** The reply the sample server gives to every query: the metadata of a
    group of two members. *)
Definition groupReply : BinaryNode :=
  Node "iq" ∅
    (Children
       [Node "group" (<["addressing_mode" := "pn"]> {["id" := "120363"]})
          (Children
             [Node "participant" {["jid" := "777@s.whatsapp.net"]} NoContent;
              Node "participant" (<["phone_number" := "888@s.whatsapp.net"]>
                                    {["jid" := "4242@lid"]}) NoContent])]).

#[export] Instance collaborators : Collaborators World := {|
  USyncItem := Item;
  usyncId := fun i => fst (fst i);
  usyncLid := fun i => snd (fst i);
  toNumber := fun o => Z.of_N <$> (o ≫= JS.parseDec);
  dateNow := mret 1700000000000;
  unixTimestampSeconds := mret 1700000000;
  query := fun _ => mret groupReply;
  transmit := fun _ => mret tt;
  generateMessageIDV2 := fun _ => mret "3EB0A1";
  executeUSyncQuery := fun ids => mret (Some (List.map (fun j => (j, None, [0; 3])) ids));
  extractDeviceJids := fun l _ _ ignoreZero =>
    List.filter (fun x => negb (ignoreZero && bool_decide (x_device x = Some 0)))
                (List.concat (List.map devicesOfItem l));
  getLIDsForPNs := fun _ => mret None;
  jidToSignalProtocolAddress := fun j => j;
  validateSession := fun j => gets (hasSession j);
  parseAndInjectE2ESessions := fun _ => mret tt;
  encryptMessage := fun j data w =>
    (inr (if hasSession j w then ct_msg else ct_pkmsg, data), j :: w);
  encryptGroupMessage := fun _ data _ => mret (data, data);
  encodeWAMessage := body;
  encodeNewsletterMessage := fun p =>
    match p with PatchedOne m => body m | PatchedMany _ => [] end;
  encodeSignedDeviceIdentity := [];
  generateParticipantHashV2 := fun _ => "2:hash";
  hasPinInChatMessage := fun _ => false;
  keysSetDeviceList := fun _ => mret tt
|}.

(** The default patch callback: the message goes out as it is. *)
Definition identityPatch (m : IMessage) (_ : option (list string)) : M World PatchResult :=
  mret (PatchedOne m).

(** A callback that answers with an envelope for the sender's own device,
    whatever recipients it was given. *)
Definition echoToSenderPatch (me : string) (m : IMessage) (_ : option (list string))
  : M World PatchResult :=
  mret (PatchedMany [(Some me, m)]).

Definition me : string := "5511999:3@s.whatsapp.net".

Definition configWith (compat : bool)
  (patch : IMessage -> option (list string) -> M World PatchResult) : SocketConfig World :=
  {| compatV6GroupSend := compat;
     patchMessageBeforeSending := Some patch;
     cachedGroupMetadata := None;
     enableRecentMessageCache := true;
     cacheHasMget := true;
     meId := me;
     meLid := Some "9001:3@lid" |}.

Definition emptyLidMapping : LIDMappingStore :=
  {| mappingCache := ∅; lidMappingKeys := ∅; lidWarnings := [] |}.

Definition freshSocket : Socket World :=
  {| world := []; sent := []; encrypted := [];
     lidMapping := emptyLidMapping;
     senderKeyMemory := ∅; deviceList := ∅; userDevicesCache := ∅;
     peerSessionsCache := ∅; groupMetadataCache := ∅; lidMappingCache := ∅;
     recentMessages := []; warnings := [] |}.

(** A socket whose sender-key-memory already lists a device of the group. *)
Definition groupJid : string := "120363@g.us".

Definition knownDeviceSocket : Socket World :=
  setSenderKeyMemory {[groupJid := {["777@s.whatsapp.net" := true]}]} freshSocket.

Definition textMessage : IMessage := emptyMessage.

Definition plainOptions : MessageRelayOptions :=
  {| messageId := Some "MSG1"; participant := None; additionalAttributes := None;
     additionalNodes := None; useUserDevicesCache := None;
     useCachedGroupMetadata := None; statusJidList := None |}.

Definition retryOptions (jid : string) (count : Z) : MessageRelayOptions :=
  {| messageId := Some "MSG1";
     participant := Some {| rp_jid := jid; rp_count := count |};
     additionalAttributes := None; additionalNodes := None;
     useUserDevicesCache := None; useCachedGroupMetadata := None;
     statusJidList := None |}.

End Sample.

(** ** Statements *)

(** The phone number the group's cached mappings hold for a LID. *)
Definition cachedPhone (cache : option (gmap string (gmap string string)))
  (groupId : string) (jid : option string) : option string :=
  match cache with
  | Some c =>
      match c !! groupId with
      | Some m => m !! JS.keyOf jid
      | None => None
      end
  | None => None
  end.

(** What both fields hold: the participant's own JID when it is a phone
    number or of an unexpected form; for a LID the [phone_number] attribute
    (normalised if need be), else the phone number cached for the group, else
    the LID itself. *)
Definition resolvedPhoneJid `{WABinary}
  (cache : option (gmap string (gmap string string))) (groupId : string)
  (a : gmap string string) : option string :=
  let jid := a !! "jid" in
  if optPred isPnUser jid then jid
  else if optPred isLidUser jid then
    if JS.truthy (a !! "phone_number")
    then (if optPred isPnUser (a !! "phone_number") then a !! "phone_number"
          else Some (jidNormalizedUser (a !! "phone_number")))
    else match cachedPhone cache groupId jid with
         | Some phone => if JS.truthyStr phone && isPnUser phone then Some phone else jid
         | None => jid
         end
  else jid.


(** The two-tier lookup of [LIDMappingStore]: a truthy cache entry wins,
    else a truthy entry of the key store. *)
Definition tieredLookup (st : LIDMappingStore) (cacheKey storeKey : string) : option string :=
  if JS.truthy (mappingCache st !! cacheKey) then mappingCache st !! cacheKey
  else if JS.truthy (lidMappingKeys st !! storeKey) then lidMappingKeys st !! storeKey
  else None.

(** The LID user recorded for a PN user, and the PN user recorded for a LID
    user. *)
Definition lidUserOf (st : LIDMappingStore) (pnUser : string) : option string :=
  tieredLookup st ("pn:" +:+ pnUser) pnUser.

Definition pnUserOf (st : LIDMappingStore) (lidUser : string) : option string :=
  tieredLookup st ("lid:" +:+ lidUser) (lidUser +:+ "_reverse").

(** Helpers that agree: whatever passes the LID or PN test decodes. *)
Definition decodesUsers `{WABinary} : Prop :=
  forall j, isLidUser j = true \/ isPnUser j = true -> is_Some (jidDecode j).

(** What lines 41-45 of [storeLIDPNMappings] find on record for a PN user:
    a truthy cache entry, else whatever the key store holds. *)
Definition existingLidUserOf (st : LIDMappingStore) (pnUser : string) : option string :=
  if JS.truthy (mappingCache st !! ("pn:" +:+ pnUser))
  then mappingCache st !! ("pn:" +:+ pnUser)
  else lidMappingKeys st !! pnUser.

(** Line 31: a pair with its LID first, and the users its two JIDs decode
    to (LID user, PN user). *)
Definition orderedPair `{WABinary} (p : string * string) : string * string :=
  if isLidUser (fst p) then (fst p, snd p) else (snd p, fst p).

Definition pairUsers `{WABinary} (p : string * string) : option (string * string) :=
  lidDecoded ← jidDecode (fst (orderedPair p));
  pnDecoded ← jidDecode (snd (orderedPair p));
  Some (user lidDecoded, user pnDecoded).

(** Some PN user of the valid pairs of the batch is spelled like the
    [_reverse] key of the LID user of one of them: two entries written to
    the key store then share a key, and the one written later wins. *)
Definition reverseKeyClash `{WABinary} (pairs : list (string * string)) : Prop :=
  exists p1 p2 l1 u1 l2 u2,
    In p1 pairs /\ validPair p1 = true /\ pairUsers p1 = Some (l1, u1)
    /\ In p2 pairs /\ validPair p2 = true /\ pairUsers p2 = Some (l2, u2)
    /\ u1 = l2 +:+ "_reverse".

(** The LID user is also that of a valid pair of the batch with another PN
    user: the reverse entries of the two pairs share their keys. *)
Definition lidUserShared `{WABinary} (pairs : list (string * string))
  (lidUser pnUser : string) : Prop :=
  exists p other,
    In p pairs /\ validPair p = true /\ pairUsers p = Some (lidUser, other)
    /\ other <> pnUser.

(** The store holds the pair of [lidUser] and [pnUser] as lines 65-73 write
    it: in the cache under [pn:<pnUser>] and [lid:<lidUser>], in the key
    store under [<pnUser>] and [<lidUser>_reverse]; an entry whose key
    another pair of the batch shares may hold that pair instead. *)
Definition storedAs `{WABinary} (pairs : list (string * string)) (st : LIDMappingStore)
  (lidUser pnUser : string) : Prop :=
  mappingCache st !! ("pn:" +:+ pnUser) = Some lidUser
  /\ (lidUserShared pairs lidUser pnUser
      \/ mappingCache st !! ("lid:" +:+ lidUser) = Some pnUser)
  /\ (reverseKeyClash pairs
      \/ (lidMappingKeys st !! pnUser = Some lidUser
          /\ (lidUserShared pairs lidUser pnUser
              \/ lidMappingKeys st !! (lidUser +:+ "_reverse") = Some pnUser))).

(** What the validation loop of [storeLIDPNMappings], started in [st0], has
    established for the pairs read so far: the object has one property per
    PN user, each taken from a valid pair read; the PN user of every valid
    pair read is in the object, unless the pair was on record already (and
    then its LID user, if not empty, is in the cache); and what is on record
    has not changed. *)
Definition collected `{WABinary} (st0 : LIDMappingStore) (seen : list (string * string))
  (pairMap : JS.Obj string) (st : LIDMappingStore) : Prop :=
  List.NoDup (List.map fst pairMap)
  /\ (forall k v, JS.get k pairMap = Some v ->
      exists p, In p seen /\ validPair p = true /\ pairUsers p = Some (v, k))
  /\ (forall p lu pu, In p seen -> validPair p = true -> pairUsers p = Some (lu, pu) ->
      is_Some (JS.get pu pairMap)
      \/ (existingLidUserOf st0 pu = Some lu
          /\ (lu <> "" -> mappingCache st !! ("pn:" +:+ pu) = Some lu)))
  /\ (forall k, existingLidUserOf st k = existingLidUserOf st0 k).

(** The store with some warnings appended to its log. *)
Definition withWarnings (ws : list string) (st : LIDMappingStore) : LIDMappingStore :=
  {| mappingCache := mappingCache st;
     lidMappingKeys := lidMappingKeys st;
     lidWarnings := lidWarnings st ++ ws |}.

(** A computation of the store that logs nothing and never reads the log. *)
Definition silent {A} (m : M LIDMappingStore A) : Prop :=
  forall st,
    lidWarnings (snd (m st)) = lidWarnings st
    /\ forall ws, m (withWarnings ws st) = (fst (m st), withWarnings ws (snd (m st))).

(** [m] leaves the component [f] of the state as it is, whether it returns
    or throws. *)
Definition frames {S A X} (f : S -> X) (m : M S A) : Prop :=
  forall s, f (snd (m s)) = f s.

(** A component of the socket state that only the relay itself writes: the
    collaborators, the caches and the log do not reach it. *)
Class Untouched {W X} (f : Socket W -> X) := {
  untouched_world : forall w s, f (setWorld w s) = f s;
  untouched_lidMapping : forall x s, f (setLidMapping x s) = f s;
  untouched_deviceList : forall x s, f (setDeviceList x s) = f s;
  untouched_userDevicesCache : forall x s, f (setUserDevicesCache x s) = f s;
  untouched_peerSessionsCache : forall x s, f (setPeerSessionsCache x s) = f s;
  untouched_groupMetadataCache : forall x s, f (setGroupMetadataCache x s) = f s;
  untouched_lidMappingCache : forall x s, f (setLidMappingCache x s) = f s;
  untouched_warnings : forall x s, f (setWarnings x s) = f s
}.

#[global] Instance sent_untouched {W} : Untouched (@sent W).
Proof. split; reflexivity. Qed.

#[global] Instance encrypted_untouched {W} : Untouched (@encrypted W).
Proof. split; reflexivity. Qed.

#[global] Instance senderKeyMemory_untouched {W} : Untouched (@senderKeyMemory W).
Proof. split; reflexivity. Qed.

(** Whether [getUSyncDevices] passes an input through as it is. *)
Definition isPassedThrough `{WABinary} (jid : option string) : bool :=
  match classifyJid jid with inl _ => true | inr _ => false end.

(** The [<to>] envelope [createParticipantNodes] builds for one recipient. *)
Definition toNode (extraAttrs : gmap string string) (jid : string)
  (type : CiphertextType) (ciphertext : Bytes) : BinaryNode :=
  Node "to" {["jid" := jid]}
    (Children
       [Node "enc" (extraAttrs ∪ <["type" := ctypeName type]> {["v" := "2"]})
          (Binary ciphertext)]).

(** A list of such envelopes, one for each of the given JIDs, in order. *)
Definition envelopesFor (extraAttrs : gmap string string) (jids : list string)
  (nodes : list BinaryNode) : Prop :=
  Forall2 (fun j n => exists type ciphertext, n = toNode extraAttrs j type ciphertext)
          jids nodes.

(** The envelopes of the recipients for which [encryptMessage] returns, in
    order, each encryption starting in the world the one before has left; a
    recipient for which it throws gets none. *)
Fixpoint encryptedEnvelopes {W} `{Collaborators W} (extraAttrs : gmap string string)
  (data : Bytes) (jids : list string) (w : W) : list BinaryNode * W :=
  match jids with
  | [] => ([], w)
  | jid :: rest =>
      match encryptMessage jid data w with
      | (inr (type, ciphertext), w') =>
          let '(nodes, w'') := encryptedEnvelopes extraAttrs data rest w' in
          (toNode extraAttrs jid type ciphertext :: nodes, w'')
      | (inl _, w') => encryptedEnvelopes extraAttrs data rest w'
      end
  end.

(** The [jid] attributes of the [<to>] nodes of a list. *)
Definition toJids (nodes : list BinaryNode) : list string :=
  omap (fun n => if hasTag "to" n then attrs n !! "jid" else None) nodes.

(** The pairwise encryptions a run from [s] to [s'] has performed. *)
Definition performed {W} (s s' : Socket W) : list (string * CiphertextType) :=
  drop (length (encrypted s)) (encrypted s').

(** The patch callback answers with one message for all recipients. *)
Definition patchesUniformly {W} (config : SocketConfig W) : Prop :=
  forall patch message recipients w result w',
    patchMessageBeforeSending config = Some patch ->
    patch message recipients w = (inr result, w') ->
    exists m, result = PatchedOne m.

(** The patch callback, when it answers per recipient, names only recipients
    it was given. *)
Definition patchKeepsRecipients {W} (config : SocketConfig W) : Prop :=
  forall patch message recipients w l w',
    patchMessageBeforeSending config = Some patch ->
    patch message (Some recipients) w = (inr (PatchedMany l), w') ->
    forall j m, In (Some j, m) l -> In j recipients.

(** *** What is read off a stanza *)

(** The number of [<enc type=skmsg>] nodes in a list of children. *)
Definition countSkmsg (nodes : list BinaryNode) : nat :=
  length (List.filter (isEncOfType "skmsg") nodes).

Definition hasDeviceIdentity (stanza : BinaryNode) : bool :=
  existsb (hasTag "device-identity") (childNodes stanza).

(** The JIDs of the [<to>] nodes among [nodes] and under their
    [<participants>] wrappers. *)
Definition envelopeJids (nodes : list BinaryNode) : list string :=
  toJids nodes
  ++ toJids (List.concat (List.map childNodes (List.filter (hasTag "participants") nodes))).

(** [Boolean(participant?.jid)]. *)
Definition isRetryResend (opts : MessageRelayOptions) : bool :=
  match participant opts with Some p => JS.truthyStr (rp_jid p) | None => false end.

(** The destination classes of [relayMessage] (lines 650-654). *)
Definition serverOf `{WABinary} (jid : string) : option string :=
  server <$> jidDecode jid.

Definition isGroupOrStatus `{WABinary} (jid : string) : bool :=
  bool_decide (serverOf jid = Some "g.us") || String.eqb jid statusJid.

Definition isNewsletter `{WABinary} (jid : string) : bool :=
  bool_decide (serverOf jid = Some "newsletter").

(** *** The statements that do not hold as they are worded

    Each is given as a proposition about a configuration, to be refuted on
    the sample environment and restated further down. *)


(** Whenever both directions of a LID/PN pair are populated, the round trip
    from the user-level LID JID through [getPNForLID] and [getLIDForPN] gives
    that JID back. *)
Definition roundTripWhenPopulated `{WABinary} : Prop :=
  forall (st : LIDMappingStore) (x pnUser lidUser : string),
    isLidUser x = true ->
    user <$> jidDecode x = Some lidUser ->
    x = lidUser +:+ "@lid" ->
    isPnUser (pnUser +:+ "@s.whatsapp.net") = true ->
    user <$> jidDecode (pnUser +:+ "@s.whatsapp.net") = Some pnUser ->
    pnUserOf st lidUser = Some pnUser ->
    is_Some (lidUserOf st pnUser) ->
    exists st1 st2,
      getPNForLID x st = (inr (Some (pnUser +:+ "@s.whatsapp.net")), st1)
      /\ getLIDForPN (pnUser +:+ "@s.whatsapp.net") st1 = (inr (Some x), st2).

(** Every input of [getUSyncDevices] that decodes to a device number is in
    the output as it is, and is not among the inputs that are looked up and
    fetched. *)
Definition explicitDeviceIsPassedThrough `{WABinary} {W} `{Collaborators W}
  (config : SocketConfig W) : Prop :=
  forall (jids : list (option string)) (useCache ignoreZeroDevices : bool)
         (s s' : Socket W) (out : list DeviceWithJid) (j : string) (d : FullJid) (n : Z),
    In (Some j) jids ->
    jidDecode j = Some d -> device d = Some n -> 0 <= n ->
    getUSyncDevices config jids useCache ignoreZeroDevices s = (inr out, s') ->
    In {| d_user := user d; d_device := Some n; d_jid := j |} out
    /\ ~ In (Some j) (List.filter (fun j => negb (isPassedThrough j)) jids).

(** Every successful relay to a group or to the status feed has exactly one
    [<enc type=skmsg>] child, and every other relay none. *)
Definition oneSkmsgIffGroupOrStatus `{WABinary} {W} `{Collaborators W}
  (config : SocketConfig W) : Prop :=
  forall jid message opts (s s' : Socket W) msgId stanza,
    relayMessage config jid message opts s = (inr msgId, s') ->
    last (sent s') = Some stanza ->
    countSkmsg (childNodes stanza) = if isGroupOrStatus jid then 1%nat else 0%nat.

(** No [<to>] node of a 1:1 relay is addressed to the sender's own device. *)
Definition noEnvelopeForSenderDevice `{WABinary} {W} `{Collaborators W}
  (config : SocketConfig W) : Prop :=
  forall jid message opts (s s' : Socket W) msgId stanza,
    isGroupOrStatus jid = false -> isNewsletter jid = false ->
    relayMessage config jid message opts s = (inr msgId, s') ->
    last (sent s') = Some stanza ->
    forall j, In j (envelopeJids (childNodes stanza)) ->
              j <> meId config /\ Some j <> meLid config.




(** *** Sample runs *)

Module Runs.
Import Sample.

Definition strictConfig : SocketConfig World := configWith false identityPatch.
Definition compatConfig : SocketConfig World := configWith true identityPatch.
Definition echoConfig : SocketConfig World := configWith true (echoToSenderPatch me).

Definition peer : string := "777@s.whatsapp.net".
Definition peerDevice : string := "777:3@s.whatsapp.net".

(** A fresh strict-mode send to the group, one member device being already
    in the sender-key-memory. *)
Definition strictGroupSend : (Err + string) * Socket World :=
  relayMessage strictConfig groupJid textMessage plainOptions knownDeviceSocket.

(** The same environment with a device for which every encryption throws,
    and the send to the group in it, with and without [compatV6GroupSend]. *)
Definition withoutSessionFor (jid : string) : Collaborators World := {|
  USyncItem := Item;
  usyncId := fun i => fst (fst i);
  usyncLid := fun i => snd (fst i);
  toNumber := @toNumber _ collaborators;
  dateNow := @dateNow _ collaborators;
  unixTimestampSeconds := @unixTimestampSeconds _ collaborators;
  query := @query _ collaborators;
  transmit := @transmit _ collaborators;
  generateMessageIDV2 := @generateMessageIDV2 _ collaborators;
  executeUSyncQuery := @executeUSyncQuery _ collaborators;
  extractDeviceJids := @extractDeviceJids _ collaborators;
  getLIDsForPNs := @getLIDsForPNs _ collaborators;
  jidToSignalProtocolAddress := @jidToSignalProtocolAddress _ collaborators;
  validateSession := @validateSession _ collaborators;
  parseAndInjectE2ESessions := @parseAndInjectE2ESessions _ collaborators;
  encryptMessage := fun j data =>
    if String.eqb j jid then throw "No session record"
    else @encryptMessage _ collaborators j data;
  encryptGroupMessage := @encryptGroupMessage _ collaborators;
  encodeWAMessage := @encodeWAMessage _ collaborators;
  encodeNewsletterMessage := @encodeNewsletterMessage _ collaborators;
  encodeSignedDeviceIdentity := @encodeSignedDeviceIdentity _ collaborators;
  generateParticipantHashV2 := @generateParticipantHashV2 _ collaborators;
  hasPinInChatMessage := @hasPinInChatMessage _ collaborators;
  keysSetDeviceList := @keysSetDeviceList _ collaborators
|}.

Definition compatGroupSendWithoutSession : (Err + string) * Socket World :=
  @relayMessage wabinary World (withoutSessionFor peerDevice) compatConfig
    groupJid textMessage plainOptions knownDeviceSocket.

Definition strictGroupSendWithoutSession : (Err + string) * Socket World :=
  @relayMessage wabinary World (withoutSessionFor peerDevice) strictConfig
    groupJid textMessage plainOptions knownDeviceSocket.

(** A retry resend to one device of a group member. *)
Definition groupRetry : (Err + string) * Socket World :=
  relayMessage compatConfig groupJid textMessage (retryOptions peerDevice 2) freshSocket.

(** A fresh 1:1 send, and a retry resend to one device of the peer. *)
Definition directSend : (Err + string) * Socket World :=
  relayMessage compatConfig peer textMessage plainOptions freshSocket.


(** A fresh 1:1 send under the callback that names the sender's device. *)
Definition echoedSend : (Err + string) * Socket World :=
  relayMessage echoConfig peer textMessage plainOptions freshSocket.

Definition noNode : BinaryNode := Node "" ∅ NoContent.

(** The stanza a run sent last. *)
Definition stanzaOf (run : (Err + string) * Socket World) : BinaryNode :=
  default noNode (last (sent (snd run))).

(** A store in which the pair (5511999, 9001) is populated both ways. *)
Definition mappedStore : LIDMappingStore :=
  {| mappingCache := ∅;
     lidMappingKeys := <["9001_reverse" := "5511999"]> {["5511999" := "9001"]};
     lidWarnings := [] |}.

(** The store after a PN user was mapped to one LID user and then to
    another. *)
Definition remappedStore : LIDMappingStore :=
  snd (storeLIDPNMappings [("9002@lid", "5511999@s.whatsapp.net")]
         (snd (storeLIDPNMappings [("9001@lid", "5511999@s.whatsapp.net")]
                 emptyLidMapping))).

(** An input with a device number and no user. *)
Definition deviceOnlyJid : string := ":5@s.whatsapp.net".

(** A batch with one valid pair between two that are not. *)
Definition mixedBatch : list (string * string) :=
  [("not-a-jid", "5511999@s.whatsapp.net");
   ("9001@lid", "5511999@s.whatsapp.net");
   ("120363@g.us", "777@lid")].

Definition sampleMetadata : Err + GroupMetadata :=
  extractGroupMetadata toNumber groupReply None.

End Runs.

(** ** Further definitions

    More of the three files, and what the statements of the second half of
    the properties need. *)

(** ** [sendReceipts] and [readMessages] (messages-send.ts, lines 261-275) *)

(** What the two functions call but do not define. *)
Class ReceiptCollaborators (W : Type) := {
  WAMessageKey : Type;
  (** [aggregateMessageKeysNotFromMe(keys)] of ../Utils; its entries are
      [{ jid, participant, messageIds }] *)
  aggregateMessageKeysNotFromMe :
    list WAMessageKey -> list (string * option string * list string);
  (** [fetchPrivacySettings()] of the socket *)
  fetchPrivacySettings : M W (gmap string string)
}.

Section Receipts.
Context `{WABinary} {W : Type} `{Collaborators W} `{ReceiptCollaborators W}.

Definition sendReceipts (keys : list WAMessageKey) (type : option string)
  : M (Socket W) unit :=
  forEach (fun recp : string * option string * list string =>
             let '(jid, participant, messageIds) := recp in
             sendReceipt jid participant (Some messageIds) type)
          (aggregateMessageKeysNotFromMe keys).

Definition readMessages (keys : list WAMessageKey) : M (Socket W) unit :=
  privacySettings ← io fetchPrivacySettings;
  let readType :=
    if bool_decide (privacySettings !! "readreceipts" = Some "all")
    then "read" else "read-self" in
  sendReceipts keys (Some readType).

End Receipts.

(** The message ids a [<receipt>] node names: its [id] attribute, then the
    [<item>]s of its [<list>]. *)
Definition receiptIds (node : BinaryNode) : list string :=
  match attrs node !! "id" with
  | Some first =>
      first :: omap (fun item => if hasTag "item" item then attrs item !! "id" else None)
                    (List.concat (List.map childNodes
                                    (List.filter (hasTag "list") (childNodes node))))
  | None => []
  end.

(** The [<receipt>] node for a chat, a participant, a list of message ids
    and a receipt type: the ids it names, its type, its timestamp (on read
    receipts only) and its addressing. *)
Definition isReceiptFor `{WABinary} (jid : string) (participant : option string)
  (messageIds : list string) (type : option string) (node : BinaryNode) : Prop :=
  tag node = "receipt"
  /\ receiptIds node = messageIds
  /\ attrs node !! "type" = (if JS.truthy type then type else None)
  /\ (is_Some (attrs node !! "t") <-> type = Some "read" \/ type = Some "read-self")
  /\ (if bool_decide (type = Some "sender") && (isPnUser jid || isLidUser jid)
      then attrs node !! "recipient" = Some jid
           /\ attrs node !! "to" = participant
           /\ attrs node !! "participant" = None
      else attrs node !! "to" = Some jid
           /\ attrs node !! "participant" = (if JS.truthy participant then participant else None)
           /\ attrs node !! "recipient" = None).

(** A read receipt: a [<receipt>] with a timestamp, of type [read] or
    [read-self]. *)
Definition isReadReceiptNode (node : BinaryNode) : Prop :=
  tag node = "receipt"
  /\ is_Some (attrs node !! "t")
  /\ (attrs node !! "type" = Some "read" \/ attrs node !! "type" = Some "read-self").

(** Two states of the store that hold the same mappings; their logs may
    differ. *)
Definition sameMappings (a b : LIDMappingStore) : Prop :=
  mappingCache a = mappingCache b /\ lidMappingKeys a = lidMappingKeys b.

(** [m] and [m'] read and write the mappings alike, whatever the logs. *)
Definition alike {A} (m m' : M LIDMappingStore A) : Prop :=
  forall a b, sameMappings a b ->
    fst (m a) = fst (m' b) /\ sameMappings (snd (m a)) (snd (m' b)).

Definition swapPair (p : string * string) : string * string := (snd p, fst p).

(** A component of the socket state that is written neither by the
    collaborators and the caches nor with the log of encryptions and the
    sender-key memory. *)
Class Unwritten {W X} (f : Socket W -> X) := {
  unwritten_untouched :: Untouched f;
  unwritten_encrypted : forall x s, f (setEncrypted x s) = f s;
  unwritten_senderKeyMemory : forall x s, f (setSenderKeyMemory x s) = f s
}.

#[global] Instance sent_unwritten {W} : Unwritten (@sent W).
Proof. split; [apply _|reflexivity|reflexivity]. Qed.

#[global] Instance recentMessages_untouched {W} : Untouched (@recentMessages W).
Proof. split; reflexivity. Qed.

#[global] Instance recentMessages_unwritten {W} : Unwritten (@recentMessages W).
Proof. split; [apply _|reflexivity|reflexivity]. Qed.

(** A computation that hands exactly one [<message>] to [sendNode], unless
    it throws before it gets there. *)
Definition sendsOneMessage {W A} (m : M (Socket W) A) : Prop :=
  forall s,
    (sent (snd (m s)) = sent s /\ exists e, fst (m s) = inl e)
    \/ exists stanza, sent (snd (m s)) = sent s ++ [stanza] /\ tag stanza = "message".

(** The patch callback answers with an array, one entry per recipient. *)
Definition patchesPerRecipient {W} (config : SocketConfig W) : Prop :=
  forall patch message recipients w result w',
    patchMessageBeforeSending config = Some patch ->
    patch message recipients w = (inr result, w') ->
    exists l, result = PatchedMany l.



Section GroupHelpers.
Context {W : Type}.

(** Line 95 of the groups socket: [lidMappingCache.get(jid) || {}]. *)
Definition getLIDMappings (jid : string) : M (Socket W) (gmap string string) :=
  gets (fun s => default ∅ (lidMappingCache s !! jid)).

End GroupHelpers.

(** The phone JID that [storeLIDMappingsAndParticipants] takes for a
    participant, and whether the participant has a LID apart from it. *)
Definition phoneJidOf (p : GroupParticipant) : option string :=
  JS.orElse (p_jid p) (p_id p).

Definition hasDistinctLid (p : GroupParticipant) : bool :=
  JS.truthy (p_lid p) && JS.truthy (phoneJidOf p) && negb (JS.seq (p_lid p) (phoneJidOf p)).

(** The attributes of the stanza that the relay sets itself, whatever the
    caller's [additionalAttributes] say. *)
Definition relayOwnAttributes : list string :=
  ["to"; "participant"; "recipient"; "device_fanout"; "addressing_mode"; "expiration"].

(** ** [sendMessage] (messages-send.ts, lines 1339-1437) *)

(** The key of the message to delete, as far as [sendMessage] reads it. *)
Record DeletedKey := {
  dk_remoteJid : option string;
  dk_fromMe : bool
}.

(** An [AnyMessageContent], as far as [sendMessage] and
    [normalizeGroupJidsInContent] read it: [disappearingMessagesInChat] when
    the property is there and not [undefined]; [delete] when truthy; whether
    [edit], [pin], [poll] and [event] are there and truthy; [mentions] when
    it is an array; and the rest, opaque. *)
Record AnyMessageContent := {
  disappearingMessagesInChat : option (bool + Z);
  c_delete : option DeletedKey;
  c_edit : bool;
  c_pin : bool;
  c_poll : bool;
  c_event : bool;
  c_mentions : option (list string);
  c_rest : Bytes
}.

(** The [MiscMessageGenerationOptions]: the [participant] property when the
    object has one, [quoted.key.participant] when truthy, the two options
    handed on to [relayMessage], and the rest. *)
Record MiscMessageGenerationOptions := {
  o_participant : option string;
  o_quotedParticipant : option string;
  o_useCachedGroupMetadata : option bool;
  o_statusJidList : option (list string);
  o_rest : Bytes
}.

(** A [WAMessage]: the id in its key, its [message] (which the code asserts
    to be set), and the rest. *)
Record WAMessage := {
  wm_keyId : option string;
  wm_message : IMessage;
  wm_rest : Bytes
}.

(** What [sendMessage] calls but does not define. *)
Class SendCollaborators (W : Type) := {
  (** [WA_DEFAULT_EPHEMERAL] of ../Defaults *)
  WA_DEFAULT_EPHEMERAL : Z;
  (** the call of [generateWAMessage] at lines 1356-1378, with the options
      assembled there (the message id generated for it among them) *)
  generateWAMessage :
    string -> AnyMessageContent -> MiscMessageGenerationOptions -> M W WAMessage;
  (** [process.nextTick] of the task that upserts the message (lines
      1430-1432); the task itself runs after the call *)
  scheduleUpsert : WAMessage -> M W unit
}.

(** Lines 63-84.  The function writes into the caller's objects; what they
    hold afterwards is returned.  [content.mentions] is given a new array,
    so that a holder of the old one does not see the change. *)
Definition normalizeGroupJidsInContent `{WABinary} (jid : string)
  (content : AnyMessageContent) (options : MiscMessageGenerationOptions)
  : AnyMessageContent * MiscMessageGenerationOptions :=
  ({| disappearingMessagesInChat := disappearingMessagesInChat content;
      c_delete := c_delete content;
      c_edit := c_edit content;
      c_pin := c_pin content;
      c_poll := c_poll content;
      c_event := c_event content;
      c_mentions := List.map (fun m => jidNormalizedUser (Some m)) <$> c_mentions content;
      c_rest := c_rest content |},
   {| o_participant := None;
      o_quotedParticipant :=
        if JS.truthy (o_quotedParticipant options)
        then Some (jidNormalizedUser (o_quotedParticipant options))
        else o_quotedParticipant options;
      o_useCachedGroupMetadata := o_useCachedGroupMetadata options;
      o_statusJidList := o_statusJidList options;
      o_rest := o_rest options |}).

(** Lines 1384-1412: the attribute and the node that go with a deletion, an
    edit, a pin, a poll or an event, the first of these that applies. *)
Definition editAttributes `{WABinary} (content : AnyMessageContent) : gmap string string :=
  match c_delete content with
  | Some key =>
      if optPred isJidGroup (dk_remoteJid key) && negb (dk_fromMe key)
      then {["edit" := "8"]} else {["edit" := "7"]}
  | None =>
      if c_edit content then {["edit" := "1"]}
      else if c_pin content then {["edit" := "2"]}
      else ∅
  end.

Definition metaNodes (content : AnyMessageContent) : list BinaryNode :=
  match c_delete content with
  | Some _ => []
  | None =>
      if c_edit content then []
      else if c_pin content then []
      else if c_poll content then [Node "meta" {["polltype" := "creation"]} NoContent]
      else if c_event content then [Node "meta" {["event_type" := "creation"]} NoContent]
      else []
  end.

Section Sending.
Context `{WABinary} {W : Type} `{Collaborators W} `{SendCollaborators W}.
Variable config : SocketConfig W.
(** [config.emitOwnEvents] *)
Variable emitOwnEvents : bool.

(** [groupToggleEphemeral] of the groups socket (lines 349-354). *)
Definition groupToggleEphemeral (jid : string) (ephemeralExpiration : Z)
  : M (Socket W) unit :=
  let content :=
    if negb (ephemeralExpiration =? 0)
    then Node "ephemeral" {["expiration" := JS.showZ ephemeralExpiration]} NoContent
    else Node "not_ephemeral" ∅ NoContent in
  groupQuery jid "set" [content];;
  mret tt.

(** The result is what the call resolves to ([None] for [undefined]),
    together with the caller's [content] and [options] as the call leaves
    them. *)
Definition sendMessage (jid : string) (content : AnyMessageContent)
  (options : MiscMessageGenerationOptions)
  : M (Socket W)
      (option WAMessage * AnyMessageContent * MiscMessageGenerationOptions) :=
  let toggled :=
    match disappearingMessagesInChat content with
    | Some d => if isJidGroup jid then Some d else None
    | None => None
    end in
  match toggled with
  | Some d =>
      let value :=
        match d with
        | inl b => if b then WA_DEFAULT_EPHEMERAL else 0
        | inr n => n
        end in
      groupToggleEphemeral jid value;;
      mret (None, content, options)
  | None =>
      fullMsg ← io (generateWAMessage jid content options);
      let additionalAttributes := editAttributes content in
      let additionalNodes := metaNodes content in
      let '(content', options') :=
        if isJidGroup jid && compatV6GroupSend config
        then normalizeGroupJidsInContent jid content options
        else (content, options) in
      relayMessage config jid (wm_message fullMsg)
        {| messageId := wm_keyId fullMsg;
           participant := None;
           additionalAttributes := Some additionalAttributes;
           additionalNodes := Some additionalNodes;
           useUserDevicesCache := None;
           useCachedGroupMetadata := o_useCachedGroupMetadata options';
           statusJidList := o_statusJidList options' |};;
      (if emitOwnEvents then io (scheduleUpsert fullMsg) else mret tt);;
      mret (Some fullMsg, content', options')
  end.

End Sending.

(** ** [groupFetchAllParticipating] (the groups socket, lines 97-137) *)


Section GroupFetch.
Context `{WABinary} {W : Type} `{Collaborators W} `{GroupEvents W}.



End GroupFetch.


(** ** More of the sample environment *)

Module MoreSample.
Import Sample.

(** A message key, as far as [aggregateMessageKeysNotFromMe] reads it. *)
Record MessageKey := {
  remoteJid : string;
  keyId : string;
  keyParticipant : option string;
  fromMe : bool
}.

(** The sample [aggregateMessageKeysNotFromMe]: the keys not from the
    sender, grouped by chat and participant in order of first appearance. *)
Definition aggregateKeys (keys : list MessageKey)
  : list (string * option string * list string) :=
  List.map snd
    (JS.entries
       (fold_left
          (fun keyMap k =>
             if fromMe k then keyMap
             else
               let uqKey := remoteJid k +:+ ":" +:+ default "" (keyParticipant k) in
               let '(jid, participant, ids) :=
                 default (remoteJid k, keyParticipant k, []) (JS.get uqKey keyMap) in
               JS.set uqKey (jid, participant, ids ++ [keyId k]) keyMap)
          keys [])).

#[export] Instance receiptCollaborators : ReceiptCollaborators World := {|
  WAMessageKey := MessageKey;
  aggregateMessageKeysNotFromMe := aggregateKeys;
  fetchPrivacySettings := mret {["readreceipts" := "all"]}
|}.

Definition unreadKeys : list MessageKey :=
  [{| remoteJid := "777@s.whatsapp.net"; keyId := "A1"; keyParticipant := None;
      fromMe := false |};
   {| remoteJid := "120363@g.us"; keyId := "B1";
      keyParticipant := Some "888@s.whatsapp.net"; fromMe := false |};
   {| remoteJid := "777@s.whatsapp.net"; keyId := "A2"; keyParticipant := None;
      fromMe := false |};
   {| remoteJid := "777@s.whatsapp.net"; keyId := "A3"; keyParticipant := None;
      fromMe := true |}].

(** A socket that has the devices of user 777 in its cache, and one that
    has a session with a peer on record. *)
Definition cachedDevices : list DeviceWithJid :=
  [{| d_user := "777"; d_device := Some 0; d_jid := "777@s.whatsapp.net" |};
   {| d_user := "777"; d_device := Some 3; d_jid := "777:3@s.whatsapp.net" |}].

Definition cachedSocket : Socket World :=
  setUserDevicesCache {["777" := cachedDevices]} freshSocket.

Definition sessionSocket : Socket World :=
  setPeerSessionsCache {["777:3@s.whatsapp.net" := true]} freshSocket.


Definition ownJid : string := "5511999@s.whatsapp.net".

(** The options of a peer message, as [sendPeerDataOperationMessage] gives
    them. *)
Definition peerAttributes : gmap string string :=
  <["push_priority" := "high_force"]> {["category" := "peer"]}.

Definition peerOptions : MessageRelayOptions :=
  {| messageId := Some "MSG1"; participant := None;
     additionalAttributes := Some peerAttributes;
     additionalNodes := Some [Node "meta" {["appdata" := "default"]} NoContent];
     useUserDevicesCache := None; useCachedGroupMetadata := None;
     statusJidList := None |}.


Definition peerSend : (Err + string) * Socket World :=
  relayMessage Runs.compatConfig ownJid textMessage peerOptions freshSocket.

Definition groupSend : (Err + string) * Socket World :=
  relayMessage Runs.compatConfig groupJid textMessage plainOptions freshSocket.

Definition sampleGroupMetadata : (Err + GroupMetadata) * Socket World :=
  groupMetadata groupJid freshSocket.

Definition renumberedBatch : list (string * string) :=
  [("9001@lid", "5511999@s.whatsapp.net");
   ("not-a-jid", "777@s.whatsapp.net");
   ("5511999@s.whatsapp.net", "9002@lid")].

Definition renumberedStore : LIDMappingStore :=
  snd (storeLIDPNMappings renumberedBatch emptyLidMapping).

(** Three inputs: one in the cache, one with a device, one to fetch. *)
Definition mixedJids : list (option string) :=
  [Some "777@s.whatsapp.net"; Some "888:2@s.whatsapp.net"; Some "999@s.whatsapp.net"].

Definition deviceFetch : (Err + list DeviceWithJid) * Socket World :=
  getUSyncDevices Runs.compatConfig mixedJids true false cachedSocket.

(** The same environment with a key store that rejects the write of the
    device lists. *)
Definition rejectingKeyStore : Collaborators World := {|
  USyncItem := Item;
  usyncId := fun i => fst (fst i);
  usyncLid := fun i => snd (fst i);
  toNumber := @toNumber _ collaborators;
  dateNow := @dateNow _ collaborators;
  unixTimestampSeconds := @unixTimestampSeconds _ collaborators;
  query := @query _ collaborators;
  transmit := @transmit _ collaborators;
  generateMessageIDV2 := @generateMessageIDV2 _ collaborators;
  executeUSyncQuery := @executeUSyncQuery _ collaborators;
  extractDeviceJids := @extractDeviceJids _ collaborators;
  getLIDsForPNs := @getLIDsForPNs _ collaborators;
  jidToSignalProtocolAddress := @jidToSignalProtocolAddress _ collaborators;
  validateSession := @validateSession _ collaborators;
  parseAndInjectE2ESessions := @parseAndInjectE2ESessions _ collaborators;
  encryptMessage := @encryptMessage _ collaborators;
  encryptGroupMessage := @encryptGroupMessage _ collaborators;
  encodeWAMessage := @encodeWAMessage _ collaborators;
  encodeNewsletterMessage := @encodeNewsletterMessage _ collaborators;
  encodeSignedDeviceIdentity := @encodeSignedDeviceIdentity _ collaborators;
  generateParticipantHashV2 := @generateParticipantHashV2 _ collaborators;
  hasPinInChatMessage := @hasPinInChatMessage _ collaborators;
  keysSetDeviceList := fun _ => throw "key store unavailable"
|}.

Definition deviceFetchRejected : (Err + list DeviceWithJid) * Socket World :=
  @getUSyncDevices wabinary World rejectingKeyStore Runs.compatConfig mixedJids true false
    cachedSocket.

Definition fetchedDevices : list DeviceWithJid :=
  {| d_user := "888"; d_device := Some 2; d_jid := "888:2@s.whatsapp.net" |}
  :: cachedDevices
  ++ [{| d_user := "999"; d_device := Some 0; d_jid := "999@s.whatsapp.net" |};
      {| d_user := "999"; d_device := Some 3; d_jid := "999:3@s.whatsapp.net" |}].
(** Group metadata with an id and participants, everything else unset. *)
Definition bareGroup (id : string) (ps : list GroupParticipant) : GroupMetadata :=
  {| g_id := id; g_notify := None; g_addressingMode := Some LID; g_subject := None;
     g_subjectOwner := None; g_subjectOwnerPn := None; g_subjectTime := None;
     g_size := None; g_creation := None; g_owner := None; g_ownerPn := None;
     g_owner_country_code := None; g_desc := None; g_descId := None;
     g_descOwner := None; g_descOwnerPn := None; g_descTime := None;
     g_linkedParent := None; g_restrict := false; g_announce := false;
     g_isCommunity := false; g_isCommunityAnnounce := false;
     g_joinApprovalMode := false; g_memberAddMode := false;
     g_participants := Some ps; g_ephemeralDuration := None; g_cachedAt := None |}.

(** Two members: one known by its phone JID only, one with a LID as well. *)
Definition twoMembers : list GroupParticipant :=
  [{| p_id := Some "777@s.whatsapp.net"; p_jid := Some "777@s.whatsapp.net";
      p_phoneNumber := None; p_lid := None; p_admin := None |};
   {| p_id := Some "888@s.whatsapp.net"; p_jid := Some "888@s.whatsapp.net";
      p_phoneNumber := Some "888@s.whatsapp.net"; p_lid := Some "4242@lid";
      p_admin := None |}].
(** The sample [generateWAMessage]: a text message under a fixed id. *)
#[export] Instance sendCollaborators : SendCollaborators World := {|
  WA_DEFAULT_EPHEMERAL := 604800;
  generateWAMessage := fun _ content _ =>
    mret {| wm_keyId := Some "3EB0B2"; wm_message := textMessage;
            wm_rest := c_rest content |};
  scheduleUpsert := fun _ => mret tt
|}.

Definition plainContent : AnyMessageContent :=
  {| disappearingMessagesInChat := None; c_delete := None; c_edit := false;
     c_pin := false; c_poll := false; c_event := false; c_mentions := None;
     c_rest := [] |}.

(** Content that switches disappearing messages on, and content that deletes
    somebody else's message in a group. *)
Definition timerContent : AnyMessageContent :=
  {| disappearingMessagesInChat := Some (inl true); c_delete := None; c_edit := false;
     c_pin := false; c_poll := false; c_event := false; c_mentions := None;
     c_rest := [] |}.

Definition deletion : AnyMessageContent :=
  {| disappearingMessagesInChat := None;
     c_delete := Some {| dk_remoteJid := Some groupJid; dk_fromMe := false |};
     c_edit := false; c_pin := false; c_poll := false; c_event := false;
     c_mentions := None; c_rest := [] |}.

Definition sendOptions : MiscMessageGenerationOptions :=
  {| o_participant := None; o_quotedParticipant := None;
     o_useCachedGroupMetadata := None; o_statusJidList := None; o_rest := [] |}.

Definition generated : WAMessage :=
  {| wm_keyId := Some "3EB0B2"; wm_message := textMessage; wm_rest := [] |}.

Definition deleteSend
  : (Err + (option WAMessage * AnyMessageContent * MiscMessageGenerationOptions))
    * Socket World :=
  sendMessage Runs.compatConfig true groupJid deletion sendOptions freshSocket.







End MoreSample.

(** * Properties *)

(** ** Reasoning about [M] *)

Lemma bind_inr {S A B} (m : M S A) (f : A -> M S B) s b s' :
  (m ≫= f) s = (inr b, s') ->
  exists a s1, m s = (inr a, s1) /\ f a s1 = (inr b, s').
Proof.
  unfold mbind, M_bind. destruct (m s) as [[e|a] s1]; intros Hf.
  - discriminate.
  - eauto.
Qed.

Lemma bind_run {S A B} (m : M S A) (f : A -> M S B) s a s1 :
  m s = (inr a, s1) -> (m ≫= f) s = f a s1.
Proof. intros Hm. unfold mbind, M_bind. now rewrite Hm. Qed.

Lemma bind_fail {S A B} (m : M S A) (f : A -> M S B) s e s1 :
  m s = (inl e, s1) -> (m ≫= f) s = (inl e, s1).
Proof. intros Hm. unfold mbind, M_bind. now rewrite Hm. Qed.

Lemma bind_gets {S A B} (g : S -> A) (f : A -> M S B) s :
  (gets g ≫= f) s = f (g s) s.
Proof. reflexivity. Qed.

Lemma ret_inr {S A} (a b : A) (s s' : S) :
  (mret a : M S A) s = (inr b, s') -> a = b /\ s = s'.
Proof. unfold mret, M_ret. intros [= -> ->]. auto. Qed.

Lemma throw_inr {S A} (e : Err) (b : A) (s s' : S) :
  (throw e : M S A) s = (inr b, s') -> False.
Proof. unfold throw. discriminate. Qed.

(** ** [sendReceipt] *)

(** C10. [sendReceipt] called with a missing or empty [messageIds] throws
    'missing ids in receipt' and hands no node to [sendNode]: the state, and
    with it the list of nodes sent, is as before the call. *)
Theorem sendReceipt_missing_ids `{WABinary} {W} `{Collaborators W}
  (jid : string) (participant : option string) (messageIds : option (list string))
  (type : option string) (s : Socket W) :
  messageIds = None \/ messageIds = Some [] ->
  sendReceipt jid participant messageIds type s = (inl "missing ids in receipt", s)
  /\ sent (snd (sendReceipt jid participant messageIds type s)) = sent s.
Proof.
  intros [-> | ->]; split; reflexivity.
Qed.

(** ** [extractGroupMetadata] *)

Lemma extractParticipant_id_jid `{WABinary}
  (cache : option (gmap string (gmap string string))) (groupId : string)
  (a : gmap string string) :
  p_id (extractParticipant cache groupId a) = p_jid (extractParticipant cache groupId a).
Proof.
  unfold extractParticipant.
  destruct (optPred isPnUser (a !! "jid")); [reflexivity|].
  destruct (optPred isLidUser (a !! "jid")); [|reflexivity].
  destruct (a !! "phone_number") as [pn|]; [destruct (JS.truthyStr pn)|]; reflexivity.
Qed.

Lemma extractParticipant_resolved `{WABinary}
  (cache : option (gmap string (gmap string string))) (groupId : string)
  (a : gmap string string) :
  p_id (extractParticipant cache groupId a) = resolvedPhoneJid cache groupId a.
Proof.
  unfold extractParticipant, resolvedPhoneJid.
  destruct (optPred isPnUser (a !! "jid")); [reflexivity|].
  destruct (optPred isLidUser (a !! "jid")); [|reflexivity].
  assert (Hc : match cache with
               | Some c =>
                   let mappedPhone :=
                     c !! groupId ≫= (fun m : gmap string string => m !! JS.keyOf (a !! "jid")) in
                   if JS.truthy mappedPhone && optPred isPnUser mappedPhone
                   then mappedPhone else a !! "jid"
               | None => a !! "jid"
               end
               = match cachedPhone cache groupId (a !! "jid") with
                 | Some phone => if JS.truthyStr phone && isPnUser phone then Some phone else a !! "jid"
                 | None => a !! "jid"
                 end).
  { destruct cache as [c|]; simpl; [|reflexivity].
    destruct (c !! groupId) as [m|]; simpl; [|reflexivity].
    destruct (m !! JS.keyOf (a !! "jid")); reflexivity. }
  destruct (a !! "phone_number") as [pn|]; simpl.
  - destruct (JS.truthyStr pn); simpl; [|exact Hc].
    destruct (isPnUser pn); reflexivity.
  - exact Hc.
Qed.

(** C9. Every participant record of a metadata produced by
    [extractGroupMetadata] has [id] equal to [jid], both being the resolved
    phone-number JID, or the LID when none is found. *)
Theorem extractGroupMetadata_id_eq_jid `{WABinary}
  (toNumber : option string -> option Z) (result : BinaryNode)
  (cache : option (gmap string (gmap string string))) (metadata : GroupMetadata) :
  extractGroupMetadata toNumber result cache = inr metadata ->
  exists ps group,
    g_participants metadata = Some ps
    /\ getBinaryNodeChild result "group" = Some group
    /\ ps = List.map (fun n => extractParticipant cache (g_id metadata) (attrs n))
                     (getBinaryNodeChildren group "participant")
    /\ Forall (fun p => p_id p = p_jid p) ps
    /\ Forall2 (fun n p => p_id p = resolvedPhoneJid cache (g_id metadata) (attrs n))
               (getBinaryNodeChildren group "participant") ps.
Proof.
  unfold extractGroupMetadata.
  destruct (getBinaryNodeChild result "group") as [group|]; [|discriminate].
  destruct (attrs group !! "id") as [gid|]; [|discriminate].
  intros [= <-]. simpl.
  eexists _, group. repeat split.
  - induction (getBinaryNodeChildren group "participant") as [|n l IH]; simpl.
    + constructor.
    + constructor; [apply extractParticipant_id_jid | exact IH].
  - induction (getBinaryNodeChildren group "participant") as [|n l IH]; simpl.
    + constructor.
    + constructor; [apply extractParticipant_resolved | exact IH].
Qed.

(** ** [LIDMappingStore] *)

Lemma cache_keys_differ (a b : string) : "lid:" +:+ a <> "pn:" +:+ b.
Proof. simpl. discriminate. Qed.

(** ** Objects as insertion-ordered lists *)

Section ObjFacts.
Context {V : Type}.
Implicit Types (o : JS.Obj V) (k : string) (v : V).

Lemma get_set_eq k v o : JS.get k (JS.set k v o) = Some v.
Proof.
  induction o as [|[k' v'] o IH]; simpl.
  - now rewrite String.eqb_refl.
  - destruct (String.eqb k k') eqn:E; simpl; rewrite ?String.eqb_refl, ?E; auto.
Qed.

Lemma get_set_ne k k' v o : k <> k' -> JS.get k' (JS.set k v o) = JS.get k' o.
Proof.
  intros Hne. induction o as [|[k0 v0] o IH]; simpl.
  - destruct (String.eqb_spec k' k); congruence.
  - destruct (String.eqb_spec k k0) as [->|Hk]; simpl.
    + destruct (String.eqb_spec k' k0); congruence.
    + destruct (String.eqb_spec k' k0); auto.
Qed.

Lemma get_None k o : ~ In k (List.map fst o) -> JS.get k o = None.
Proof.
  induction o as [|[k' v'] o IH]; simpl; [reflexivity|]. intros Hn.
  destruct (String.eqb_spec k k') as [->|Hk]; [tauto|]. apply IH. tauto.
Qed.

Lemma get_In k v o : JS.get k o = Some v -> In (k, v) o.
Proof.
  induction o as [|[k' v'] o IH]; simpl; [discriminate|].
  destruct (String.eqb_spec k k') as [->|Hk]; [intros [= ->]; auto|auto].
Qed.

Lemma In_get k v o : List.NoDup (List.map fst o) -> In (k, v) o -> JS.get k o = Some v.
Proof.
  induction o as [|[k' v'] o IH]; simpl; [tauto|].
  intros Hnd [[= -> ->]|Hin].
  - now rewrite String.eqb_refl.
  - apply NoDup_cons_iff in Hnd as [Hk Hnd].
    destruct (String.eqb_spec k k') as [->|Hne]; [|auto].
    exfalso. apply Hk. change k' with (fst (k', v)). now apply in_map.
Qed.

Lemma set_keys k v o :
  List.map fst (JS.set k v o)
  = if existsb (String.eqb k) (List.map fst o) then List.map fst o
    else List.map fst o ++ [k].
Proof.
  induction o as [|[k' v'] o IH]; simpl; [reflexivity|].
  destruct (String.eqb k k') eqn:E; simpl.
  - apply String.eqb_eq in E. now subst.
  - rewrite IH. destruct (existsb _ _); reflexivity.
Qed.

Lemma set_NoDup k v o : List.NoDup (List.map fst o) -> List.NoDup (List.map fst (JS.set k v o)).
Proof.
  intros Hnd. rewrite set_keys.
  destruct (existsb (String.eqb k) (List.map fst o)) eqn:E; [exact Hnd|].
  apply List.NoDup_app; [exact Hnd|repeat constructor; simpl; tauto|].
  intros x Hx [<-|[]].
  assert (existsb (String.eqb k) (List.map fst o) = true); [|congruence].
  apply existsb_exists. exists k. split; [exact Hx|apply String.eqb_refl].
Qed.

Lemma insertIdx_Permutation n (e : string * V) l :
  Permutation (JS.insertIdx n e l) ((n, e) :: l).
Proof.
  induction l as [|[m e'] l IH]; simpl; [reflexivity|].
  destruct (n <=? m)%N; [reflexivity|].
  rewrite IH. apply perm_swap.
Qed.

Lemma entries_Permutation o : Permutation (JS.entries o) o.
Proof.
  unfold JS.entries, JS.indexed, JS.named.
  induction o as [|e o IH]; simpl; [reflexivity|].
  destruct (JS.arrayIndex (fst e)) as [n|]; simpl.
  - rewrite insertIdx_Permutation. simpl. now rewrite IH.
  - rewrite <- Permutation_middle. now rewrite IH.
Qed.

Lemma get_entries k o : List.NoDup (List.map fst o) -> JS.get k (JS.entries o) = JS.get k o.
Proof.
  intros Hnd.
  assert (Hp := entries_Permutation o).
  assert (Hnd' : List.NoDup (List.map fst (JS.entries o))).
  { eapply Permutation_NoDup; [|exact Hnd]. symmetry. now apply Permutation_map. }
  destruct (JS.get k o) as [v|] eqn:E.
  - apply In_get; [exact Hnd'|]. eapply Permutation_in; [symmetry; exact Hp|].
    now apply get_In.
  - destruct (JS.get k (JS.entries o)) as [v|] eqn:E'; [|reflexivity].
    apply get_In in E'. eapply Permutation_in in E'; [|exact Hp].
    apply (In_get _ _ _ Hnd) in E'. congruence.
Qed.

End ObjFacts.

Section LIDMappingFacts.
Context `{WABinary}.

(** C6 (amended). When the two directions of a LID/PN pair are populated
    and agree (the LID user leads to the PN user and the PN user to that LID
    user), [getPNForLID] of a JID of the LID user finds the PN JID, and
    [getLIDForPN] of that gives the user-level LID JID back: for the
    user-level JID [x] itself, [getLIDForPN(getPNForLID(x))] is [x].  That
    both directions are populated is not enough: [storeLIDPNMappings] leaves
    the reverse entry of a LID user in place when its PN user is given
    another LID user. *)
Theorem getLIDForPN_getPNForLID (st : LIDMappingStore) (x pnUser lidUser : string) :
  isLidUser x = true ->
  user <$> jidDecode x = Some lidUser ->
  isPnUser (pnUser +:+ "@s.whatsapp.net") = true ->
  user <$> jidDecode (pnUser +:+ "@s.whatsapp.net") = Some pnUser ->
  pnUserOf st lidUser = Some pnUser ->
  lidUserOf st pnUser = Some lidUser ->
  exists st1 st2,
    getPNForLID x st = (inr (Some (pnUser +:+ "@s.whatsapp.net")), st1)
    /\ getLIDForPN (pnUser +:+ "@s.whatsapp.net") st1 = (inr (Some (lidUser +:+ "@lid")), st2)
    /\ (x = lidUser +:+ "@lid" ->
        getLIDForPN (pnUser +:+ "@s.whatsapp.net") st1 = (inr (Some x), st2)).
Proof.
  intros Hlid Hdx Hpn Hdp Hrev Hfwd.
  destruct (jidDecode x) as [dx|] eqn:Ex; [|discriminate].
  injection Hdx as Hux.
  destruct (jidDecode (pnUser +:+ "@s.whatsapp.net")) as [dp|] eqn:Ep; [|discriminate].
  injection Hdp as Hup.
  unfold pnUserOf, tieredLookup in Hrev. unfold lidUserOf, tieredLookup in Hfwd.
  assert (Hfirst : exists st1,
             getPNForLID x st = (inr (Some (pnUser +:+ "@s.whatsapp.net")), st1)
             /\ lidMappingKeys st1 = lidMappingKeys st
             /\ mappingCache st1 !! ("pn:" +:+ pnUser) = mappingCache st !! ("pn:" +:+ pnUser)).
  { unfold getPNForLID. rewrite Hlid, Ex, Hux. simpl.
    unfold mbind, M_bind, cacheGet, gets. simpl.
    destruct (JS.truthy (mappingCache st !! ("lid:" +:+ lidUser))) eqn:Et.
    - rewrite Hrev. simpl. eexists. repeat split.
    - unfold keysGet, gets. simpl.
      destruct (lidMappingKeys st !! (lidUser +:+ "_reverse")) as [p|] eqn:Ek;
        simpl in Hrev; [|discriminate].
      destruct (JS.truthyStr p) eqn:Etp; [|discriminate].
      injection Hrev as ->. simpl.
      eexists. split; [reflexivity|]. simpl. split; [reflexivity|].
      apply lookup_insert_ne, cache_keys_differ. }
  destruct Hfirst as (st1 & Hrun1 & Hkeys & Hcache).
  assert (Hsecond : exists st2,
             getLIDForPN (pnUser +:+ "@s.whatsapp.net") st1
             = (inr (Some (lidUser +:+ "@lid")), st2)).
  { unfold getLIDForPN. rewrite Hpn, Ep, Hup. simpl.
    unfold mbind, M_bind, cacheGet, gets. simpl.
    rewrite Hcache.
    destruct (JS.truthy (mappingCache st !! ("pn:" +:+ pnUser))) eqn:Et.
    - rewrite Hfwd. simpl.
      assert (Htl : JS.truthyStr lidUser = true)
        by (rewrite Hfwd in Et; exact Et).
      rewrite Htl. simpl. eexists. reflexivity.
    - unfold keysGet, gets. simpl. rewrite Hkeys.
      destruct (lidMappingKeys st !! pnUser) as [l|] eqn:Ek; simpl in Hfwd; [|discriminate].
      destruct (JS.truthyStr l) eqn:Etl; [|discriminate].
      injection Hfwd as ->. simpl. rewrite Etl. simpl. eexists. reflexivity. }
  destruct Hsecond as (st2 & Hrun2).
  exists st1, st2. split; [exact Hrun1|]. split; [exact Hrun2|].
  intros ->. exact Hrun2.
Qed.

Lemma withWarnings_nil st : withWarnings [] st = st.
Proof. destruct st. unfold withWarnings. simpl. now rewrite app_nil_r. Qed.

Lemma withWarnings_app ws1 ws2 st :
  withWarnings ws2 (withWarnings ws1 st) = withWarnings (ws1 ++ ws2) st.
Proof. unfold withWarnings. simpl. now rewrite app_assoc. Qed.

Lemma silent_ret {A} (a : A) : silent (mret a).
Proof. intros st. split; reflexivity. Qed.

Lemma silent_bind {A B} (m : M LIDMappingStore A) (f : A -> M LIDMappingStore B) :
  silent m -> (forall a, silent (f a)) -> silent (m ≫= f).
Proof.
  intros Hm Hf st. destruct (Hm st) as [Hw Hc]. unfold mbind, M_bind. split.
  - destruct (m st) as [[e|a] st1]; simpl in *; [exact Hw|].
    destruct (Hf a st1) as [Hw' _]. congruence.
  - intros ws. rewrite Hc.
    destruct (m st) as [[e|a] st1]; simpl; [reflexivity|]. apply Hf.
Qed.

Lemma silent_cacheGet k : silent (cacheGet k).
Proof. intros st. split; reflexivity. Qed.

Lemma silent_keysGet k : silent (keysGet k).
Proof. intros st. split; reflexivity. Qed.

Lemma silent_cacheSet k v : silent (cacheSet k v).
Proof. intros st. split; reflexivity. Qed.

Lemma silent_keysSet2 k1 v1 k2 v2 : silent (keysSet2 k1 v1 k2 v2).
Proof. intros st. split; reflexivity. Qed.

Lemma silent_existingLidUserFor pnUser : silent (existingLidUserFor pnUser).
Proof.
  unfold existingLidUserFor.
  apply silent_bind; [apply silent_cacheGet|]. intros cached.
  destruct (JS.truthy cached); [apply silent_ret|].
  apply silent_bind; [apply silent_keysGet|]. intros [e|]; [|apply silent_ret].
  destruct (JS.truthyStr e); [|apply silent_ret].
  apply silent_bind; [apply silent_cacheSet|]. intros _.
  apply silent_bind; [apply silent_cacheSet|]. intros _. apply silent_ret.
Qed.

Lemma silent_storeEntry e : silent (storeEntry e).
Proof.
  destruct e as [pnUser lidUser]. unfold storeEntry.
  apply silent_bind; [apply silent_keysSet2|]. intros _.
  apply silent_bind; [apply silent_cacheSet|]. intros _. apply silent_cacheSet.
Qed.

Lemma silent_forEach_storeEntry l : silent (forEach storeEntry l).
Proof.
  induction l as [|e l IH]; simpl; [apply silent_ret|].
  apply silent_bind; [apply silent_storeEntry|]. intros _. exact IH.
Qed.

Lemma silent_collectPairs l :
  List.Forall (fun p => validPair p = true) l ->
  forall pairMap, silent (collectPairs l pairMap).
Proof.
  induction 1 as [|[lid pn] l Hv _ IH]; intros pairMap; cbn [collectPairs].
  - apply silent_ret.
  - rewrite Hv. cbn [negb].
    destruct (isLidUser lid).
    + destruct (jidDecode lid) as [dl|]; [|apply silent_ret].
      destruct (jidDecode pn) as [dp|]; [|apply silent_ret].
      apply silent_bind; [apply silent_existingLidUserFor|]. intros r.
      destruct (JS.seq r (Some (user dl))); apply IH.
    + destruct (jidDecode pn) as [dl|]; [|apply silent_ret].
      destruct (jidDecode lid) as [dp|]; [|apply silent_ret].
      apply silent_bind; [apply silent_existingLidUserFor|]. intros r.
      destruct (JS.seq r (Some (user dl))); apply IH.
Qed.

Lemma filter_validPair_all l :
  List.Forall (fun p => validPair p = true) (List.filter validPair l).
Proof.
  apply List.Forall_forall. intros p Hp. now apply List.filter_In in Hp.
Qed.

Lemma storeEntry_total e st : exists st', storeEntry e st = (inr tt, st').
Proof. destruct e. eexists. reflexivity. Qed.

Lemma forEach_storeEntry_total l st : exists st', forEach storeEntry l st = (inr tt, st').
Proof.
  revert st. induction l as [|e l IH]; intros st; simpl.
  - eexists. reflexivity.
  - destruct (storeEntry_total e st) as (st1 & H1).
    destruct (IH st1) as (st2 & H2).
    exists st2. unfold mbind, M_bind. now rewrite H1.
Qed.

Lemma existingLidUserFor_total pnUser st :
  exists r st', existingLidUserFor pnUser st = (inr r, st').
Proof.
  unfold existingLidUserFor, mbind, M_bind, cacheGet, keysGet, gets. simpl.
  destruct (JS.truthy (mappingCache st !! ("pn:" +:+ pnUser))); [eauto|].
  destruct (lidMappingKeys st !! pnUser) as [e|]; [|eauto].
  destruct (JS.truthyStr e); eauto.
Qed.

(** A valid pair decodes, whichever way round it was given. *)
Lemma validPair_decodes (Hdec : decodesUsers) lid pn :
  validPair (lid, pn) = true ->
  is_Some (jidDecode (if isLidUser lid then lid else pn))
  /\ is_Some (jidDecode (if isLidUser lid then pn else lid)).
Proof.
  unfold validPair. intros Ev. apply orb_prop in Ev.
  destruct Ev as [Ev|Ev]; apply andb_prop in Ev as [E1 E2].
  - rewrite E1. split; apply Hdec; auto.
  - destruct (isLidUser lid) eqn:El; split; apply Hdec; auto.
Qed.

(** The loop on the whole batch does what it does on the valid pairs alone,
    and logs one warning for each of the others. *)
Lemma collectPairs_valid_only (Hdec : decodesUsers) pairs pairMap st :
  exists pairMap' st',
    collectPairs (List.filter validPair pairs) pairMap st = (inr (Next pairMap'), st')
    /\ collectPairs pairs pairMap st
       = (inr (Next pairMap'),
          withWarnings (List.map invalidMappingMessage
                          (List.filter (fun p => negb (validPair p)) pairs)) st').
Proof.
  revert pairMap st. induction pairs as [|[lid pn] rest IH]; intros pairMap st.
  - simpl. exists pairMap, st. rewrite withWarnings_nil. auto.
  - cbn [List.filter]. destruct (validPair (lid, pn)) eqn:Ev; cbn [negb].
    + (* a valid pair: processed the same way on both sides *)
      cbn [collectPairs]. rewrite Ev. cbn [negb].
      destruct (validPair_decodes Hdec lid pn Ev) as [[dl Hdl] [dp Hdp]].
      destruct (isLidUser lid); rewrite Hdl, Hdp;
        destruct (existingLidUserFor_total (user dp) st) as (r & st1 & He);
        rewrite !(bind_run _ _ _ _ _ He);
        destruct (JS.seq r (Some (user dl))); apply IH.
    + (* an invalid pair: a warning, then on with the rest *)
      cbn [collectPairs]. rewrite Ev. cbn [negb List.map].
      destruct (IH pairMap st) as (pm' & st' & H1 & H2).
      exists pm', st'. split; [exact H1|].
      assert (Hw : lidWarn (invalidMappingMessage (lid, pn)) st
                   = (inr tt, withWarnings [invalidMappingMessage (lid, pn)] st))
        by reflexivity.
      rewrite (bind_run _ _ _ _ _ Hw).
      destruct (IH pairMap (withWarnings [invalidMappingMessage (lid, pn)] st))
        as (pm2 & st2 & H3 & H4).
      destruct (silent_collectPairs _ (filter_validPair_all rest) pairMap st) as [_ Hs].
      rewrite Hs, H1 in H3. simpl in H3. injection H3 as <- <-.
      rewrite H4, withWarnings_app. reflexivity.
Qed.

(** Storing an entry populates both directions of the pair. *)
Lemma storeEntry_populates (pnUser lidUser : string) (st : LIDMappingStore) :
  JS.truthyStr pnUser = true -> JS.truthyStr lidUser = true ->
  exists st',
    storeEntry (pnUser, lidUser) st = (inr tt, st')
    /\ lidUserOf st' pnUser = Some lidUser
    /\ pnUserOf st' lidUser = Some pnUser.
Proof.
  intros Hp Hl. eexists. split; [reflexivity|].
  unfold lidUserOf, pnUserOf, tieredLookup. simpl.
  rewrite lookup_insert_eq.
  rewrite (lookup_insert_ne _ ("lid:" +:+ lidUser) ("pn:" +:+ pnUser))
    by apply cache_keys_differ.
  rewrite lookup_insert_eq. simpl. rewrite Hp, Hl. auto.
Qed.

(** The [return] at line 35: were a pair to pass the test of line 27 and then
    fail to decode, the call would end there, without a warning, the pairs
    after it unread and the pairs collected before it unstored.  With
    helpers that agree ([decodesUsers]) this cannot happen. *)
Lemma storeLIDPNMappings_undecodable (lid pn : string) (rest : list (string * string))
  (st : LIDMappingStore) :
  validPair (lid, pn) = true ->
  jidDecode (if isLidUser lid then lid else pn) = None
  \/ jidDecode (if isLidUser lid then pn else lid) = None ->
  storeLIDPNMappings ((lid, pn) :: rest) st = (inr tt, st).
Proof.
  intros Hv Hd. unfold storeLIDPNMappings. cbn [collectPairs]. rewrite Hv. cbn [negb].
  destruct (isLidUser lid).
  - destruct Hd as [->| ->]; [reflexivity|].
    destruct (jidDecode lid); reflexivity.
  - destruct Hd as [->| ->]; [reflexivity|].
    destruct (jidDecode pn); reflexivity.
Qed.

Lemma pn_key_inj (a b : string) : "pn:" +:+ a = "pn:" +:+ b -> a = b.
Proof. intros E. now apply (inj (String.append _)) in E. Qed.

(** The transaction leaves under [pn:<user>] what the object held for the
    user, and the other [pn:] entries of the cache as they were. *)
Lemma forEach_storeEntry_cache (l : JS.Obj string) (st : LIDMappingStore) :
  List.NoDup (List.map fst l) ->
  exists st',
    forEach storeEntry l st = (inr tt, st')
    /\ forall k, mappingCache st' !! ("pn:" +:+ k)
                 = match JS.get k l with
                   | Some v => Some v
                   | None => mappingCache st !! ("pn:" +:+ k)
                   end.
Proof.
  revert st. induction l as [|[k0 v0] l IH]; intros st Hnd.
  - exists st. split; [reflexivity|]. intros k. reflexivity.
  - apply NoDup_cons_iff in Hnd as [Hk0 Hnd]. cbn [List.map fst] in Hk0.
    cbn [forEach].
    destruct (storeEntry_total (k0, v0) st) as [st1 Hst1].
    rewrite (bind_run _ _ _ _ _ Hst1).
    destruct (IH st1 Hnd) as (st' & Hrun & Hc). exists st'. split; [exact Hrun|].
    intros k. rewrite Hc. cbn [JS.get].
    assert (Hc1 : mappingCache st1
                  = <["lid:" +:+ v0 := k0]> (<["pn:" +:+ k0 := v0]> (mappingCache st))).
    { unfold storeEntry in Hst1. cbv in Hst1. injection Hst1 as <-. reflexivity. }
    destruct (String.eqb_spec k k0) as [->|Hne].
    + rewrite (get_None k0 l Hk0). rewrite Hc1.
      rewrite lookup_insert_ne by apply cache_keys_differ.
      now rewrite lookup_insert_eq.
    + destruct (JS.get k l); [reflexivity|]. rewrite Hc1.
      rewrite lookup_insert_ne by apply cache_keys_differ.
      rewrite lookup_insert_ne; [reflexivity|].
      intros E. apply pn_key_inj in E. congruence.
Qed.

(** The key store after the transaction: a key is as it was unless an entry
    of the object writes it, as its PN user or as the [_reverse] key of its
    LID user. *)
Lemma forEach_storeEntry_other_keys (l : JS.Obj string) (st st' : LIDMappingStore) :
  forEach storeEntry l st = (inr tt, st') ->
  forall k, lidMappingKeys st' !! k = lidMappingKeys st !! k
            \/ exists k2 v2, In (k2, v2) l /\ (k2 = k \/ v2 +:+ "_reverse" = k).
Proof.
  revert st. induction l as [|[k0 v0] l IH]; intros st Hrun k.
  - apply ret_inr in Hrun as [_ <-]. now left.
  - cbn [forEach] in Hrun.
    destruct (storeEntry_total (k0, v0) st) as [st1 Hst1].
    rewrite (bind_run _ _ _ _ _ Hst1) in Hrun.
    assert (Hk1 : lidMappingKeys st1
                  = <[v0 +:+ "_reverse" := k0]> (<[k0 := v0]> (lidMappingKeys st))).
    { unfold storeEntry in Hst1. cbv in Hst1. injection Hst1 as <-. reflexivity. }
    destruct (IH st1 Hrun k) as [Heq|(k2 & v2 & Hin & Hw)].
    + destruct (decide (v0 +:+ "_reverse" = k)) as [E|Hn1];
        [right; exists k0, v0; split; [now left|now right]|].
      destruct (decide (k0 = k)) as [E|Hn2];
        [right; exists k0, v0; split; [now left|now left]|].
      left. rewrite Heq, Hk1. rewrite !lookup_insert_ne by congruence. reflexivity.
    + right. exists k2, v2. split; [now right|exact Hw].
Qed.

(** The entry written for a PN user of the object holds its LID user,
    unless the [_reverse] key of some entry is spelled like this PN user. *)
Lemma forEach_storeEntry_keys (l : JS.Obj string) (st st' : LIDMappingStore) :
  List.NoDup (List.map fst l) ->
  forEach storeEntry l st = (inr tt, st') ->
  forall k v, JS.get k l = Some v ->
    lidMappingKeys st' !! k = Some v
    \/ exists k2 v2, In (k2, v2) l /\ v2 +:+ "_reverse" = k.
Proof.
  revert st. induction l as [|[k0 v0] l IH]; intros st Hnd Hrun k v Hget; [discriminate|].
  apply NoDup_cons_iff in Hnd as [Hk0 Hnd]. cbn [List.map fst] in Hk0.
  cbn [forEach] in Hrun.
  destruct (storeEntry_total (k0, v0) st) as [st1 Hst1].
  rewrite (bind_run _ _ _ _ _ Hst1) in Hrun.
  assert (Hk1 : lidMappingKeys st1
                = <[v0 +:+ "_reverse" := k0]> (<[k0 := v0]> (lidMappingKeys st))).
  { unfold storeEntry in Hst1. cbv in Hst1. injection Hst1 as <-. reflexivity. }
  cbn [JS.get] in Hget. destruct (String.eqb_spec k k0) as [->|Hne].
  - injection Hget as <-.
    destruct (forEach_storeEntry_other_keys l st1 st' Hrun k0) as [Heq|(k2 & v2 & Hin & Hw)].
    + destruct (decide (v0 +:+ "_reverse" = k0)) as [E|Hn1];
        [right; exists k0, v0; split; [now left|exact E]|].
      left. rewrite Heq, Hk1. rewrite lookup_insert_ne by congruence.
      now rewrite lookup_insert_eq.
    + destruct Hw as [->|Hw].
      * exfalso. apply Hk0. change k0 with (fst (k0, v2)). now apply in_map.
      * right. exists k2, v2. split; [now right|exact Hw].
  - destruct (IH st1 Hnd Hrun k v Hget) as [?|(k2 & v2 & Hin & Hw)]; [now left|].
    right. exists k2, v2. split; [now right|exact Hw].
Qed.

Lemma lid_key_inj (a b : string) : "lid:" +:+ a = "lid:" +:+ b -> a = b.
Proof. intros E. now apply (inj (String.append _)) in E. Qed.

Lemma length_append (a b : string) :
  String.length (a +:+ b) = (String.length a + String.length b)%nat.
Proof. induction a as [|c a IH]; [reflexivity|]. simpl. f_equal. exact IH. Qed.

Lemma reverse_key_inj (a b : string) : a +:+ "_reverse" = b +:+ "_reverse" -> a = b.
Proof.
  revert b. induction a as [|c a IH]; intros [|c' b] E.
  - reflexivity.
  - apply (f_equal String.length) in E. rewrite !length_append in E. cbn in E. lia.
  - apply (f_equal String.length) in E. rewrite !length_append in E. cbn in E. lia.
  - cbn in E. injection E as -> E. f_equal. now apply IH.
Qed.

(** The cache after the transaction: a key is as it was unless an entry of
    the object writes it. *)
Lemma forEach_storeEntry_other_cache (l : JS.Obj string) (st st' : LIDMappingStore) :
  forEach storeEntry l st = (inr tt, st') ->
  forall c, mappingCache st' !! c = mappingCache st !! c
            \/ exists k2 v2, In (k2, v2) l /\ (c = "pn:" +:+ k2 \/ c = "lid:" +:+ v2).
Proof.
  revert st. induction l as [|[k0 v0] l IH]; intros st Hrun c.
  - apply ret_inr in Hrun as [_ <-]. now left.
  - cbn [forEach] in Hrun.
    destruct (storeEntry_total (k0, v0) st) as [st1 Hst1].
    rewrite (bind_run _ _ _ _ _ Hst1) in Hrun.
    assert (Hc1 : mappingCache st1
                  = <["lid:" +:+ v0 := k0]> (<["pn:" +:+ k0 := v0]> (mappingCache st))).
    { unfold storeEntry in Hst1. cbv in Hst1. injection Hst1 as <-. reflexivity. }
    destruct (IH st1 Hrun c) as [Heq|(k2 & v2 & Hin & Hw)].
    + destruct (decide (c = "lid:" +:+ v0)) as [E|Hn1];
        [right; exists k0, v0; split; [now left|now right]|].
      destruct (decide (c = "pn:" +:+ k0)) as [E|Hn2];
        [right; exists k0, v0; split; [now left|now left]|].
      left. rewrite Heq, Hc1. rewrite !lookup_insert_ne by congruence. reflexivity.
    + right. exists k2, v2. split; [now right|exact Hw].
Qed.

(** The reverse direction: the PN user is in the cache under [lid:] and in
    the key store under the [_reverse] key of its LID user, unless another
    entry has the same LID user or a PN user spelled like that key. *)
Lemma forEach_storeEntry_reverse (l : JS.Obj string) (st st' : LIDMappingStore) :
  List.NoDup (List.map fst l) ->
  forEach storeEntry l st = (inr tt, st') ->
  forall k v, JS.get k l = Some v ->
    (mappingCache st' !! ("lid:" +:+ v) = Some k
     \/ exists k2, In (k2, v) l /\ k2 <> k)
    /\ (lidMappingKeys st' !! (v +:+ "_reverse") = Some k
        \/ (exists k2, In (k2, v) l /\ k2 <> k)
        \/ exists v2, In (v +:+ "_reverse", v2) l).
Proof.
  revert st. induction l as [|[k0 v0] l IH]; intros st Hnd Hrun k v Hget; [discriminate|].
  apply NoDup_cons_iff in Hnd as [Hk0 Hnd]. cbn [List.map fst] in Hk0.
  cbn [forEach] in Hrun.
  destruct (storeEntry_total (k0, v0) st) as [st1 Hst1].
  rewrite (bind_run _ _ _ _ _ Hst1) in Hrun.
  assert (Hs1 : mappingCache st1
                = <["lid:" +:+ v0 := k0]> (<["pn:" +:+ k0 := v0]> (mappingCache st))
                /\ lidMappingKeys st1
                   = <[v0 +:+ "_reverse" := k0]> (<[k0 := v0]> (lidMappingKeys st))).
  { unfold storeEntry in Hst1. cbv in Hst1. injection Hst1 as <-. split; reflexivity. }
  destruct Hs1 as [Hc1 Hk1].
  assert (Hnot : forall k2 x, In (k2, x) l -> k2 <> k0).
  { intros k2 x Hin ->. apply Hk0. change k0 with (fst (k0, x)). now apply in_map. }
  cbn [JS.get] in Hget. destruct (String.eqb_spec k k0) as [->|Hne].
  - injection Hget as <-. split.
    + destruct (forEach_storeEntry_other_cache l st1 st' Hrun ("lid:" +:+ v0))
        as [Heq|(k2 & v2 & Hin & [E|E])].
      * left. rewrite Heq, Hc1. now rewrite lookup_insert_eq.
      * exfalso. exact (cache_keys_differ _ _ E).
      * apply lid_key_inj in E. subst v2. right. exists k2.
        split; [now right|now apply (Hnot k2 v0)].
    + destruct (forEach_storeEntry_other_keys l st1 st' Hrun (v0 +:+ "_reverse"))
        as [Heq|(k2 & v2 & Hin & [E|E])].
      * left. rewrite Heq, Hk1. now rewrite lookup_insert_eq.
      * right. right. exists v2. subst k2. now right.
      * apply reverse_key_inj in E. subst v2. right. left. exists k2.
        split; [now right|now apply (Hnot k2 v0)].
  - destruct (IH st1 Hnd Hrun k v Hget) as [Hc Hk]. split.
    + destruct Hc as [?|(k2 & Hin & ?)]; [now left|right].
      exists k2. split; [now right|assumption].
    + destruct Hk as [?|[(k2 & Hin & ?)|(v2 & Hin)]]; [now left|right; left|right; right].
      * exists k2. split; [now right|assumption].
      * exists v2. now right.
Qed.

(** The check for an existing mapping: it answers with what is on record,
    leaves the key store and what is on record for every user as they are,
    and a non-empty answer is in the cache afterwards. *)
Lemma existingLidUserFor_cache (pnUser : string) (st : LIDMappingStore) :
  exists st',
    existingLidUserFor pnUser st = (inr (existingLidUserOf st pnUser), st')
    /\ (forall k, existingLidUserOf st' k = existingLidUserOf st k)
    /\ (forall k l, l <> "" -> mappingCache st !! ("pn:" +:+ k) = Some l ->
        mappingCache st' !! ("pn:" +:+ k) = Some l)
    /\ (forall l, l <> "" -> existingLidUserOf st pnUser = Some l ->
        mappingCache st' !! ("pn:" +:+ pnUser) = Some l).
Proof.
  unfold existingLidUserFor, existingLidUserOf, mbind, M_bind, cacheGet, keysGet, gets.
  cbn [fst snd].
  destruct (JS.truthy (mappingCache st !! ("pn:" +:+ pnUser))) eqn:Et.
  { exists st. split; [reflexivity|]. split; [reflexivity|]. split; [auto|]. auto. }
  destruct (lidMappingKeys st !! pnUser) as [e|] eqn:Es.
  2:{ exists st. split; [reflexivity|]. split; [reflexivity|]. split; [auto|]. discriminate. }
  destruct (JS.truthyStr e) eqn:Ee.
  2:{ exists st. split; [reflexivity|]. split; [reflexivity|]. split; [auto|].
      intros l Hl [= ->]. unfold JS.truthyStr in Ee.
      apply negb_false_iff, String.eqb_eq in Ee. congruence. }
  eexists. split; [reflexivity|]. cbn [mappingCache lidMappingKeys]. split; [|split].
  - intros k. unfold existingLidUserOf. cbn [mappingCache lidMappingKeys].
    rewrite (lookup_insert_ne _ ("lid:" +:+ e)) by apply cache_keys_differ.
    destruct (decide (k = pnUser)) as [->|Hne].
    + rewrite lookup_insert_eq. cbn [JS.truthy]. rewrite Ee, Et. now rewrite Es.
    + rewrite lookup_insert_ne; [reflexivity|]. intros E. apply pn_key_inj in E. congruence.
  - intros k l Hl Hc.
    rewrite (lookup_insert_ne _ ("lid:" +:+ e)) by apply cache_keys_differ.
    destruct (decide (k = pnUser)) as [->|Hne].
    + rewrite Hc in Et. cbn [JS.truthy] in Et. unfold JS.truthyStr in Et.
      apply negb_false_iff, String.eqb_eq in Et. congruence.
    + rewrite lookup_insert_ne; [exact Hc|]. intros E. apply pn_key_inj in E. congruence.
  - intros l _ [= ->].
    rewrite (lookup_insert_ne _ ("lid:" +:+ l)) by apply cache_keys_differ.
    now rewrite lookup_insert_eq.
Qed.

Lemma collectPairs_collected (st0 : LIDMappingStore) (rest seen : list (string * string))
  (pairMap : JS.Obj string) (st : LIDMappingStore) :
  (forall p, In p rest -> validPair p = true -> is_Some (pairUsers p)) ->
  collected st0 seen pairMap st ->
  exists pairMap' st',
    collectPairs rest pairMap st = (inr (Next pairMap'), st')
    /\ collected st0 (seen ++ rest) pairMap' st'.
Proof.
  revert seen pairMap st. induction rest as [|[lid pn] rest IH]; intros seen pairMap st Hall Hc.
  - exists pairMap, st. split; [reflexivity|]. now rewrite app_nil_r.
  - assert (Hall' : forall p, In p rest -> validPair p = true -> is_Some (pairUsers p)).
    { intros p Hp. apply Hall. now right. }
    replace (seen ++ (lid, pn) :: rest) with ((seen ++ [(lid, pn)]) ++ rest)
      by now rewrite <- app_assoc.
    cbn [collectPairs].
    destruct Hc as (Hnd & Hfrom & Hcov & Hrec).
    assert (Hfrom' : forall k v, JS.get k pairMap = Some v ->
              exists p, In p (seen ++ [(lid, pn)]) /\ validPair p = true
                        /\ pairUsers p = Some (v, k)).
    { intros k v Hg. destruct (Hfrom k v Hg) as (p & Hp & ?).
      exists p. split; [apply in_or_app; now left|assumption]. }
    destruct (validPair (lid, pn)) eqn:Hv; cbn [negb].
    + destruct (Hall (lid, pn)) as ([lu pu] & Hpu); [now left|exact Hv|].
      pose proof Hpu as Hself.
      unfold pairUsers, orderedPair in Hpu. cbn [fst snd] in Hpu.
      destruct (if isLidUser lid then (lid, pn) else (pn, lid)) as [lidJid pnJid] eqn:Eo.
      cbn [fst snd] in Hpu.
      destruct (jidDecode lidJid) as [dl|] eqn:Edl; [|discriminate].
      destruct (jidDecode pnJid) as [dp|] eqn:Edp; [|discriminate].
      cbn in Hpu. injection Hpu as <- <-.
      destruct (existingLidUserFor_cache (user dp) st) as (st1 & Hrun & Hrec1 & Hkeep & Hans).
      rewrite (bind_run _ _ _ _ _ Hrun).
      assert (Hrec' : forall k, existingLidUserOf st1 k = existingLidUserOf st0 k).
      { intros k. now rewrite Hrec1. }
      assert (Hcov1 : forall p lu pu, In p seen -> validPair p = true ->
                 pairUsers p = Some (lu, pu) ->
                 is_Some (JS.get pu pairMap)
                 \/ (existingLidUserOf st0 pu = Some lu
                     /\ (lu <> "" -> mappingCache st1 !! ("pn:" +:+ pu) = Some lu))).
      { intros p lu pu Hp Hpv Hpp.
        destruct (Hcov p lu pu Hp Hpv Hpp) as [?|[Hon Hcache]]; [now left|right].
        split; [exact Hon|]. intros Hlu. apply Hkeep; auto. }
      destruct (JS.seq (existingLidUserOf st (user dp)) (Some (user dl))) eqn:Hseq.
      * apply bool_decide_eq_true in Hseq.
        apply IH; [exact Hall'|]. split; [exact Hnd|]. split; [exact Hfrom'|].
        split; [|exact Hrec'].
        intros p lu pu Hp Hpv Hpp. apply in_app_or in Hp as [Hp|[<-|[]]].
        -- now apply (Hcov1 p).
        -- rewrite Hself in Hpp. injection Hpp as <- <-. right.
           split; [now rewrite <- Hrec|]. intros Hlu. now apply Hans.
      * apply IH; [exact Hall'|]. split; [now apply set_NoDup|]. split; [|split; [|exact Hrec']].
        -- intros k v Hg. destruct (decide (k = user dp)) as [->|Hne].
           ++ rewrite get_set_eq in Hg. injection Hg as <-.
              exists (lid, pn). split; [apply in_or_app; right; now left|]. auto.
           ++ rewrite get_set_ne in Hg by congruence. now apply Hfrom'.
        -- intros p lu pu Hp Hpv Hpp.
           destruct (decide (pu = user dp)) as [->|Hne].
           ++ left. rewrite get_set_eq. eauto.
           ++ rewrite get_set_ne by congruence.
              apply in_app_or in Hp as [Hp|[<-|[]]].
              ** now apply (Hcov1 p).
              ** rewrite Hself in Hpp. congruence.
    + unfold lidWarn at 1. unfold mbind, M_bind, modify. cbn.
      match goal with |- context [collectPairs rest pairMap ?s] => set (st1 := s) end.
      apply (IH _ _ st1); [exact Hall'|].
      split; [exact Hnd|]. split; [exact Hfrom'|]. split; [|exact Hrec].
      intros p lu pu Hp Hpv Hpp. apply in_app_or in Hp as [Hp|[<-|[]]]; [|congruence].
      now apply (Hcov p).
Qed.

(** What a batch leaves behind, its valid pairs decoding: every valid pair
    was either on record already, with its LID user (if not empty) in the
    cache afterwards; or a valid pair of the batch with the same PN user is
    stored. *)
Lemma storeLIDPNMappings_stored (pairs : list (string * string)) (st : LIDMappingStore) :
  (forall p, In p pairs -> validPair p = true -> is_Some (pairUsers p)) ->
  exists st',
    storeLIDPNMappings pairs st = (inr tt, st')
    /\ forall p lu pu, In p pairs -> validPair p = true -> pairUsers p = Some (lu, pu) ->
       (existingLidUserOf st pu = Some lu
        /\ (lu <> "" -> mappingCache st' !! ("pn:" +:+ pu) = Some lu))
       \/ exists p' lu',
            In p' pairs /\ validPair p' = true /\ pairUsers p' = Some (lu', pu)
            /\ storedAs pairs st' lu' pu.
Proof.
  intros Hall.
  destruct (collectPairs_collected st pairs [] [] st Hall)
    as (pm & st1 & Hrun & Hnd & Hfrom & Hcov & _).
  { split; [apply List.NoDup_nil|]. split; [discriminate|]. split; [intros p lu pu []|].
    reflexivity. }
  cbn [app] in *.
  assert (Hnd' : List.NoDup (List.map fst (JS.entries pm))).
  { eapply Permutation_NoDup; [|exact Hnd].
    symmetry. apply Permutation_map, entries_Permutation. }
  assert (Hentry : forall k v, In (k, v) (JS.entries pm) ->
            exists p, In p pairs /\ validPair p = true /\ pairUsers p = Some (v, k)).
  { intros k v Hin. eapply Permutation_in in Hin; [|apply entries_Permutation].
    apply (In_get _ _ _ Hnd) in Hin. now apply Hfrom. }
  destruct (forEach_storeEntry_cache (JS.entries pm) st1 Hnd') as (st' & Hstore & Hcache).
  exists st'. split.
  { unfold storeLIDPNMappings. rewrite (bind_run _ _ _ _ _ Hrun). exact Hstore. }
  intros p lu pu Hp Hv Hpu.
  specialize (Hcache pu). rewrite get_entries in Hcache by exact Hnd.
  destruct (JS.get pu pm) as [v|] eqn:Eg.
  - right. destruct (Hfrom pu v Eg) as (p' & Hp' & Hv' & Hpp').
    exists p', v. split; [exact Hp'|]. split; [exact Hv'|]. split; [exact Hpp'|].
    assert (Eg' : JS.get pu (JS.entries pm) = Some v) by now rewrite get_entries.
    destruct (forEach_storeEntry_reverse _ _ _ Hnd' Hstore pu v Eg') as [Hrc Hrk].
    assert (Hshared : (exists k2, In (k2, v) (JS.entries pm) /\ k2 <> pu) ->
                      lidUserShared pairs v pu).
    { intros (k2 & Hin & Hne). destruct (Hentry k2 v Hin) as (p2 & ? & ? & ?).
      exists p2, k2. auto. }
    split; [exact Hcache|]. split.
    { destruct Hrc as [?|Hs]; [now right|left; now apply Hshared]. }
    destruct (forEach_storeEntry_keys _ _ _ Hnd' Hstore pu v Eg') as [Hk|(k2 & v2 & Hin & Hw)].
    2:{ left. destruct (Hentry k2 v2 Hin) as (p2 & ? & ? & ?).
        exists p', p2, v, pu, v2, k2. auto 10. }
    destruct Hrk as [?|[Hs|(v2 & Hin)]].
    + right. split; [exact Hk|now right].
    + right. split; [exact Hk|left; now apply Hshared].
    + left. destruct (Hentry _ v2 Hin) as (p2 & ? & ? & ?).
      exists p2, p', v2, (v +:+ "_reverse"), v, pu. auto 10.
  - left. destruct (Hcov p lu pu Hp Hv Hpu) as [[? ?]|[Hon Hc]]; [congruence|].
    split; [exact Hon|]. intros Hlu. rewrite Hcache. auto.
Qed.

Lemma decodesUsers_pairUsers (Hdec : decodesUsers) (p : string * string) :
  validPair p = true -> is_Some (pairUsers p).
Proof.
  destruct p as [lid pn]. intros Hv.
  destruct (validPair_decodes Hdec lid pn Hv) as [[dl Hdl] [dp Hdp]].
  unfold pairUsers, orderedPair. cbn [fst snd].
  destruct (isLidUser lid); cbn [fst snd]; rewrite Hdl, Hdp; cbn; eauto.
Qed.

(** C7. [storeLIDPNMappings] does not throw on invalid pairs: a pair that is
    not a LID user matched with a PN user is skipped with a warning, and the
    valid pairs of the batch are processed and stored as if they had been
    given alone.  (A pair that fails to decode fails that test as well, the
    helpers being coherent.)  Stored means: every valid pair of the batch
    decodes, and unless it was on record already (line 53; its LID user, if
    not empty, is then in the cache), a valid pair of the batch with the same
    PN user is in the cache and in the key store afterwards, in both
    directions. *)
Theorem storeLIDPNMappings_skips_invalid (pairs : list (string * string))
  (st : LIDMappingStore) :
  decodesUsers ->
  exists st' stv,
    storeLIDPNMappings pairs st = (inr tt, st')
    /\ storeLIDPNMappings (List.filter validPair pairs) st = (inr tt, stv)
    /\ mappingCache st' = mappingCache stv
    /\ lidMappingKeys st' = lidMappingKeys stv
    /\ lidWarnings stv = lidWarnings st
    /\ lidWarnings st'
       = lidWarnings st
         ++ List.map invalidMappingMessage (List.filter (fun p => negb (validPair p)) pairs)
    /\ forall p, In p pairs -> validPair p = true ->
       exists lu pu,
         pairUsers p = Some (lu, pu)
         /\ ((existingLidUserOf st pu = Some lu
              /\ (lu <> "" -> mappingCache st' !! ("pn:" +:+ pu) = Some lu))
             \/ exists p' lu',
                  In p' pairs /\ validPair p' = true /\ pairUsers p' = Some (lu', pu)
                  /\ storedAs pairs st' lu' pu).
Proof.
  intros Hdec.
  destruct (collectPairs_valid_only Hdec pairs [] st) as (pm & st1 & Hv & Hall).
  destruct (forEach_storeEntry_total (JS.entries pm) st1) as (stv & Hstore).
  destruct (silent_collectPairs _ (filter_validPair_all pairs) [] st) as [Hlog1 _].
  destruct (silent_forEach_storeEntry (JS.entries pm) st1) as [Hlog2 Hs].
  rewrite Hv in Hlog1. rewrite Hstore in Hlog2, Hs. simpl in *.
  assert (Hrun : storeLIDPNMappings pairs st = (inr tt, withWarnings
            (List.map invalidMappingMessage
               (List.filter (fun p => negb (validPair p)) pairs)) stv)).
  { unfold storeLIDPNMappings. rewrite (bind_run _ _ _ _ _ Hall). apply Hs. }
  eexists (withWarnings _ stv), stv.
  split; [exact Hrun|]. split; [|split; [|split; [|split; [|split]]]].
  - unfold storeLIDPNMappings. rewrite (bind_run _ _ _ _ _ Hv). exact Hstore.
  - reflexivity.
  - reflexivity.
  - congruence.
  - simpl. congruence.
  - destruct (storeLIDPNMappings_stored pairs st) as (st' & Hrun' & Hstored).
    { intros p _. now apply decodesUsers_pairUsers. }
    rewrite Hrun in Hrun'. injection Hrun' as <-.
    intros p Hp Hvp. destruct (decodesUsers_pairUsers Hdec p Hvp) as [[lu pu] Hpu].
    exists lu, pu. split; [exact Hpu|]. now apply (Hstored p).
Qed.

End LIDMappingFacts.

(** ** Frame lemmas *)

Section Frames.
Context {S X : Type} (f : S -> X).

Lemma frames_ret {A} (a : A) : frames f (mret a : M S A).
Proof. intros s. reflexivity. Qed.

Lemma frames_throw {A} (e : Err) : frames f (throw e : M S A).
Proof. intros s. reflexivity. Qed.

Lemma frames_gets {A} (g : S -> A) : frames f (gets g).
Proof. intros s. reflexivity. Qed.

Lemma frames_modify (g : S -> S) : (forall s, f (g s) = f s) -> frames f (modify g).
Proof. intros Hg s. apply Hg. Qed.

Lemma frames_bind {A B} (m : M S A) (k : A -> M S B) :
  frames f m -> (forall a, frames f (k a)) -> frames f (m ≫= k).
Proof.
  intros Hm Hk s. unfold mbind, M_bind. specialize (Hm s).
  destruct (m s) as [[e|a] s1]; simpl in *; [exact Hm|].
  rewrite Hk. exact Hm.
Qed.

Lemma frames_tryCatch {A} (m : M S A) (h : Err -> M S A) :
  frames f m -> (forall e, frames f (h e)) -> frames f (tryCatch m h).
Proof.
  intros Hm Hh s. unfold tryCatch. specialize (Hm s).
  destruct (m s) as [[e|a] s1]; simpl in *; [|exact Hm].
  rewrite Hh. exact Hm.
Qed.

Lemma frames_zoom {T A} (proj : S -> T) (upd : T -> S -> S) (m : M T A) :
  (forall t s, f (upd t s) = f s) -> frames f (zoom proj upd m).
Proof.
  intros Hu s. unfold zoom. destruct (m (proj s)) as [r t]. simpl. apply Hu.
Qed.

Lemma frames_mapM {A B} (k : A -> M S B) (l : list A) :
  (forall a, frames f (k a)) -> frames f (mapM k l).
Proof.
  intros Hk. induction l as [|x l IH]; simpl.
  - apply frames_ret.
  - apply frames_bind; [apply Hk|]. intros y.
    apply frames_bind; [exact IH|]. intros ys. apply frames_ret.
Qed.

Lemma frames_forEach {A} (k : A -> M S unit) (l : list A) :
  (forall a, frames f (k a)) -> frames f (forEach k l).
Proof.
  intros Hk. induction l as [|x l IH]; simpl.
  - apply frames_ret.
  - apply frames_bind; [apply Hk|]. intros _. exact IH.
Qed.

(** What [frames] gives for a run that ends in a known state. *)
Lemma frames_run {A} (m : M S A) s r s' : frames f m -> m s = (r, s') -> f s' = f s.
Proof. intros Hm Hr. specialize (Hm s). now rewrite Hr in Hm. Qed.

End Frames.

Ltac frames_modify_side :=
  intros; first
    [ reflexivity
    | apply untouched_world | apply untouched_lidMapping
    | apply untouched_deviceList | apply untouched_userDevicesCache
    | apply untouched_peerSessionsCache | apply untouched_groupMetadataCache
    | apply untouched_lidMappingCache | apply untouched_warnings
    | simpl; rewrite untouched_lidMapping; apply untouched_world ].

Ltac frames_step :=
  first
    [ solve [eauto with frames typeclass_instances]
    | apply frames_ret | apply frames_throw | apply frames_gets
    | apply frames_modify; frames_modify_side
    | apply frames_zoom; frames_modify_side
    | apply frames_bind; [|intros ?]
    | apply frames_tryCatch; [|intros ?]
    | apply frames_mapM; intros ?
    | apply frames_forEach; intros ?
    | match goal with
      | |- frames _ (match ?x with _ => _ end) => destruct x
      | |- frames _ (if ?b then _ else _) => destruct b
      | |- frames _ (let (_, _) := ?x in _) => destruct x
      | |- frames _ (let _ := _ in _) => cbv zeta
      end ].

Ltac frames_tac := repeat frames_step.

Create HintDb frames.

Section SocketFrames.
Context `{WABinary} {W : Type} `{Collaborators W} (config : SocketConfig W).
Context {X : Type} (f : Socket W -> X) `{!Untouched f}.

Lemma frames_io {A} (m : M W A) : frames f (io m).
Proof. unfold io. frames_tac. Qed.

Lemma frames_onLidMapping {A} (m : M LIDMappingStore A) : frames f (onLidMapping m).
Proof. unfold onLidMapping. frames_tac. Qed.

Lemma frames_onLidMappingAndWorld {A} (m : M (LIDMappingStore * W) A) :
  frames f (onLidMappingAndWorld m).
Proof. unfold onLidMappingAndWorld. frames_tac. Qed.

Lemma frames_warn msg : frames f (warn msg).
Proof. unfold warn. frames_tac. Qed.

Hint Resolve frames_io frames_onLidMapping frames_onLidMappingAndWorld frames_warn : frames.

Lemma frames_storeLIDMappingsAndParticipants metadata :
  frames f (storeLIDMappingsAndParticipants metadata).
Proof. unfold storeLIDMappingsAndParticipants. frames_tac. Qed.

Hint Resolve frames_storeLIDMappingsAndParticipants : frames.

Lemma frames_groupMetadata jid : frames f (groupMetadata jid).
Proof. unfold groupMetadata, groupQuery. frames_tac. Qed.

Lemma frames_getUSyncDevices jids useCache ignoreZeroDevices :
  frames f (getUSyncDevices config jids useCache ignoreZeroDevices).
Proof. unfold getUSyncDevices. frames_tac. Qed.

Lemma frames_jidsWithoutSession l : frames f (jidsWithoutSession l).
Proof. induction l as [|jid l IH]; simpl; frames_tac. Qed.

Hint Resolve frames_groupMetadata frames_getUSyncDevices frames_jidsWithoutSession : frames.

Lemma frames_assertSessions jids : frames f (assertSessions config jids).
Proof. unfold assertSessions, assertSessionsInternal. frames_tac. Qed.

Lemma frames_callPatch message recipients : frames f (callPatch config message recipients).
Proof. unfold callPatch. frames_tac. Qed.

Lemma frames_loadGroupData jid isStatus useCached :
  frames f (loadGroupData config jid isStatus useCached).
Proof.
  unfold loadGroupData, fetchedGroupData, getCachedGroupMetadata. frames_tac.
Qed.

Lemma frames_loadSenderKeyMap jid participant isStatus :
  frames f (loadSenderKeyMap jid participant isStatus).
Proof. unfold loadSenderKeyMap. frames_tac. Qed.

Hint Resolve frames_assertSessions frames_callPatch frames_loadGroupData
  frames_loadSenderKeyMap : frames.

Lemma frames_groupRecipients isStatus groupData statusJidList useCache attrs0 :
  frames f (groupRecipients config isStatus groupData statusJidList useCache attrs0).
Proof. unfold groupRecipients. frames_tac. Qed.

End SocketFrames.

#[global] Hint Resolve frames_io frames_onLidMapping frames_onLidMappingAndWorld
  frames_warn frames_storeLIDMappingsAndParticipants frames_groupMetadata
  frames_getUSyncDevices frames_jidsWithoutSession frames_assertSessions
  frames_callPatch frames_loadGroupData frames_loadSenderKeyMap
  frames_groupRecipients : frames.

(** The component [f], framed by the computation that ran in [H]. *)
Ltac framed H := eapply frames_run; [|exact H]; frames_tac.

(** ** [getUSyncDevices] *)

Section USyncFacts.
Context `{WABinary} {W : Type} `{Collaborators W} (config : SocketConfig W).

Lemma explicitDevices_others jids :
  explicitDevices (List.filter (fun j => negb (isPassedThrough j)) jids) = [].
Proof.
  induction jids as [|j l IH]; [reflexivity|].
  cbn [List.filter]. unfold isPassedThrough at 1.
  destruct (classifyJid j) as [d|x] eqn:E; cbn [negb]; [exact IH|].
  unfold explicitDevices in *. simpl. rewrite E. exact IH.
Qed.

Lemma jidsWithUser_others jids :
  jidsWithUser (List.filter (fun j => negb (isPassedThrough j)) jids) = jidsWithUser jids.
Proof.
  induction jids as [|j l IH]; [reflexivity|].
  cbn [List.filter]. unfold isPassedThrough at 1.
  destruct (classifyJid j) as [d|x] eqn:E; cbn [negb];
    unfold jidsWithUser in *; simpl; rewrite E; [exact IH|].
  f_equal. exact IH.
Qed.

Lemma classifyJid_explicit j d n :
  jidDecode j = Some d -> device d = Some n -> 0 <= n -> user d <> "" ->
  classifyJid (Some j) = inl {| d_user := user d; d_device := Some n; d_jid := j |}.
Proof.
  intros Hd Hn Hpos Hu. unfold classifyJid. simpl. rewrite Hd, Hn. simpl.
  assert ((0 <=? n) = true) as -> by lia.
  assert (JS.truthyStr (user d) = true) as ->; [|reflexivity].
  unfold JS.truthyStr. destruct (String.eqb_spec (user d) ""); [contradiction|reflexivity].
Qed.

(** The guard [&& user] of line 303: an input whose user decodes to the empty
    string is looked up and fetched like any other, explicit device or not. *)
Lemma classifyJid_no_user j d :
  jidDecode j = Some d -> user d = "" -> isPassedThrough (Some j) = false.
Proof.
  intros Hd Hu. unfold isPassedThrough, classifyJid. simpl. rewrite Hd, Hu.
  rewrite andb_false_r. reflexivity.
Qed.

Lemma explicitDevices_In j x jids :
  In j jids -> classifyJid j = inl x -> In x (explicitDevices jids).
Proof.
  intros Hin Hc. induction jids as [|k l IH]; [contradiction|].
  unfold explicitDevices in *. simpl.
  destruct Hin as [->|Hin].
  - rewrite Hc. left. reflexivity.
  - destruct (classifyJid k); [right|]; auto.
Qed.

(** The pass-through entries come first and the rest of the run does not
    depend on them. *)
Lemma getUSyncDevices_others jids useCache ignoreZeroDevices (s : Socket W) :
  getUSyncDevices config jids useCache ignoreZeroDevices s
  = (match fst (getUSyncDevices config
                  (List.filter (fun j => negb (isPassedThrough j)) jids)
                  useCache ignoreZeroDevices s) with
     | inr out => inr (explicitDevices jids ++ out)
     | inl e => inl e
     end,
     snd (getUSyncDevices config
            (List.filter (fun j => negb (isPassedThrough j)) jids)
            useCache ignoreZeroDevices s)).
Proof.
  unfold getUSyncDevices.
  rewrite explicitDevices_others, jidsWithUser_others.
  set (rest := jidsWithUser jids).
  set (users := omap _ rest).
  rewrite !bind_gets.
  destruct (splitCached config (userDevicesCache s) useCache users rest) as [cached toFetch].
  destruct toFetch as [|t toFetch]; [reflexivity|].
  destruct (io (executeUSyncQuery (t :: toFetch)) s) as [[e|[list|]] s1] eqn:Eq.
  - rewrite !(bind_fail _ _ _ _ _ Eq). reflexivity.
  - rewrite !(bind_run _ _ _ _ _ Eq). cbv zeta.
    match goal with |- context [mbind _ ?m s1] =>
      destruct (m s1) as [[e|[]] s2] eqn:El end.
    + rewrite !(bind_fail _ _ _ _ _ El). reflexivity.
    + rewrite !(bind_run _ _ _ _ _ El).
      unfold mbind, M_bind, modify.
      cbn [fst snd].
      match goal with |- context [match ?l with [] => mret tt | _ => _ end ?s3] =>
        match goal with |- context [?m s3] => destruct (m s3) as [[e|[]] s4] end end;
        cbn; [reflexivity|rewrite app_assoc; reflexivity].
  - rewrite !(bind_run _ _ _ _ _ Eq). reflexivity.
Qed.

(** C8 (amended). An input JID that decodes to an explicit device number and
    a non-empty user is put in the output as it is, with its user, its
    device number and its JID string, and the run is that of the remaining
    inputs: nothing is looked up in the cache or fetched for it.  (With an
    empty user the guard of line 303 fails and the input is normalised and
    fetched, [classifyJid_no_user].) *)
Theorem getUSyncDevices_explicit_device (jids : list (option string))
  (useCache ignoreZeroDevices : bool) (s : Socket W) (j : string) (d : FullJid) (n : Z) :
  In (Some j) jids ->
  jidDecode j = Some d -> device d = Some n -> 0 <= n -> user d <> "" ->
  let others := List.filter (fun j => negb (isPassedThrough j)) jids in
  let passed := {| d_user := user d; d_device := Some n; d_jid := j |} in
  ~ In (Some j) others
  /\ getUSyncDevices config jids useCache ignoreZeroDevices s
     = (match fst (getUSyncDevices config others useCache ignoreZeroDevices s) with
        | inr out => inr (explicitDevices jids ++ out)
        | inl e => inl e
        end,
        snd (getUSyncDevices config others useCache ignoreZeroDevices s))
  /\ In passed (explicitDevices jids)
  /\ forall out s',
       getUSyncDevices config jids useCache ignoreZeroDevices s = (inr out, s') ->
       In passed out.
Proof.
  intros Hin Hd Hn Hpos Hu others passed.
  pose proof (classifyJid_explicit j d n Hd Hn Hpos Hu) as Hc.
  pose proof (explicitDevices_In _ _ _ Hin Hc) as Hex.
  split; [|split; [|split]].
  - unfold others. intros Hf. apply List.filter_In in Hf as [_ Hf].
    unfold isPassedThrough in Hf. rewrite Hc in Hf. discriminate.
  - apply getUSyncDevices_others.
  - exact Hex.
  - intros out s' Hrun. rewrite getUSyncDevices_others in Hrun.
    destruct (fst (getUSyncDevices config _ useCache ignoreZeroDevices s)) as [e|out'];
      [discriminate|].
    injection Hrun as <- _. apply in_or_app. left. exact Hex.
Qed.

End USyncFacts.

(** ** [createParticipantNodes] *)

Ltac inv_bind H :=
  let a := fresh "a" in
  let s1 := fresh "s" in
  let H1 := fresh "Hrun" in
  apply bind_inr in H as (a & s1 & H1 & H).

Ltac inv_ret H :=
  first [ apply ret_inr in H as [? ?] | apply throw_inr in H; contradiction ].

Section ParticipantNodes.
Context `{WABinary} {W : Type} `{Collaborators W} (config : SocketConfig W).

Lemma frames_sent_encryptPairwise jid data : frames (@sent W) (encryptPairwise jid data).
Proof. unfold encryptPairwise. frames_tac. Qed.

Lemma frames_senderKeyMemory_encryptPairwise jid data :
  frames (@senderKeyMemory W) (encryptPairwise jid data).
Proof. unfold encryptPairwise. frames_tac. Qed.

(** A pairwise encryption that returns is noted; one that throws is not. *)
Lemma encryptPairwise_inr jid data (s s' : Socket W) type ciphertext :
  encryptPairwise jid data s = (inr (type, ciphertext), s') ->
  encrypted s' = encrypted s ++ [(jid, type)].
Proof.
  unfold encryptPairwise. intros Hr. inv_bind Hr. inv_bind Hr. inv_ret Hr. subst.
  unfold modify in Hrun0. injection Hrun0 as _ <-. simpl.
  rewrite (frames_run _ _ _ _ _ (frames_io encrypted _) Hrun). reflexivity.
Qed.

Lemma encryptPairwise_inl jid data (s s' : Socket W) e :
  encryptPairwise jid data s = (inl e, s') -> encrypted s' = encrypted s.
Proof.
  unfold encryptPairwise, mbind, M_bind. intros Hr.
  destruct (io (encryptMessage jid data) s) as [[e'|r] s1] eqn:E.
  - injection Hr as _ <-. exact (frames_run _ _ _ _ _ (frames_io encrypted _) E).
  - discriminate.
Qed.

Hint Resolve frames_sent_encryptPairwise frames_senderKeyMemory_encryptPairwise : frames.

Lemma frames_sent_encryptFor extraAttrs dsm entry :
  frames (@sent W) (encryptFor config extraAttrs dsm entry).
Proof. unfold encryptFor. frames_tac. Qed.

Lemma frames_senderKeyMemory_encryptFor extraAttrs dsm entry :
  frames (@senderKeyMemory W) (encryptFor config extraAttrs dsm entry).
Proof. unfold encryptFor. frames_tac. Qed.

Hint Resolve frames_sent_encryptFor frames_senderKeyMemory_encryptFor
  frames_callPatch : frames.

Lemma frames_sent_createParticipantNodes jids message extraAttrs dsm :
  frames (@sent W) (createParticipantNodes config jids message extraAttrs dsm).
Proof. unfold createParticipantNodes. frames_tac. Qed.

Lemma frames_senderKeyMemory_createParticipantNodes jids message extraAttrs dsm :
  frames (@senderKeyMemory W) (createParticipantNodes config jids message extraAttrs dsm).
Proof. unfold createParticipantNodes. frames_tac. Qed.

(** One task of [createParticipantNodes]: what it notes in [encrypted], the
    flag it raises, and the node it yields. *)
Lemma encryptFor_inr extraAttrs dsm recipientJid message (s s' : Socket W) node flag :
  encryptFor config extraAttrs dsm (recipientJid, message) s = (inr (node, flag), s') ->
  exists l,
    encrypted s' = encrypted s ++ l
    /\ (forall j, In (j, ct_pkmsg) l -> flag = true)
    /\ (forall n, node = Some n ->
        exists j type ciphertext,
          recipientJid = Some j /\ JS.truthyStr j = true
          /\ n = toNode extraAttrs j type ciphertext)
    /\ (compatV6GroupSend config = false ->
        forall j, recipientJid = Some j -> JS.truthyStr j = true -> is_Some node).
Proof.
  unfold encryptFor. intros Hr.
  destruct recipientJid as [jid|].
  2:{ inv_ret Hr. injection H1 as <- <-. subst. exists []. rewrite app_nil_r.
      repeat split; try easy. }
  destruct (JS.truthyStr jid) eqn:Ej; cbn [negb] in Hr.
  2:{ inv_ret Hr. injection H1 as <- <-. subst. exists []. rewrite app_nil_r.
      repeat split; try easy. intros _ j [= <-]. congruence. }
  inv_bind Hr.
  assert (Hs : encrypted s0 = encrypted s).
  { refine (frames_run encrypted _ _ _ _ _ Hrun). frames_tac. }
  unfold tryCatch in Hr.
  destruct ((encryptPairwise jid (encodeWAMessage a) ≫= _) s0) as [[e|r] s2] eqn:Eb.
  - (* the encryption threw *)
    unfold mbind, M_bind in Eb.
    destruct (encryptPairwise jid (encodeWAMessage a) s0) as [[e'|[t c]] s3] eqn:Ee;
      [|discriminate].
    injection Eb as -> ->. apply encryptPairwise_inl in Ee.
    destruct (compatV6GroupSend config) eqn:Ec.
    + inv_bind Hr. inv_ret Hr. injection H1 as <- <-. subst.
      exists []. rewrite app_nil_r. split.
      * rewrite (frames_run encrypted _ _ _ _ (frames_warn _ _) Hrun0). congruence.
      * repeat split; try easy.
    + inv_ret Hr.
  - (* the encryption returned *)
    injection Hr as -> ->.
    inv_bind Eb. destruct a0 as [t c]. inv_ret Eb. injection H1 as <- <-. subst.
    apply encryptPairwise_inr in Hrun0.
    exists [(jid, t)]. split; [congruence|]. split; [|split].
    + intros j [[= _ ->]|[]]. reflexivity.
    + intros n [= <-]. exists jid, t, c. auto.
    + intros _ j _ _. eauto.
Qed.

(** The tasks of [createParticipantNodes], run in turn. *)
Lemma mapM_encryptFor_inr extraAttrs dsm entries (s s' : Socket W) results :
  mapM (encryptFor config extraAttrs dsm) entries s = (inr results, s') ->
  exists l,
    encrypted s' = encrypted s ++ l
    /\ (forall j, In (j, ct_pkmsg) l -> existsb snd results = true)
    /\ (forall n, In n (omap fst results) ->
        exists j m type ciphertext,
          In (Some j, m) entries /\ JS.truthyStr j = true
          /\ n = toNode extraAttrs j type ciphertext)
    /\ (compatV6GroupSend config = false ->
        envelopesFor extraAttrs
          (List.filter JS.truthyStr (omap fst entries)) (omap fst results)).
Proof.
  revert s results. induction entries as [|[rj m] entries IH]; intros s results Hr.
  - simpl in Hr. inv_ret Hr. subst. exists []. rewrite app_nil_r.
    repeat split; try easy. intros _. constructor.
  - simpl in Hr. inv_bind Hr. inv_bind Hr. inv_ret Hr. subst.
    destruct a as [node flag].
    apply encryptFor_inr in Hrun as (l1 & Hl1 & Hp1 & Hn1 & Hs1).
    apply IH in Hrun0 as (l2 & Hl2 & Hp2 & Hn2 & Hs2).
    exists (l1 ++ l2). split; [rewrite Hl2, Hl1; now rewrite app_assoc|].
    split; [|split].
    + intros j Hj. apply in_app_or in Hj as [Hj|Hj]; simpl.
      * rewrite (Hp1 _ Hj). reflexivity.
      * rewrite (Hp2 _ Hj). apply orb_true_r.
    + intros n Hn. simpl in Hn. destruct node as [n'|]; simpl in Hn.
      * destruct Hn as [<-|Hn].
        -- destruct (Hn1 _ eq_refl) as (j & t & c & -> & Hj & ->).
           exists j, m, t, c. simpl. auto.
        -- destruct (Hn2 _ Hn) as (j & m' & t & c & Hin & Hj & ->).
           exists j, m', t, c. simpl. auto.
      * destruct (Hn2 _ Hn) as (j & m' & t & c & Hin & Hj & ->).
        exists j, m', t, c. simpl. auto.
    + intros Hc. specialize (Hs1 Hc). specialize (Hs2 Hc).
      unfold envelopesFor in *. simpl.
      destruct rj as [j|]; simpl.
      * destruct (JS.truthyStr j) eqn:Ej.
        -- destruct (Hs1 j eq_refl Ej) as [n ->]. simpl.
           constructor; [|exact Hs2].
           destruct (Hn1 _ eq_refl) as (j' & t & c & [= <-] & _ & ->). eauto.
        -- destruct node as [n|]; [|exact Hs2].
           destruct (Hn1 _ eq_refl) as (j' & t & c & [= <-] & Hj & _). congruence.
      * destruct node as [n|]; [|exact Hs2].
        destruct (Hn1 _ eq_refl) as (j' & t & c & [=] & _).
Qed.

Lemma createParticipantNodes_inr jids message extraAttrs dsm (s s' : Socket W) nodes flag :
  createParticipantNodes config jids message extraAttrs dsm s = (inr (nodes, flag), s') ->
  exists l,
    encrypted s' = encrypted s ++ l
    /\ (forall j, In (j, ct_pkmsg) l -> flag = true)
    /\ (forall n, In n nodes ->
        exists j type ciphertext, n = toNode (default ∅ extraAttrs) j type ciphertext
                                  /\ JS.truthyStr j = true)
    /\ (patchKeepsRecipients config ->
        forall n, In n nodes ->
        exists j type ciphertext, n = toNode (default ∅ extraAttrs) j type ciphertext
                                  /\ JS.truthyStr j = true /\ In j jids)
    /\ (compatV6GroupSend config = false -> patchesUniformly config ->
        envelopesFor (default ∅ extraAttrs) (List.filter JS.truthyStr jids) nodes).
Proof.
  unfold createParticipantNodes. intros Hr.
  destruct jids as [|j0 jids].
  { inv_ret Hr. injection H1 as <- <-. subst. exists []. rewrite app_nil_r.
    repeat split; try easy. intros _ _. constructor. }
  inv_bind Hr. inv_bind Hr. inv_ret Hr. injection H1 as <- <-. subst.
  pose proof (frames_run encrypted _ _ _ _ (frames_callPatch config _ _ _) Hrun) as He.
  apply mapM_encryptFor_inr in Hrun0 as (l & Hl & Hp & Hn & Hs).
  exists l. split; [congruence|]. split; [exact Hp|]. split; [|split].
  - intros n Hn'. destruct (Hn _ Hn') as (j & m & t & c & _ & Hj & ->). eauto.
  - intros Hk n Hn'. destruct (Hn _ Hn') as (j & m & t & c & Hin & Hj & ->).
    exists j, t, c. split; [reflexivity|]. split; [exact Hj|].
    unfold callPatch in Hrun.
    destruct (patchMessageBeforeSending config) as [patch|] eqn:Ep; [|inv_ret Hrun].
    destruct a as [pm|pl].
    + apply in_map_iff in Hin as (j' & [= <-] & Hin). exact Hin.
    + unfold io, zoom in Hrun.
      destruct (patch message (Some (j0 :: jids)) (world s)) as [r w'] eqn:Ew.
      injection Hrun as -> _.
      exact (Hk _ _ _ _ _ _ Ep Ew _ _ Hin).
  - intros Hc Hu. specialize (Hs Hc).
    unfold callPatch in Hrun.
    destruct (patchMessageBeforeSending config) as [patch|] eqn:Ep; [|inv_ret Hrun].
    unfold io, zoom in Hrun.
    destruct (patch message (Some (j0 :: jids)) (world s)) as [r w'] eqn:Ew.
    injection Hrun as -> _.
    destruct (Hu _ _ _ _ _ _ Ep Ew) as [pm ->].
    assert (Hm : omap fst (List.map (fun jid : string => (Some jid, pm)) (j0 :: jids))
                 = j0 :: jids).
    { generalize (j0 :: jids). intros l0. induction l0 as [|x l0 IHl]; simpl; [reflexivity|].
      f_equal. exact IHl. }
    rewrite Hm in Hs. exact Hs.
Qed.

(** One task for a recipient with a JID, no device-sent copy being given:
    the envelope when [encryptMessage] returns, none when it throws (and
    then the task itself throws in strict mode). *)
Lemma encryptFor_outcome extraAttrs (pm : IMessage) jid (s s' : Socket W) node flag :
  JS.truthyStr jid = true ->
  encryptFor config extraAttrs None (Some jid, pm) s = (inr (node, flag), s') ->
  world s' = snd (encryptMessage jid (encodeWAMessage pm) (world s))
  /\ node = match fst (encryptMessage jid (encodeWAMessage pm) (world s)) with
            | inr (type, ciphertext) => Some (toNode extraAttrs jid type ciphertext)
            | inl _ => None
            end.
Proof.
  intros Ej Hr. unfold encryptFor in Hr. rewrite Ej in Hr. cbn [negb] in Hr.
  unfold mbind at 1, M_bind at 1, mret at 1, M_ret at 1 in Hr.
  unfold tryCatch, encryptPairwise in Hr.
  unfold mbind, M_bind, io, zoom, modify in Hr. cbn [fst snd] in Hr.
  destruct (encryptMessage jid (encodeWAMessage pm) (world s)) as [[e|[t c]] w'] eqn:Ee;
    cbn [fst snd] in *.
  - destruct (compatV6GroupSend config).
    + unfold warn, modify, mret, M_ret in Hr. cbn in Hr. injection Hr as <- _ <-. auto.
    + discriminate.
  - unfold mret, M_ret in Hr. injection Hr as <- _ <-. auto.
Qed.

(** The tasks of [createParticipantNodes] for one message and no
    device-sent copy: the envelopes are those of the recipients whose
    encryption returned. *)
Lemma mapM_encryptFor_uniform extraAttrs (pm : IMessage) jids (s s' : Socket W) results :
  mapM (encryptFor config extraAttrs None) (List.map (fun jid => (Some jid, pm)) jids) s
  = (inr results, s') ->
  (omap fst results, world s')
  = encryptedEnvelopes extraAttrs (encodeWAMessage pm) (List.filter JS.truthyStr jids)
      (world s).
Proof.
  revert s results. induction jids as [|jid jids IH]; intros s results Hr.
  - simpl in Hr. apply ret_inr in Hr as [<- <-]. reflexivity.
  - cbn [List.map mapM] in Hr. inv_bind Hr. inv_bind Hr. apply ret_inr in Hr as [<- <-].
    destruct a as [node flag]. rename Hrun into Hone, Hrun0 into Hrest.
    apply IH in Hrest. cbn [List.filter omap fst].
    destruct (JS.truthyStr jid) eqn:Ej.
    2:{ unfold encryptFor in Hone. rewrite Ej in Hone. cbn [negb] in Hone.
        apply ret_inr in Hone as [Hv <-]. injection Hv as <- <-. exact Hrest. }
    apply encryptFor_outcome in Hone as [Hw ->]; [|exact Ej].
    cbn [encryptedEnvelopes]. rewrite Hw in Hrest.
    destruct (encryptMessage jid (encodeWAMessage pm) (world s)) as [[e|[t c]] w'];
      cbn [fst snd] in *.
    + exact Hrest.
    + rewrite <- Hrest. reflexivity.
Qed.

(** [createParticipantNodes] with a patch callback that answers with one
    message, no device-sent copy being given. *)
Lemma createParticipantNodes_uniform jids message extraAttrs (s s' : Socket W) nodes flag :
  patchesUniformly config ->
  createParticipantNodes config jids message extraAttrs None s = (inr (nodes, flag), s') ->
  exists pm w,
    nodes = fst (encryptedEnvelopes (default ∅ extraAttrs) (encodeWAMessage pm)
                   (List.filter JS.truthyStr jids) w).
Proof.
  intros Hu Hr. unfold createParticipantNodes in Hr.
  destruct jids as [|j0 jids].
  { apply ret_inr in Hr as [Hv _]. injection Hv as <- <-.
    exists message, (world s). reflexivity. }
  inv_bind Hr. rename a into patched, s0 into s1, Hrun into Hpatch.
  inv_bind Hr. apply ret_inr in Hr as [Hv <-]. injection Hv as <- <-.
  unfold callPatch in Hpatch.
  destruct (patchMessageBeforeSending config) as [patch|] eqn:Ep; [|inv_ret Hpatch].
  unfold io, zoom in Hpatch.
  destruct (patch message (Some (j0 :: jids)) (world s)) as [r w'] eqn:Ew.
  injection Hpatch as -> <-.
  destruct (Hu _ _ _ _ _ _ Ep Ew) as [pm ->].
  apply mapM_encryptFor_uniform in Hrun. exists pm, w'.
  apply (f_equal fst) in Hrun. exact Hrun.
Qed.

End ParticipantNodes.

#[global] Hint Resolve frames_sent_encryptPairwise frames_senderKeyMemory_encryptPairwise
  frames_sent_encryptFor frames_senderKeyMemory_encryptFor
  frames_sent_createParticipantNodes frames_senderKeyMemory_createParticipantNodes
  : frames.

(** ** [relayMessage]: the two destination-specific parts *)

Section RelayParts.
Context `{WABinary} {W : Type} `{Collaborators W} (config : SocketConfig W).

Lemma loadSenderKeyMap_inr jid participant isStatus (s s' : Socket W) m :
  loadSenderKeyMap jid participant isStatus s = (inr m, s') ->
  s' = s
  /\ (participant = None ->
      m = if isStatus then ∅ else default ∅ (senderKeyMemory s !! jid)).
Proof.
  unfold loadSenderKeyMap. intros Hr.
  destruct participant as [p|]; [|destruct isStatus].
  - inv_ret Hr. subst. split; [reflexivity|discriminate].
  - inv_ret Hr. subst. auto.
  - unfold gets in Hr. injection Hr as <- <-. auto.
Qed.

(** The envelopes of the sender-key distribution message (lines 889-905). *)
Lemma skdmNodes_inr jids message extraAttrs (s s' : Socket W) nodes identity :
  match jids with
  | [] => mret ([], false)
  | _ => assertSessions config jids;;
         createParticipantNodes config jids message (Some extraAttrs) None
  end s = (inr (nodes, identity), s') ->
  sent s' = sent s
  /\ senderKeyMemory s' = senderKeyMemory s
  /\ exists l,
       encrypted s' = encrypted s ++ l
       /\ (forall j, In (j, ct_pkmsg) l -> identity = true)
       /\ (forall n, In n nodes ->
           exists j type ciphertext, n = toNode extraAttrs j type ciphertext
                                     /\ JS.truthyStr j = true)
       /\ (patchKeepsRecipients config ->
           forall n, In n nodes ->
           exists j type ciphertext, n = toNode extraAttrs j type ciphertext
                                     /\ JS.truthyStr j = true /\ In j jids)
       /\ (compatV6GroupSend config = false -> patchesUniformly config ->
           envelopesFor extraAttrs (List.filter JS.truthyStr jids) nodes).
Proof.
  intros Hr. destruct jids as [|j0 jids].
  - inv_ret Hr. injection H1 as <- <-. subst. repeat split.
    exists []. rewrite app_nil_r. repeat split; try easy. intros _ _. constructor.
  - inv_bind Hr.
    pose proof Hr as Hc. apply createParticipantNodes_inr in Hc as (l & Hl & Hrest).
    split; [|split].
    + transitivity (sent s0); [framed Hr | framed Hrun].
    + transitivity (senderKeyMemory s0); [framed Hr | framed Hrun].
    + exists l. split; [|exact Hrest].
      rewrite Hl. f_equal. framed Hrun.
Qed.

(** With a patch callback that answers with one message, the envelopes are
    those of the recipients for which the encryption returned. *)
Lemma skdmNodes_envelopes jids message extraAttrs (s s' : Socket W) nodes identity :
  patchesUniformly config ->
  match jids with
  | [] => mret ([], false)
  | _ => assertSessions config jids;;
         createParticipantNodes config jids message (Some extraAttrs) None
  end s = (inr (nodes, identity), s') ->
  exists data w,
    nodes = fst (encryptedEnvelopes extraAttrs data (List.filter JS.truthyStr jids) w).
Proof.
  intros Hu Hr. destruct jids as [|j0 jids].
  - apply ret_inr in Hr as [Hv _]. injection Hv as <- _. exists [], (world s). reflexivity.
  - inv_bind Hr.
    apply (createParticipantNodes_uniform config _ _ _ _ _ _ _ Hu) in Hr as (pm & w & ->).
    exists (encodeWAMessage pm), w. reflexivity.
Qed.

Lemma relayToGroup_inr jid message participant isStatus statusJidList
  useUserDevicesCache useCachedGroupMetadata devices0 attrs0 extraAttrs
  (s s' : Socket W) parts :
  relayToGroup config jid message participant isStatus statusJidList
    useUserDevicesCache useCachedGroupMetadata devices0 attrs0 extraAttrs s
  = (inr parts, s') ->
  let retry := match participant with Some p => JS.truthyStr (rp_jid p) | None => false end in
  sent s' = sent s
  /\ (exists l, encrypted s' = encrypted s ++ l
                /\ forall j, In (j, ct_pkmsg) l -> r_identity parts = true)
  /\ (retry = true -> r_identity parts = true)
  /\ (exists enc, r_content parts = [enc] /\ tag enc = "enc"
        /\ if retry
           then exists p type, participant = Some p
                  /\ attrs enc = <["count" := JS.showZ (rp_count p)]>
                                   (<["type" := ctypeName type]> {["v" := "2"]})
           else attrs enc = extraAttrs ∪ <["type" := "skmsg"]> {["v" := "2"]})
  /\ (forall n, In n (r_participants parts) ->
      exists j type ciphertext, n = toNode extraAttrs j type ciphertext
                                /\ JS.truthyStr j = true)
  /\ (participant = None ->
      exists groupData devices attrs1 sa sb,
        groupRecipients config isStatus groupData statusJidList useUserDevicesCache attrs0 sa
        = (inr (devices, attrs1), sb)
        /\ senderKeyMemory s' !! jid
           = Some (markAll (senderKeyJidsOf devices)
                     (if isStatus then ∅ else default ∅ (senderKeyMemory s !! jid)))
        /\ (patchKeepsRecipients config ->
            forall n, In n (r_participants parts) ->
            exists j type ciphertext, n = toNode extraAttrs j type ciphertext
                                      /\ JS.truthyStr j = true
                                      /\ In j (senderKeyJidsOf devices))
        /\ (compatV6GroupSend config = false -> patchesUniformly config ->
            envelopesFor extraAttrs (List.filter JS.truthyStr (senderKeyJidsOf devices))
                         (r_participants parts))
        /\ (patchesUniformly config ->
            exists data w,
              r_participants parts
              = fst (encryptedEnvelopes extraAttrs data
                       (List.filter JS.truthyStr (senderKeyJidsOf devices)) w))).
Proof.
  intros Hr retry. unfold relayToGroup in Hr.
  inv_bind Hr. rename a into groupData, s0 into s1, Hrun into Hload.
  inv_bind Hr. rename a into senderKeyMap, s0 into s2, Hrun into Hmap.
  apply loadSenderKeyMap_inr in Hmap as [-> Hmap].
  inv_bind Hr. destruct a as [devices attrs1]. rename s0 into s3, Hrun into Hdev.
  inv_bind Hr. rename a into patched, s0 into s4, Hrun into Hpatch.
  destruct patched as [patchedMessage|]; [|inv_ret Hr].
  inv_bind Hr. destruct a as [ciphertext skdm]. rename s0 into s5, Hrun into Henc.
  inv_bind Hr. destruct a as [nodes identity]. rename s0 into s6, Hrun into Hnodes.
  pose proof (fun Hu => skdmNodes_envelopes _ _ _ _ _ _ _ Hu Hnodes) as Henv.
  apply skdmNodes_inr in Hnodes as (Hsent6 & Hmem6 & l & Hl & Hpk & Hshape & Hkeep & Hstrict).
  assert (Hsent5 : sent s5 = sent s).
  { transitivity (sent s4); [framed Henc|]. transitivity (sent s3); [framed Hpatch|].
    transitivity (sent s1); [|framed Hload].
    destruct participant; [inv_ret Hdev; congruence | framed Hdev]. }
  assert (Henc5 : encrypted s5 = encrypted s).
  { transitivity (encrypted s4); [framed Henc|]. transitivity (encrypted s3); [framed Hpatch|].
    transitivity (encrypted s1); [|framed Hload].
    destruct participant; [inv_ret Hdev; congruence | framed Hdev]. }
  assert (Hmem1 : senderKeyMemory s1 = senderKeyMemory s) by framed Hload.
  destruct participant as [p|].
  - (* a participant is given *)
    inv_ret Hdev. injection H1 as -> ->. subst s3.
    subst retry. destruct (JS.truthyStr (rp_jid p)) eqn:Ep.
    + (* retry resend: one pairwise ciphertext with its count *)
      inv_bind Hr. destruct a as [type encryptedContent]. inv_ret Hr. subst.
      pose proof (encryptPairwise_inr _ _ _ _ _ _ Hrun) as Hl'.
      split; [|split; [|split; [|split; [|split]]]]; simpl.
      * transitivity (sent s6); [framed Hrun | congruence].
      * exists (l ++ [(rp_jid p, type)]). split; [|reflexivity].
        rewrite Hl', Hl, Henc5. now rewrite app_assoc.
      * reflexivity.
      * eexists. split; [reflexivity|]. split; [reflexivity|]. eauto.
      * exact Hshape.
      * discriminate.
    + (* a participant without a JID: the group ciphertext *)
      inv_bind Hr. inv_ret Hr. subst. unfold modify in Hrun. injection Hrun as _ <-.
      split; [|split; [|split; [|split; [|split]]]]; simpl.
      * congruence.
      * exists l. split; [congruence|]. exact Hpk.
      * discriminate.
      * eexists. split; [reflexivity|]. split; reflexivity.
      * exact Hshape.
      * discriminate.
  - (* a fresh send *)
    inv_bind Hr. inv_ret Hr. subst. unfold modify in Hrun. injection Hrun as _ <-.
    subst retry.
    split; [|split; [|split; [|split; [|split]]]]; simpl.
    + congruence.
    + exists l. split; [congruence|]. exact Hpk.
    + discriminate.
    + eexists. split; [reflexivity|]. split; reflexivity.
    + exact Hshape.
    + intros _. exists groupData, devices, attrs1, s1, s3.
      split; [exact Hdev|]. split; [|split; [|split]].
      * rewrite lookup_insert_eq, (Hmap eq_refl), Hmem1. reflexivity.
      * exact Hkeep.
      * exact Hstrict.
      * exact Henv.
Qed.

Lemma directRecipients_not_sender mePnUser meLidUser devices meRecipients otherRecipients :
  directRecipients config mePnUser meLidUser devices = (meRecipients, otherRecipients) ->
  forall j, In j meRecipients \/ In j otherRecipients ->
            isExactSenderDevice config j = false.
Proof.
  unfold directRecipients. intros [= <- <-] j Hj.
  assert (Hk : exists d, d_jid d = j
                         /\ In d (List.filter (fun d => negb (isExactSenderDevice config (d_jid d)))
                                              devices)).
  { destruct Hj as [Hj|Hj]; apply in_map_iff in Hj as (d & <- & Hd);
      apply List.filter_In in Hd as [Hd _]; eauto. }
  destruct Hk as (d & <- & Hd). apply List.filter_In in Hd as [_ Hd].
  now apply negb_true_iff in Hd.
Qed.

Lemma relayDirect_inr jid destUser isLid message meMsg participant devices0 attrs0
  extraAttrs (s s' : Socket W) parts :
  relayDirect config jid destUser isLid message meMsg participant devices0 attrs0
    extraAttrs s = (inr parts, s') ->
  let retry := match participant with Some p => JS.truthyStr (rp_jid p) | None => false end in
  sent s' = sent s
  /\ (exists l, encrypted s' = encrypted s ++ l
                /\ forall j, In (j, ct_pkmsg) l -> r_identity parts = true)
  /\ (retry = true -> r_identity parts = true)
  /\ r_content parts = []
  /\ r_attrs parts = attrs0
  /\ (forall n, In n (r_participants parts) ->
      exists j type ciphertext, n = toNode extraAttrs j type ciphertext
                                /\ JS.truthyStr j = true)
  /\ (patchKeepsRecipients config ->
      forall n, In n (r_participants parts) ->
      exists j type ciphertext, n = toNode extraAttrs j type ciphertext
                                /\ JS.truthyStr j = true
                                /\ isExactSenderDevice config j = false).
Proof.
  intros Hr retry. unfold relayDirect in Hr.
  destruct (jidDecode (if isLid && JS.truthy (meLid config)
                       then JS.keyOf (meLid config) else meId config)) as [own|];
    [|inv_ret Hr].
  inv_bind Hr. rename a into devices, s0 into s1, Hrun into Hdev.
  destruct (jidDecode (meId config)) as [mePn|]; [|inv_ret Hr].
  inv_bind Hr. rename a into meLidUser, s0 into s2, Hrun into Hlid.
  destruct (directRecipients config (user mePn) meLidUser devices)
    as [meRecipients otherRecipients] eqn:Erec.
  inv_bind Hr. rename s0 into s3, Hrun into Hassert.
  inv_bind Hr. destruct a0 as [meNodes s1']. rename s0 into s4, Hrun into Hme.
  inv_bind Hr. destruct a0 as [otherNodes s2']. rename s0 into s5, Hrun into Hother.
  inv_ret Hr. subst.
  pose proof (directRecipients_not_sender _ _ _ _ _ Erec) as Hnot.
  assert (Hsent3 : sent s3 = sent s).
  { transitivity (sent s2); [framed Hassert|]. transitivity (sent s1).
    - destruct (JS.truthy (meLid config)); [|inv_ret Hlid; congruence].
      destruct (meLid config ≫= jidDecode); inv_ret Hlid; congruence.
    - destruct participant; [inv_ret Hdev; congruence|].
      destruct (negb (bool_decide (attrs0 !! "category" = Some "peer")));
        [framed Hdev | inv_ret Hdev; congruence]. }
  assert (Henc3 : encrypted s3 = encrypted s).
  { transitivity (encrypted s2); [framed Hassert|]. transitivity (encrypted s1).
    - destruct (JS.truthy (meLid config)); [|inv_ret Hlid; congruence].
      destruct (meLid config ≫= jidDecode); inv_ret Hlid; congruence.
    - destruct participant; [inv_ret Hdev; congruence|].
      destruct (negb (bool_decide (attrs0 !! "category" = Some "peer")));
        [framed Hdev | inv_ret Hdev; congruence]. }
  pose proof Hme as Hme'. pose proof Hother as Hother'.
  apply createParticipantNodes_inr in Hme' as (l1 & Hl1 & Hp1 & Hn1 & Hk1 & _).
  apply createParticipantNodes_inr in Hother' as (l2 & Hl2 & Hp2 & Hn2 & Hk2 & _).
  simpl in *.
  split; [|split; [|split; [|split; [|split; [|split]]]]].
  - transitivity (sent s4); [framed Hother|]. transitivity (sent s3); [framed Hme|]. exact Hsent3.
  - exists (l1 ++ l2). split; [rewrite Hl2, Hl1, Henc3; now rewrite app_assoc|].
    intros j Hj. apply in_app_or in Hj as [Hj|Hj].
    + rewrite (Hp1 _ Hj). now rewrite orb_true_r.
    + rewrite (Hp2 _ Hj). now rewrite orb_true_r.
  - subst retry. intros ->. reflexivity.
  - reflexivity.
  - reflexivity.
  - intros n Hn. apply in_app_or in Hn as [Hn|Hn]; auto.
  - intros Hk n Hn. apply in_app_or in Hn as [Hn|Hn].
    + destruct (Hk1 Hk _ Hn) as (j & t & c & -> & Ht & Hj). eauto 10.
    + destruct (Hk2 Hk _ Hn) as (j & t & c & -> & Ht & Hj). eauto 10.
Qed.

End RelayParts.

(** ** [relayMessage] *)

Section Relay.
Context `{WABinary} {W : Type} `{Collaborators W} (config : SocketConfig W).

Lemma destinationJid_eq (jid : string) :
  (if negb (String.eqb jid statusJid) then jid else statusJid) = jid.
Proof. destruct (String.eqb_spec jid statusJid) as [->|]; reflexivity. Qed.

Lemma frames_sendNode_encrypted node : frames (@encrypted W) (sendNode node).
Proof. unfold sendNode. frames_tac. Qed.

Lemma frames_sendNode_senderKeyMemory node : frames (@senderKeyMemory W) (sendNode node).
Proof. unfold sendNode. frames_tac. Qed.

Lemma sendNode_inr node (s s' : Socket W) :
  sendNode node s = (inr tt, s') -> sent s' = sent s ++ [node].
Proof.
  unfold sendNode. intros Hr. inv_bind Hr.
  unfold modify in Hrun. injection Hrun as _ <-.
  rewrite (frames_run sent _ _ _ _ (frames_io _ _) Hr). reflexivity.
Qed.

(** The attributes put on [<enc>] besides [v] and [type] never include
    [type]. *)
Lemma extraAttrs_no_type (message : IMessage) (pin : bool) :
  (if pin
   then <["decrypt-fail" := "hide"]>
          (if JS.truthyStr (getMediaType message)
           then {["mediatype" := getMediaType message]} else ∅ : gmap string string)
   else (if JS.truthyStr (getMediaType message)
         then {["mediatype" := getMediaType message]} else ∅)) !! "type" = None.
Proof.
  destruct pin, (JS.truthyStr (getMediaType message));
    repeat first [rewrite lookup_insert_ne by discriminate
                 |rewrite lookup_singleton_ne by discriminate
                 |rewrite lookup_empty]; reflexivity.
Qed.

(** How a successful [relayMessage] went. *)
Lemma relayMessage_inr jid message opts (s s' : Socket W) msgId :
  relayMessage config jid message opts s = (inr msgId, s') ->
  exists decoded,
    jidDecode jid = Some decoded
    /\ if String.eqb (server decoded) "newsletter"
       then encrypted s' = encrypted s
            /\ exists a bytes,
                 sent s' = sent s
                           ++ [Node "message" a (Children [Node "plaintext" ∅ (Binary bytes)])]
       else exists parts devices0 attrs1 extraAttrs useCache useGroupCache meMsg s1 s2,
              extraAttrs !! "type" = None
              /\ sent s1 = sent s /\ encrypted s1 = encrypted s
              /\ senderKeyMemory s1 = senderKeyMemory s
              /\ (if String.eqb (server decoded) "g.us" || String.eqb jid statusJid
                  then relayToGroup config jid message (participant opts)
                         (String.eqb jid statusJid) (statusJidList opts)
                         useCache useGroupCache devices0 attrs1 extraAttrs
                  else relayDirect config jid (user decoded)
                         (String.eqb (server decoded) "lid") message meMsg
                         (participant opts) devices0 attrs1 extraAttrs) s1
                 = (inr parts, s2)
              /\ sent s' = sent s2 ++ [assembleStanza config msgId jid message
                                         (participant opts) (additionalNodes opts) parts]
              /\ encrypted s' = encrypted s2
              /\ senderKeyMemory s' = senderKeyMemory s2
              /\ (participant opts = None -> attrs1 = default ∅ (additionalAttributes opts)).
Proof.
  unfold relayMessage. intros Hr.
  destruct (jidDecode jid) as [decoded|]; [|inv_ret Hr].
  exists decoded. split; [reflexivity|].
  inv_bind Hr. rename a into msgId', s0 into s1, Hrun into Hid.
  inv_bind Hr. destruct a as [devices0 attrs1]. rename s0 into s2, Hrun into Hdev.
  rewrite !destinationJid_eq in Hr.
  assert (Hs1 : sent s1 = sent s /\ encrypted s1 = encrypted s
                /\ senderKeyMemory s1 = senderKeyMemory s).
  { destruct (JS.truthy (messageId opts)); [inv_ret Hid; subst; auto|].
    repeat split; framed Hid. }
  assert (Hs2 : s2 = s1 /\ (participant opts = None -> attrs1 = default ∅ (additionalAttributes opts))).
  { destruct (participant opts) as [p|].
    - destruct (jidDecode (rp_jid p)); inv_ret Hdev. split; [congruence|discriminate].
    - inv_ret Hdev. injection H1 as <- <-. split; [congruence|reflexivity]. }
  destruct Hs1 as (Hsent1 & Henc1 & Hmem1). destruct Hs2 as [-> Hattrs].
  destruct (String.eqb (server decoded) "newsletter").
  - (* newsletter *)
    inv_bind Hr. rename s0 into s3, Hrun into Hpatch.
    inv_bind Hr. destruct a0. inv_ret Hr. subst.
    assert (Hs3 : sent s3 = sent s1 /\ encrypted s3 = encrypted s1).
    { destruct (patchMessageBeforeSending config); [split; framed Hpatch|].
      inv_ret Hpatch. subst. auto. }
    destruct Hs3 as [Hsent3 Henc3]. split.
    + transitivity (encrypted s3); [|congruence].
      exact (frames_run _ _ _ _ _ (frames_sendNode_encrypted _) Hrun).
    + do 2 eexists. rewrite (sendNode_inr _ _ _ Hrun), Hsent3, Hsent1. reflexivity.
  - inv_bind Hr. rename a into parts, s0 into s3, Hrun into Hparts.
    inv_bind Hr. destruct a. rename s0 into s4, Hrun into Hsend.
    inv_bind Hr. inv_ret Hr. subst.
    assert (Hs5 : sent s' = sent s4 /\ encrypted s' = encrypted s4
                  /\ senderKeyMemory s' = senderKeyMemory s4).
    { destruct (enableRecentMessageCache config
                && negb (bool_decide (is_Some (participant opts)))).
      - unfold modify in Hrun. injection Hrun as _ <-. auto.
      - inv_ret Hrun. subst. auto. }
    destruct Hs5 as (Hsent5 & Henc5 & Hmem5).
    do 9 eexists. split; [apply extraAttrs_no_type|].
    split; [exact Hsent1|]. split; [exact Henc1|]. split; [exact Hmem1|].
    split; [exact Hparts|]. split; [|split; [|split]].
    + rewrite Hsent5. exact (sendNode_inr _ _ _ Hsend).
    + rewrite Henc5. exact (frames_run _ _ _ _ _ (frames_sendNode_encrypted _) Hsend).
    + rewrite Hmem5. exact (frames_run _ _ _ _ _ (frames_sendNode_senderKeyMemory _) Hsend).
    + exact Hattrs.
Qed.

End Relay.

Section RelayClaims.
Context `{WABinary} {W : Type} `{Collaborators W} (config : SocketConfig W).

Lemma countSkmsg_app l1 l2 : countSkmsg (l1 ++ l2) = (countSkmsg l1 + countSkmsg l2)%nat.
Proof. unfold countSkmsg. now rewrite List.filter_app, length_app. Qed.

Lemma toNode_enc_type extraAttrs j type ciphertext :
  extraAttrs !! "type" = None ->
  exists enc, childNodes (toNode extraAttrs j type ciphertext) = [enc]
              /\ isEncOfType "skmsg" enc = false.
Proof.
  intros He. eexists. split; [reflexivity|].
  unfold isEncOfType. simpl. apply bool_decide_eq_false.
  rewrite lookup_union_r by exact He.
  rewrite lookup_insert_eq. destruct type; discriminate.
Qed.

(** The children a stanza gets besides [binaryNodeContent] and the caller's
    [additionalNodes]: the participants (wrapped, or the first envelope's
    [<enc>] for a peer message), the device identity, the business node. *)
Lemma assembleStanza_children msgId jid message participant additionalNodes parts :
  exists wrapped biz,
    childNodes (assembleStanza config msgId jid message participant additionalNodes parts)
    = r_content parts ++ wrapped
      ++ (if r_identity parts
          then [Node "device-identity" ∅ (Binary encodeSignedDeviceIdentity)] else [])
      ++ biz ++ default [] additionalNodes
    /\ Forall (fun n => tag n = "biz") biz
    /\ (wrapped = []
        \/ (exists first rest peer, r_participants parts = first :: rest
                                    /\ head (childNodes first) = Some peer
                                    /\ wrapped = [peer])
        \/ (r_participants parts <> []
            /\ wrapped = [Node "participants" ∅ (Children (r_participants parts))])).
Proof.
  unfold assembleStanza. cbn [childNodes content].
  eexists _, _. split; [reflexivity|]. split.
  - destruct (getButtonType message); repeat constructor.
  - destruct (r_participants parts) as [|first rest]; [auto|].
    destruct (bool_decide (r_attrs parts !! "category" = Some "peer")).
    + destruct (childNodes first) as [|peer ?] eqn:Ec; [auto|].
      right. left. exists first, rest, peer. rewrite Ec. auto.
    + right. right. split; [discriminate|reflexivity].
Qed.

Lemma countSkmsg_tagged t l :
  t <> "enc" -> Forall (fun n => tag n = t) l -> countSkmsg l = 0%nat.
Proof.
  intros Ht Hl. unfold countSkmsg. induction Hl as [|n l Hn _ IH]; [reflexivity|].
  simpl. unfold isEncOfType at 1. rewrite Hn.
  destruct (String.eqb_spec t "enc"); [contradiction|]. exact IH.
Qed.

Lemma isGroupOrStatus_decoded jid decoded :
  jidDecode jid = Some decoded ->
  isGroupOrStatus jid = String.eqb (server decoded) "g.us" || String.eqb jid statusJid.
Proof.
  intros Hd. unfold isGroupOrStatus, serverOf. rewrite Hd. simpl. f_equal.
  destruct (String.eqb_spec (server decoded) "g.us") as [->|Hn].
  - now apply bool_decide_eq_true.
  - apply bool_decide_eq_false. congruence.
Qed.

Lemma isNewsletter_decoded jid decoded :
  jidDecode jid = Some decoded ->
  isNewsletter jid = String.eqb (server decoded) "newsletter".
Proof.
  intros Hd. unfold isNewsletter, serverOf. rewrite Hd. simpl.
  destruct (String.eqb_spec (server decoded) "newsletter") as [->|Hn].
  - now apply bool_decide_eq_true.
  - apply bool_decide_eq_false. congruence.
Qed.

(** C2 (amended). A successful relay to a newsletter has no
    [<enc type=skmsg>] child.  For any other destination, [relayMessage]
    itself puts exactly one when the destination is a group or the status
    feed and the call is not a retry resend, and none otherwise; the caller's
    [additionalNodes] follow unchanged. *)
Theorem relayMessage_skmsg_count (jid : string) (message : IMessage)
  (opts : MessageRelayOptions) (s s' : Socket W) (msgId : string) :
  relayMessage config jid message opts s = (inr msgId, s') ->
  exists stanza,
    sent s' = sent s ++ [stanza]
    /\ countSkmsg (childNodes stanza)
       = if isNewsletter jid then 0%nat
         else ((if isGroupOrStatus jid && negb (isRetryResend opts) then 1 else 0)
               + countSkmsg (default [] (additionalNodes opts)))%nat.
Proof.
  intros Hr. apply relayMessage_inr in Hr as (decoded & Hd & Hr).
  rewrite (isNewsletter_decoded _ _ Hd), (isGroupOrStatus_decoded _ _ Hd).
  destruct (String.eqb (server decoded) "newsletter").
  - destruct Hr as (_ & a & bytes & Hsent). eexists. split; [exact Hsent|reflexivity].
  - destruct Hr as (parts & devices0 & attrs1 & extraAttrs & uc & gc & meMsg & s1 & s2
                    & Hty & Hsent1 & _ & _ & Hparts & Hsent & _).
    assert (Hshape : forall n, In n (r_participants parts) ->
                     exists j t c, n = toNode extraAttrs j t c).
    { destruct (String.eqb (server decoded) "g.us" || String.eqb jid statusJid).
      - apply relayToGroup_inr in Hparts as (_ & _ & _ & _ & Hs & _).
        intros n Hn. destruct (Hs n Hn) as (j & t & c & -> & _). eauto.
      - apply relayDirect_inr in Hparts as (_ & _ & _ & _ & _ & Hs & _).
        intros n Hn. destruct (Hs n Hn) as (j & t & c & -> & _). eauto. }
    assert (Hcontent : countSkmsg (r_content parts)
                       = if (String.eqb (server decoded) "g.us" || String.eqb jid statusJid)
                            && negb (isRetryResend opts) then 1%nat else 0%nat).
    { destruct (String.eqb (server decoded) "g.us" || String.eqb jid statusJid).
      - apply relayToGroup_inr in Hparts as (_ & _ & _ & (enc & -> & Htag & Hattrs) & _).
        unfold isRetryResend. unfold countSkmsg, isEncOfType. simpl. rewrite Htag. simpl.
        destruct (match participant opts with
                  | Some p => JS.truthyStr (rp_jid p) | None => false end).
        + destruct Hattrs as (p & t & _ & ->).
          rewrite bool_decide_eq_false_2; [reflexivity|].
          rewrite lookup_insert_ne by discriminate. rewrite lookup_insert_eq.
          destruct t; discriminate.
        + rewrite Hattrs, bool_decide_eq_true_2; [reflexivity|].
          rewrite lookup_union_r by exact Hty. apply lookup_insert_eq.
      - apply relayDirect_inr in Hparts as (_ & _ & _ & -> & _). reflexivity. }
    eexists. split; [rewrite Hsent; f_equal|].
    { transitivity (sent s1); [|exact Hsent1].
      destruct (String.eqb (server decoded) "g.us" || String.eqb jid statusJid).
      - now apply relayToGroup_inr in Hparts as (-> & _).
      - now apply relayDirect_inr in Hparts as (-> & _). }
    destruct (assembleStanza_children msgId jid message (participant opts)
                (additionalNodes opts) parts) as (wrapped & biz & -> & Hbiz & Hw).
    rewrite !countSkmsg_app, Hcontent.
    rewrite (countSkmsg_tagged "biz" biz) by (discriminate || exact Hbiz).
    assert (Hid : countSkmsg (if r_identity parts
                              then [Node "device-identity" ∅ (Binary encodeSignedDeviceIdentity)]
                              else []) = 0%nat) by (destruct (r_identity parts); reflexivity).
    assert (Hwr : countSkmsg wrapped = 0%nat).
    { destruct Hw as [->|[(first & rest & peer & Hp & Hpeer & ->)|[_ ->]]];
        [reflexivity| |reflexivity].
      destruct (Hshape first) as (j & t & c & ->); [rewrite Hp; now left|].
      destruct (toNode_enc_type extraAttrs j t c Hty) as (enc & Hc & He).
      rewrite Hc in Hpeer. injection Hpeer as <-.
      unfold countSkmsg. simpl. now rewrite He. }
    rewrite Hid, Hwr. lia.
Qed.

Lemma performed_app (s s' : Socket W) l :
  encrypted s' = encrypted s ++ l -> performed s s' = l.
Proof. unfold performed. intros ->. apply drop_app_length. Qed.

(** C3. If a pairwise encryption performed during a [relayMessage] call
    returned a [pkmsg], the stanza that was sent has a [device-identity]
    child. *)
Theorem relayMessage_pkmsg_device_identity (jid : string) (message : IMessage)
  (opts : MessageRelayOptions) (s s' : Socket W) (msgId j : string) :
  relayMessage config jid message opts s = (inr msgId, s') ->
  In (j, ct_pkmsg) (performed s s') ->
  exists stanza,
    sent s' = sent s ++ [stanza] /\ hasDeviceIdentity stanza = true.
Proof.
  intros Hr Hpk. apply relayMessage_inr in Hr as (decoded & Hd & Hr).
  destruct (String.eqb (server decoded) "newsletter").
  - destruct Hr as (Henc & _).
    rewrite (performed_app s s' []) in Hpk by (now rewrite app_nil_r). contradiction.
  - destruct Hr as (parts & devices0 & attrs1 & extraAttrs & uc & gc & meMsg & s1 & s2
                    & Hty & Hsent1 & Henc1 & _ & Hparts & Hsent & Henc & _).
    assert (Hfacts : sent s2 = sent s1
                     /\ exists l, encrypted s2 = encrypted s1 ++ l
                                  /\ forall j, In (j, ct_pkmsg) l -> r_identity parts = true).
    { destruct (String.eqb (server decoded) "g.us" || String.eqb jid statusJid).
      - apply relayToGroup_inr in Hparts as (? & ? & _). auto.
      - apply relayDirect_inr in Hparts as (? & ? & _). auto. }
    destruct Hfacts as (Hsent2 & l & Hl & Hid).
    rewrite (performed_app s s' l) in Hpk by congruence.
    eexists. split; [rewrite Hsent, Hsent2, Hsent1; reflexivity|].
    unfold hasDeviceIdentity.
    destruct (assembleStanza_children msgId jid message (participant opts)
                (additionalNodes opts) parts) as (wrapped & biz & -> & _).
    rewrite (Hid _ Hpk). rewrite !existsb_app. simpl.
    rewrite !orb_true_r. reflexivity.
Qed.

Lemma toJids_app l1 l2 : toJids (l1 ++ l2) = toJids l1 ++ toJids l2.
Proof. unfold toJids. apply omap_app. Qed.

Lemma in_envelopeJids_app j l1 l2 :
  In j (envelopeJids (l1 ++ l2)) -> In j (envelopeJids l1) \/ In j (envelopeJids l2).
Proof.
  unfold envelopeJids.
  rewrite toJids_app, List.filter_app, List.map_app, List.concat_app, toJids_app.
  intros Hj. repeat (apply in_app_or in Hj as [Hj|Hj]);
    [left|right|left|right]; apply in_or_app; auto.
Qed.

Lemma toJids_tagged t l :
  t <> "to" -> Forall (fun n => tag n = t) l -> toJids l = [].
Proof.
  intros Ht Hl. unfold toJids. induction Hl as [|n l Hn _ IH]; [reflexivity|].
  simpl. unfold hasTag at 1. rewrite Hn.
  destruct (String.eqb_spec t "to"); [contradiction|]. exact IH.
Qed.

Lemma filter_hasTag_tagged t u l :
  t <> u -> Forall (fun n => tag n = t) l -> List.filter (hasTag u) l = [].
Proof.
  intros Ht Hl. induction Hl as [|n l Hn _ IH]; [reflexivity|].
  simpl. unfold hasTag at 1. rewrite Hn.
  destruct (String.eqb_spec t u); [contradiction|]. exact IH.
Qed.

Lemma envelopeJids_tagged t l :
  t <> "to" -> t <> "participants" -> Forall (fun n => tag n = t) l -> envelopeJids l = [].
Proof.
  intros H1 H2 Hl. unfold envelopeJids.
  rewrite (toJids_tagged t l H1 Hl), (filter_hasTag_tagged t "participants" l H2 Hl).
  reflexivity.
Qed.

Lemma in_toJids_envelopes extraAttrs (P : string -> Prop) nodes :
  (forall n, In n nodes ->
     exists j type ciphertext, n = toNode extraAttrs j type ciphertext /\ P j) ->
  forall j, In j (toJids nodes) -> P j.
Proof.
  intros Hn j Hj. unfold toJids in Hj.
  induction nodes as [|n nodes IH]; [contradiction|].
  destruct (Hn n (or_introl eq_refl)) as (j' & t & c & -> & Hp).
  simpl in Hj. rewrite lookup_singleton_eq in Hj. simpl in Hj.
  destruct Hj as [<-|Hj]; [exact Hp|].
  apply IH; [|exact Hj]. intros n' Hn'. apply Hn. now right.
Qed.

(** C4 (amended). In a 1:1 relay, with a patch callback that names only
    recipients it was given, no [<to>] node that [relayMessage] builds is
    addressed to the sender's own device, [meId] or [meLid]; the caller's
    [additionalNodes] follow unchanged. *)
Theorem relayMessage_direct_skips_sender (jid : string) (message : IMessage)
  (opts : MessageRelayOptions) (s s' : Socket W) (msgId : string) :
  patchKeepsRecipients config ->
  isGroupOrStatus jid = false -> isNewsletter jid = false ->
  relayMessage config jid message opts s = (inr msgId, s') ->
  exists stanza built,
    sent s' = sent s ++ [stanza]
    /\ childNodes stanza = built ++ default [] (additionalNodes opts)
    /\ forall j, In j (envelopeJids built) -> j <> meId config /\ Some j <> meLid config.
Proof.
  intros Hkeep Hg Hn Hr. apply relayMessage_inr in Hr as (decoded & Hd & Hr).
  rewrite (isNewsletter_decoded _ _ Hd) in Hn.
  rewrite (isGroupOrStatus_decoded _ _ Hd) in Hg. rewrite Hn, Hg in Hr.
  destruct Hr as (parts & devices0 & attrs1 & extraAttrs & uc & gc & meMsg & s1 & s2
                  & Hty & Hsent1 & _ & _ & Hparts & Hsent & _).
  apply relayDirect_inr in Hparts as (Hsent2 & _ & _ & Hcontent & _ & _ & Hnodes).
  specialize (Hnodes Hkeep).
  destruct (assembleStanza_children msgId jid message (participant opts)
              (additionalNodes opts) parts) as (wrapped & biz & Hch & Hbiz & Hw).
  rewrite Hcontent in Hch. simpl in Hch.
  eexists _, (wrapped
              ++ (if r_identity parts
                  then [Node "device-identity" ∅ (Binary encodeSignedDeviceIdentity)]
                  else [])
              ++ biz).
  split; [rewrite Hsent, Hsent2, Hsent1; reflexivity|].
  split; [rewrite Hch, <- !app_assoc; reflexivity|].
  assert (Hok : forall j, JS.truthyStr j = true /\ isExactSenderDevice config j = false ->
                          j <> meId config /\ Some j <> meLid config).
  { intros j [Ht He]. unfold isExactSenderDevice in He.
    apply orb_false_elim in He as [He1 He2]. split.
    - intros ->. now rewrite String.eqb_refl in He1.
    - intros Hm. rewrite <- Hm in He2. simpl in He2. rewrite Ht in He2.
      unfold JS.seq in He2. now rewrite bool_decide_eq_true_2 in He2. }
  intros j Hj.
  apply in_envelopeJids_app in Hj as [Hj|Hj];
    [|apply in_envelopeJids_app in Hj as [Hj|Hj]].
  - destruct Hw as [->|[(first & rest & peer & Hp & Hpeer & ->)|[_ ->]]].
    + contradiction.
    + destruct (Hnodes first) as (j' & t & c & -> & _); [rewrite Hp; now left|].
      simpl in Hpeer. injection Hpeer as <-. contradiction.
    + unfold envelopeJids in Hj. simpl in Hj. rewrite app_nil_r in Hj.
      apply Hok. revert j Hj.
      apply (in_toJids_envelopes extraAttrs). intros n Hn'.
      destruct (Hnodes n Hn') as (j' & t & c & -> & ? & ?). eauto 10.
  - destruct (r_identity parts); contradiction.
  - rewrite (envelopeJids_tagged "biz" biz) in Hj by (discriminate || exact Hbiz).
    contradiction.
Qed.


Lemma markAll_marks jids (m : gmap string bool) k :
  In k jids \/ m !! k = Some true -> markAll jids m !! k = Some true.
Proof.
  unfold markAll. revert m. induction jids as [|j jids IH]; intros m Hk; simpl.
  - destruct Hk as [[]|Hk]. exact Hk.
  - apply IH. destruct Hk as [[->|Hk]|Hk]; [right; apply lookup_insert_eq|now left|].
    right. destruct (decide (j = k)) as [->|Hne];
      [apply lookup_insert_eq|now rewrite lookup_insert_ne].
Qed.


End RelayClaims.
(** * Further properties *)

(** ** More about [M] and the conventions *)

Lemma bind_bind {S A B C} (m : M S A) (f : A -> M S B) (g : B -> M S C) s :
  ((m ≫= f) ≫= g) s = (m ≫= (fun a => f a ≫= g)) s.
Proof. unfold mbind, M_bind. destruct (m s) as [[e|a] s1]; reflexivity. Qed.

Lemma truthyStr_ne (x : string) : x <> "" -> JS.truthyStr x = true.
Proof. intros Hx. unfold JS.truthyStr. now apply negb_true_iff, String.eqb_neq. Qed.

(** ** [LIDMappingStore]: lookups and stores *)

Section LIDMappingLookups.
Context `{WABinary}.

Lemma lidUserOf_cacheSet_lid c k w l u p :
  lidUserOf {| mappingCache := <["lid:" +:+ l := u]> c;
               lidMappingKeys := k; lidWarnings := w |} p
  = lidUserOf {| mappingCache := c; lidMappingKeys := k; lidWarnings := w |} p.
Proof.
  unfold lidUserOf, tieredLookup. simpl.
  rewrite lookup_insert_ne by apply cache_keys_differ. reflexivity.
Qed.

Lemma pnUserOf_cacheSet_pn c k w l u p :
  pnUserOf {| mappingCache := <["pn:" +:+ u := l]> c;
              lidMappingKeys := k; lidWarnings := w |} p
  = pnUserOf {| mappingCache := c; lidMappingKeys := k; lidWarnings := w |} p.
Proof.
  unfold pnUserOf, tieredLookup. simpl.
  rewrite lookup_insert_ne by (intros E; symmetry in E; revert E; apply cache_keys_differ).
  reflexivity.
Qed.

(** Copying a key-store hit into the cache does not change what the
    two-tier lookup answers. *)
Lemma lidUserOf_cached c k w u l p :
  JS.truthy (c !! ("pn:" +:+ u)) = false ->
  k !! u = Some l -> JS.truthyStr l = true ->
  lidUserOf {| mappingCache := <["pn:" +:+ u := l]> c;
               lidMappingKeys := k; lidWarnings := w |} p
  = lidUserOf {| mappingCache := c; lidMappingKeys := k; lidWarnings := w |} p.
Proof.
  intros Hc Hs Ht. unfold lidUserOf, tieredLookup. simpl.
  destruct (decide (p = u)) as [->|Hne].
  - rewrite lookup_insert_eq, Hc, Hs. simpl. rewrite Ht. reflexivity.
  - rewrite lookup_insert_ne by (intros E; apply (inj (String.append _)) in E; congruence).
    reflexivity.
Qed.

Lemma pnUserOf_cached c k w l u p :
  JS.truthy (c !! ("lid:" +:+ l)) = false ->
  k !! (l +:+ "_reverse") = Some u -> JS.truthyStr u = true ->
  pnUserOf {| mappingCache := <["lid:" +:+ l := u]> c;
              lidMappingKeys := k; lidWarnings := w |} p
  = pnUserOf {| mappingCache := c; lidMappingKeys := k; lidWarnings := w |} p.
Proof.
  intros Hc Hs Ht. unfold pnUserOf, tieredLookup. simpl.
  destruct (decide (p = l)) as [->|Hne].
  - rewrite lookup_insert_eq, Hc, Hs. simpl. rewrite Ht. reflexivity.
  - rewrite lookup_insert_ne by (intros E; apply (inj (String.append _)) in E; congruence).
    reflexivity.
Qed.

Lemma store_eta st :
  {| mappingCache := mappingCache st; lidMappingKeys := lidMappingKeys st;
     lidWarnings := lidWarnings st |} = st.
Proof. destruct st; reflexivity. Qed.

(** The run of [getLIDForPN], the key store answering its read. *)
Lemma getLIDForPN_run (pn : string) (st : LIDMappingStore) :
  exists st',
    getLIDForPN pn st
    = (inr (if isPnUser pn
            then match jidDecode pn with
                 | Some d => (fun l => l +:+ "@lid") <$> lidUserOf st (user d)
                 | None => None
                 end
            else None), st')
    /\ lidMappingKeys st' = lidMappingKeys st
    /\ lidWarnings st' = lidWarnings st
    /\ forall p, lidUserOf st' p = lidUserOf st p.
Proof.
  unfold getLIDForPN. destruct (isPnUser pn); cbn [negb].
  2:{ exists st. auto. }
  destruct (jidDecode pn) as [d|].
  2:{ exists st. auto. }
  unfold lidUserOf at 1. unfold tieredLookup.
  unfold mbind, M_bind, cacheGet, keysGet, gets.
  destruct (JS.truthy (mappingCache st !! ("pn:" +:+ user d))) eqn:Ec.
  - destruct (mappingCache st !! ("pn:" +:+ user d)) as [c|]; [|discriminate].
    simpl in Ec. cbn. rewrite Ec. cbn. exists st. auto.
  - destruct (lidMappingKeys st !! user d) as [l|] eqn:Es; cbn [JS.truthy].
    + destruct (JS.truthyStr l) eqn:Et.
      * cbn. rewrite Et. cbn. eexists. split; [reflexivity|]. simpl.
        split; [reflexivity|]. split; [reflexivity|]. intros p.
        rewrite lidUserOf_cacheSet_lid, lidUserOf_cached by assumption.
        now rewrite store_eta.
      * cbn. exists st. auto.
    + cbn. exists st. auto.
Qed.

(** X1. When [getLIDForPN] returns, it has not written the key store and has
    not logged a warning.  Its answer is the user-level LID JID of the LID
    user that the cache, or failing that the key store, holds for the PN user
    decoded from its argument, and null when the argument is not a PN user
    or does not decode.  What a later [getLIDForPN] finds for any PN user is
    as before.  (A call in which the read of the key store at line 93 is
    rejected does not return, and nothing is said about it.) *)
Theorem getLIDForPN_lookup (pn : string) (st st' : LIDMappingStore) (r : option string) :
  getLIDForPN pn st = (inr r, st') ->
  r = (if isPnUser pn
       then match jidDecode pn with
            | Some d => (fun l => l +:+ "@lid") <$> lidUserOf st (user d)
            | None => None
            end
       else None)
  /\ lidMappingKeys st' = lidMappingKeys st
  /\ lidWarnings st' = lidWarnings st
  /\ forall p, lidUserOf st' p = lidUserOf st p.
Proof.
  intros Hrun. destruct (getLIDForPN_run pn st) as (st'' & Hrun' & Hrest).
  rewrite Hrun in Hrun'. injection Hrun' as -> <-. auto.
Qed.

(** The run of [getPNForLID], the key store answering its read. *)
Lemma getPNForLID_run (lid : string) (st : LIDMappingStore) :
  exists st',
    getPNForLID lid st
    = (inr (if isLidUser lid
            then match jidDecode lid with
                 | Some d => (fun p => p +:+ "@s.whatsapp.net") <$> pnUserOf st (user d)
                 | None => None
                 end
            else None), st')
    /\ lidMappingKeys st' = lidMappingKeys st
    /\ lidWarnings st' = lidWarnings st
    /\ (forall p, lidUserOf st' p = lidUserOf st p)
    /\ (forall l, pnUserOf st' l = pnUserOf st l).
Proof.
  unfold getPNForLID. destruct (isLidUser lid); cbn [negb].
  2:{ exists st. auto. }
  destruct (jidDecode lid) as [d|].
  2:{ exists st. auto. }
  unfold pnUserOf at 1. unfold tieredLookup.
  unfold mbind, M_bind, cacheGet, keysGet, gets.
  destruct (JS.truthy (mappingCache st !! ("lid:" +:+ user d))) eqn:Ec.
  - destruct (mappingCache st !! ("lid:" +:+ user d)) as [c|]; [|discriminate].
    cbn. exists st. auto.
  - destruct (lidMappingKeys st !! (user d +:+ "_reverse")) as [u|] eqn:Es; cbn [JS.truthy].
    + destruct (JS.truthyStr u) eqn:Et.
      * cbn. eexists. split; [reflexivity|]. simpl.
        split; [reflexivity|]. split; [reflexivity|]. split; intros p.
        -- rewrite lidUserOf_cacheSet_lid. now rewrite store_eta.
        -- rewrite pnUserOf_cached by assumption. now rewrite store_eta.
      * cbn. exists st. auto.
    + cbn. exists st. auto.
Qed.

(** X2. When [getPNForLID] returns, it has not written the key store and has
    not logged a warning.  Its answer is the PN JID of the PN user that the
    cache, or failing that the key store (under the [_reverse] key), holds
    for the LID user decoded from its argument, and null when the argument is
    not a LID user or does not decode.  Both directions of the two-tier
    lookup are as before for every user.  (A call in which the read of the
    key store at line 134 is rejected does not return, and nothing is said
    about it.) *)
Theorem getPNForLID_lookup (lid : string) (st st' : LIDMappingStore) (r : option string) :
  getPNForLID lid st = (inr r, st') ->
  r = (if isLidUser lid
       then match jidDecode lid with
            | Some d => (fun p => p +:+ "@s.whatsapp.net") <$> pnUserOf st (user d)
            | None => None
            end
       else None)
  /\ lidMappingKeys st' = lidMappingKeys st
  /\ lidWarnings st' = lidWarnings st
  /\ (forall p, lidUserOf st' p = lidUserOf st p)
  /\ (forall l, pnUserOf st' l = pnUserOf st l).
Proof.
  intros Hrun. destruct (getPNForLID_run lid st) as (st'' & Hrun' & Hrest).
  rewrite Hrun in Hrun'. injection Hrun' as -> <-. auto.
Qed.

End LIDMappingLookups.

Section LIDMappingStores.
Context `{WABinary}.

(** A lookup that finds the LID user of a PN JID. *)
Lemma getLIDForPN_hit (pn : string) (d : FullJid) (l : string) (st : LIDMappingStore) :
  isPnUser pn = true -> jidDecode pn = Some d -> lidUserOf st (user d) = Some l ->
  exists st', getLIDForPN pn st = (inr (Some (l +:+ "@lid")), st').
Proof.
  intros Hp Hd Hl. unfold getLIDForPN. rewrite Hp, Hd. cbn [negb].
  unfold lidUserOf, tieredLookup in Hl.
  unfold mbind, M_bind, cacheGet, keysGet, gets.
  destruct (JS.truthy (mappingCache st !! ("pn:" +:+ user d))) eqn:Ec.
  - rewrite Hl in Ec |- *. cbn. cbn in Ec. rewrite Ec. cbn. eauto.
  - destruct (JS.truthy (lidMappingKeys st !! user d)) eqn:Es; [|discriminate].
    rewrite Hl in Es |- *. cbn. cbn in Es. rewrite Es. cbn. rewrite Es. cbn. eauto.
Qed.

Lemma getPNForLID_hit (lid : string) (d : FullJid) (p : string) (st : LIDMappingStore) :
  isLidUser lid = true -> jidDecode lid = Some d -> pnUserOf st (user d) = Some p ->
  exists st', getPNForLID lid st = (inr (Some (p +:+ "@s.whatsapp.net")), st').
Proof.
  intros Hp Hd Hl. unfold getPNForLID. rewrite Hp, Hd. cbn [negb].
  unfold pnUserOf, tieredLookup in Hl.
  unfold mbind, M_bind, cacheGet, keysGet, gets.
  destruct (JS.truthy (mappingCache st !! ("lid:" +:+ user d))) eqn:Ec.
  - rewrite Hl. cbn. eauto.
  - destruct (JS.truthy (lidMappingKeys st !! (user d +:+ "_reverse"))) eqn:Es; [|discriminate].
    rewrite Hl in Es |- *. cbn. cbn in Es. rewrite Es. cbn. eauto.
Qed.

(** What the check for an existing mapping finds and leaves behind. *)
Lemma existingLidUserFor_run (pnUser : string) (st : LIDMappingStore) :
  exists r st',
    existingLidUserFor pnUser st = (inr r, st')
    /\ (forall l, JS.truthyStr l = true -> r = Some l <-> lidUserOf st pnUser = Some l)
    /\ lidUserOf st' pnUser = lidUserOf st pnUser
    /\ (st' = st
        \/ exists l, r = Some l /\ JS.truthyStr l = true
             /\ st' = {| mappingCache := <["lid:" +:+ l := pnUser]>
                                           (<["pn:" +:+ pnUser := l]> (mappingCache st));
                         lidMappingKeys := lidMappingKeys st;
                         lidWarnings := lidWarnings st |}).
Proof.
  unfold existingLidUserFor, mbind, M_bind, cacheGet, keysGet, gets.
  unfold lidUserOf, tieredLookup.
  remember ("pn:" +:+ pnUser) as k eqn:Ek.
  destruct (JS.truthy (mappingCache st !! k)) eqn:Ec.
  - eexists _, st. split; [reflexivity|]. rewrite ?Ec. split; [tauto|]. split; auto.
  - destruct (lidMappingKeys st !! pnUser) as [e|] eqn:Es; cbn [JS.truthy].
    + destruct (JS.truthyStr e) eqn:Et.
      * eexists _, _. split; [reflexivity|].
        rewrite ?Ec, ?Es. cbn [JS.truthy]. rewrite ?Et. split; [tauto|]. split.
        -- cbn [mappingCache lidMappingKeys]. subst k.
           rewrite lookup_insert_ne by apply cache_keys_differ.
           rewrite lookup_insert_eq. cbn [JS.truthy]. now rewrite Et.
        -- right. subst k. exists e. auto.
      * eexists _, st. split; [reflexivity|].
        rewrite ?Ec, ?Es. cbn [JS.truthy]. rewrite ?Et. split.
        -- intros l Hl. split; [intros [= ->]; congruence|discriminate].
        -- split; auto.
    + eexists _, st. split; [reflexivity|]. rewrite ?Ec, ?Es. cbn [JS.truthy]. split.
      * intros l Hl. split; discriminate.
      * split; auto.
Qed.

Lemma entries_singleton {V} (k : string) (v : V) : JS.entries [(k, v)] = [(k, v)].
Proof.
  unfold JS.entries, JS.indexed, JS.named. simpl.
  destruct (JS.arrayIndex k); reflexivity.
Qed.

(** X3. Storing one valid pair and looking it up: after
    [storeLIDPNMappings([{lid, pn}])], for a pair that is new or already on
    record in both directions, [getLIDForPN(pn)] is the LID user's JID
    [<lidUser>@lid] and [getPNForLID(lid)] is the PN user's JID
    [<pnUser>@s.whatsapp.net]. *)
Theorem storeLIDPNMappings_then_lookup (lid pn lidUser pnUser : string)
  (st : LIDMappingStore) :
  isLidUser lid = true -> isPnUser pn = true ->
  user <$> jidDecode lid = Some lidUser -> user <$> jidDecode pn = Some pnUser ->
  lidUser <> "" -> pnUser <> "" ->
  lidUserOf st pnUser <> Some lidUser \/ pnUserOf st lidUser = Some pnUser ->
  exists st1 st2 st3,
    storeLIDPNMappings [(lid, pn)] st = (inr tt, st1)
    /\ getLIDForPN pn st1 = (inr (Some (lidUser +:+ "@lid")), st2)
    /\ getPNForLID lid st1 = (inr (Some (pnUser +:+ "@s.whatsapp.net")), st3).
Proof.
  intros Hl Hp Hdl Hdp Hlu Hpu Hnew.
  destruct (jidDecode lid) as [dl|] eqn:Edl; [|discriminate]. injection Hdl as Hdl.
  destruct (jidDecode pn) as [dp|] eqn:Edp; [|discriminate]. injection Hdp as Hdp.
  assert (Htl : JS.truthyStr lidUser = true).
  { unfold JS.truthyStr. apply negb_true_iff, String.eqb_neq. exact Hlu. }
  assert (Htp : JS.truthyStr pnUser = true).
  { unfold JS.truthyStr. apply negb_true_iff, String.eqb_neq. exact Hpu. }
  assert (Hst : exists st1,
             storeLIDPNMappings [(lid, pn)] st = (inr tt, st1)
             /\ lidUserOf st1 pnUser = Some lidUser
             /\ pnUserOf st1 lidUser = Some pnUser).
  { unfold storeLIDPNMappings. cbn [collectPairs]. unfold validPair.
    rewrite Hl, Hp. cbn [andb orb negb]. rewrite Edl, Edp, Hdl, Hdp.
    destruct (existingLidUserFor_run pnUser st) as (r & st' & He & Hr & Hsame & Hst').
    rewrite bind_bind, (bind_run _ _ _ _ _ He).
    unfold JS.seq. destruct (bool_decide_reflect (r = Some lidUser)) as [->|Hne].
    - (* the mapping is there already *)
      cbn. exists st'. split; [reflexivity|].
      pose proof (proj1 (Hr lidUser Htl) eq_refl) as Hfwd.
      split; [congruence|].
      destruct Hst' as [->|(l & [= <-] & _ & ->)].
      + destruct Hnew as [Hnew|Hnew]; [contradiction|exact Hnew].
      + unfold pnUserOf, tieredLookup. cbn. rewrite lookup_insert_eq. cbn.
        now rewrite Htp.
    - (* the mapping is new *)
      cbn [collectPairs JS.set].
      destruct (storeEntry_populates pnUser lidUser st' Htp Htl) as (st1 & Hs & Hf & Hb).
      exists st1. split; [|auto].
      change ((forEach storeEntry (JS.entries [(pnUser, lidUser)])) st' = (inr (), st1)).
      rewrite entries_singleton. cbn [forEach].
      rewrite (bind_run _ _ _ _ _ Hs). reflexivity. }
  destruct Hst as (st1 & Hs & Hf & Hb).
  rewrite <- Hdp in Hf. rewrite <- Hdl in Hb.
  destruct (getLIDForPN_hit pn dp lidUser st1 Hp Edp Hf) as (st2 & H2).
  destruct (getPNForLID_hit lid dl pnUser st1 Hl Edl Hb) as (st3 & H3).
  subst. exists st1, st2, st3. auto.
Qed.

End LIDMappingStores.

Section LIDMappingOrder.
Context `{WABinary}.

Lemma alike_ret {A} (x : A) : alike (mret x) (mret x).
Proof. intros a b Hab. auto. Qed.

Lemma alike_bind {A B} (m m' : M LIDMappingStore A) (f f' : A -> M LIDMappingStore B) :
  alike m m' -> (forall x, alike (f x) (f' x)) -> alike (m ≫= f) (m' ≫= f').
Proof.
  intros Hm Hf a b Hab. destruct (Hm a b Hab) as [Hr Hs].
  unfold mbind, M_bind.
  destruct (m a) as [[e|x] a1], (m' b) as [[e'|x'] b1]; simpl in *;
    try discriminate.
  - injection Hr as ->. split; [reflexivity|exact Hs].
  - injection Hr as <-. apply Hf. exact Hs.
Qed.

Lemma alike_cacheGet k : alike (cacheGet k) (cacheGet k).
Proof. intros a b [Hc Hk]. unfold cacheGet, gets. simpl. rewrite Hc. split; [reflexivity|split; auto]. Qed.

Lemma alike_keysGet k : alike (keysGet k) (keysGet k).
Proof. intros a b [Hc Hk]. unfold keysGet, gets. simpl. rewrite Hk. split; [reflexivity|split; auto]. Qed.

Lemma alike_cacheSet k v : alike (cacheSet k v) (cacheSet k v).
Proof. intros a b [Hc Hk]. unfold cacheSet, modify, sameMappings. simpl. rewrite Hc. auto. Qed.

Lemma alike_keysSet2 k1 v1 k2 v2 : alike (keysSet2 k1 v1 k2 v2) (keysSet2 k1 v1 k2 v2).
Proof. intros a b [Hc Hk]. unfold keysSet2, modify, sameMappings. simpl. rewrite Hk. auto. Qed.

Lemma alike_lidWarn msg msg' : alike (lidWarn msg) (lidWarn msg').
Proof. intros a b [Hc Hk]. unfold lidWarn, modify, sameMappings. simpl. auto. Qed.

Lemma alike_existingLidUserFor pnUser :
  alike (existingLidUserFor pnUser) (existingLidUserFor pnUser).
Proof.
  unfold existingLidUserFor.
  apply alike_bind; [apply alike_cacheGet|]. intros cached.
  destruct (JS.truthy cached); [apply alike_ret|].
  apply alike_bind; [apply alike_keysGet|]. intros [e|]; [|apply alike_ret].
  destruct (JS.truthyStr e); [|apply alike_ret].
  apply alike_bind; [apply alike_cacheSet|]. intros _.
  apply alike_bind; [apply alike_cacheSet|]. intros _. apply alike_ret.
Qed.

Lemma alike_storeEntry e : alike (storeEntry e) (storeEntry e).
Proof.
  destruct e as [pnUser lidUser]. unfold storeEntry.
  apply alike_bind; [apply alike_keysSet2|]. intros _.
  apply alike_bind; [apply alike_cacheSet|]. intros _. apply alike_cacheSet.
Qed.

Lemma alike_forEach_storeEntry l : alike (forEach storeEntry l) (forEach storeEntry l).
Proof.
  induction l as [|e l IH]; simpl; [apply alike_ret|].
  apply alike_bind; [apply alike_storeEntry|]. intros _. exact IH.
Qed.

(** With helpers under which no JID is both a LID user and a PN user, a pair
    is sorted the same way whichever way round it is given. *)
Lemma swapPair_sorted (Hexcl : forall j, isLidUser j = true -> isPnUser j = false) p :
  validPair (swapPair p) = validPair p
  /\ (validPair p = true ->
      (if isLidUser (snd p) then (snd p, fst p) else (fst p, snd p))
      = (if isLidUser (fst p) then (fst p, snd p) else (snd p, fst p))).
Proof.
  destruct p as [a b]. unfold validPair, swapPair. simpl. split.
  - destruct (isLidUser a), (isPnUser b), (isPnUser a), (isLidUser b); reflexivity.
  - intros Hv.
    destruct (isLidUser a) eqn:Ea, (isLidUser b) eqn:Eb; try reflexivity.
    + rewrite (Hexcl a Ea), (Hexcl b Eb) in Hv. discriminate.
    + destruct (isPnUser a); discriminate.
Qed.

Lemma alike_collectPairs (Hexcl : forall j, isLidUser j = true -> isPnUser j = false)
  pairs pairMap :
  alike (collectPairs (List.map swapPair pairs) pairMap) (collectPairs pairs pairMap).
Proof.
  revert pairMap. induction pairs as [|[a b] rest IH]; intros pairMap.
  - apply alike_ret.
  - cbn [List.map]. destruct (swapPair_sorted Hexcl (a, b)) as [Hv Hs].
    unfold swapPair in *. cbn [fst snd] in *. cbn [collectPairs]. rewrite Hv.
    destruct (validPair (a, b)); cbn [negb].
    + rewrite (Hs eq_refl).
      destruct (if isLidUser a then (a, b) else (b, a)) as [lidJid pnJid].
      destruct (jidDecode lidJid) as [dl|]; [|apply alike_ret].
      destruct (jidDecode pnJid) as [dp|]; [|apply alike_ret].
      apply alike_bind; [apply alike_existingLidUserFor|]. intros r.
      destruct (JS.seq r (Some (user dl))); apply IH.
    + apply alike_bind; [apply alike_lidWarn|]. intros _. apply IH.
Qed.

(** X4. [storeLIDPNMappings] does not care which way round a pair is given: with
    helpers for which no JID is both a LID user and a PN user, the batch
    with every pair swapped ends the same way and leaves the same cache and
    the same key store (only the text of the warnings differs). *)
Theorem storeLIDPNMappings_pair_order (pairs : list (string * string))
  (st : LIDMappingStore) :
  (forall j, isLidUser j = true -> isPnUser j = false) ->
  let swapped := storeLIDPNMappings (List.map swapPair pairs) st in
  let given := storeLIDPNMappings pairs st in
  fst swapped = fst given
  /\ mappingCache (snd swapped) = mappingCache (snd given)
  /\ lidMappingKeys (snd swapped) = lidMappingKeys (snd given).
Proof.
  intros Hexcl.
  assert (Ha : alike (storeLIDPNMappings (List.map swapPair pairs))
                     (storeLIDPNMappings pairs)).
  { unfold storeLIDPNMappings.
    apply alike_bind; [apply alike_collectPairs, Hexcl|].
    intros [pairMap|]; [apply alike_forEach_storeEntry|apply alike_ret]. }
  destruct (Ha st st) as [Hr [Hc Hk]]; [split; reflexivity|]. auto.
Qed.

End LIDMappingOrder.

(** ** The groups socket: caches and participants *)

Section GroupCaches.
Context `{WABinary} {W : Type} `{Collaborators W}.

Lemma extractGroupMetadata_participants (result : BinaryNode)
  (cache : option (gmap string (gmap string string))) (metadata : GroupMetadata) :
  extractGroupMetadata toNumber result cache = inr metadata ->
  g_addressingMode metadata <> None
  /\ exists ps, g_participants metadata = Some ps
                /\ Forall (fun p => p_jid p = p_id p) ps.
Proof.
  unfold extractGroupMetadata.
  destruct (getBinaryNodeChild result "group") as [group|]; [|discriminate].
  destruct (attrs group !! "id") as [gid|]; [|discriminate].
  intros [= <-]. simpl. split; [discriminate|].
  eexists. split; [reflexivity|].
  induction (getBinaryNodeChildren group "participant") as [|n l IH]; simpl.
  - constructor.
  - constructor; [symmetry; apply extractParticipant_id_jid | exact IH].
Qed.

Lemma orElse_same (o : option string) : JS.orElse o o = o.
Proof. unfold JS.orElse. destruct (JS.truthy o); reflexivity. Qed.

(** X5. [storeLIDMappingsAndParticipants] never throws: whatever fails inside is
    caught, a warning is logged, and then neither the group metadata cache
    nor the LID mapping cache has been written. *)
Theorem storeLIDMappingsAndParticipants_never_throws (metadata : GroupMetadata)
  (s : Socket W) :
  exists s',
    storeLIDMappingsAndParticipants metadata s = (inr tt, s')
    /\ (warnings s' = warnings s
        \/ (warnings s' = warnings s ++ ["failed to store group metadata"]
            /\ groupMetadataCache s' = groupMetadataCache s
            /\ lidMappingCache s' = lidMappingCache s)).
Proof.
  unfold storeLIDMappingsAndParticipants, tryCatch.
  destruct (g_participants metadata) as [ps|].
  - unfold mbind, M_bind, io, zoom.
    destruct (dateNow (world s)) as [[e|now] w'] eqn:Ed; simpl.
    + eexists. split; [reflexivity|]. right. simpl. auto.
    + match goal with |- context [bool_decide ?P] => destruct (bool_decide P) end; simpl;
        eexists; (split; [reflexivity|]); left; reflexivity.
  - simpl. eexists. split; [reflexivity|]. right. simpl. auto.
Qed.

(** X6. After a successful [groupMetadata(jid)] (the clock not failing),
    [getCachedGroupMetadata] of the id in the answer finds an entry that
    lists the [id] of each participant, in order, with the group's addressing
    mode: the cache is keyed by the id the server gave, not by the JID asked
    for. *)
Theorem groupMetadata_cached (jid : string) (s s' : Socket W) (metadata : GroupMetadata) :
  (forall w, exists t w', dateNow w = (inr t, w')) ->
  groupMetadata jid s = (inr metadata, s') ->
  exists c ps,
    g_participants metadata = Some ps
    /\ getCachedGroupMetadata (g_id metadata) s' = (inr (Some c), s')
    /\ c_participants c = List.map p_id ps
    /\ c_addressingMode c = g_addressingMode metadata.
Proof.
  intros Hnow Hr. unfold groupMetadata in Hr.
  inv_bind Hr. rename a into result, s0 into s1.
  rewrite bind_gets in Hr.
  destruct (extractGroupMetadata toNumber result (Some (lidMappingCache s1)))
    as [e|md] eqn:Ex; [inv_ret Hr|].
  inv_bind Hr. inv_ret Hr. subst.
  destruct (extractGroupMetadata_participants _ _ _ Ex) as (Hmode & ps & Hps & Hjid).
  exists {| c_participants := List.map p_id ps;
            c_addressingMode := g_addressingMode metadata;
            c_updatedAt := match dateNow (world s1) with
                           | (inr t, _) => t | _ => 0 end |}, ps.
  split; [exact Hps|]. split; [|split; reflexivity].
  unfold getCachedGroupMetadata, gets. f_equal. f_equal.
  unfold storeLIDMappingsAndParticipants, tryCatch in Hrun0. rewrite Hps in Hrun0.
  unfold mbind, M_bind, io, zoom in Hrun0.
  destruct (Hnow (world s1)) as (t & w' & Hd). rewrite Hd in Hrun0 |- *. simpl in Hrun0.
  assert (Hids : List.map (fun p => JS.orElse (p_jid p) (p_id p)) ps = List.map p_id ps).
  { clear -Hjid. induction Hjid as [|p l Hp _ IH]; simpl; [reflexivity|].
    rewrite Hp, orElse_same. f_equal. exact IH. }
  assert (Hm : match g_addressingMode metadata with
               | Some a => Some a | None => Some LID end = g_addressingMode metadata).
  { destruct (g_addressingMode metadata); [reflexivity|contradiction]. }
  rewrite Hids, Hm in Hrun0.
  match type of Hrun0 with context [bool_decide ?P] => destruct (bool_decide P) end;
    apply (f_equal snd) in Hrun0; simpl in Hrun0; rewrite <- Hrun0; simpl;
    apply lookup_insert_eq.
Qed.

End GroupCaches.

Section GroupParticipants.
Context `{WABinary}.

Lemma extractParticipant_phoneNumber
  (cache : option (gmap string (gmap string string))) (groupId : string)
  (a : gmap string string) :
  let p := extractParticipant cache groupId a in
  (p_phoneNumber p = None /\ p_id p = p_lid p)
  \/ (p_phoneNumber p = p_id p /\ p_id p <> p_lid p).
Proof.
  unfold extractParticipant.
  destruct (optPred isPnUser (a !! "jid")); cbn zeta;
    [|destruct (optPred isLidUser (a !! "jid"));
      [destruct (a !! "phone_number") as [pn|]; [destruct (JS.truthyStr pn)|]|]];
    cbn [p_phoneNumber p_id p_lid];
    match goal with
    | |- context [@bool_decide ?P ?D] =>
        destruct (@bool_decide_reflect P D) as [E|E]; [left|right];
        (split; [reflexivity|exact E])
    end.
Qed.

(** X7. [extractGroupMetadata] yields one participant record for each
    [participant] child of the group node, and in each record [phoneNumber]
    is set exactly when [id] differs from [lid], and is then equal to [id]. *)
Theorem extractGroupMetadata_phoneNumber (toNumber : option string -> option Z)
  (result : BinaryNode) (cache : option (gmap string (gmap string string)))
  (metadata : GroupMetadata) :
  extractGroupMetadata toNumber result cache = inr metadata ->
  exists ps group,
    g_participants metadata = Some ps
    /\ getBinaryNodeChild result "group" = Some group
    /\ length ps = length (getBinaryNodeChildren group "participant")
    /\ Forall (fun p => (p_phoneNumber p = None /\ p_id p = p_lid p)
                        \/ (p_phoneNumber p = p_id p /\ p_id p <> p_lid p)) ps.
Proof.
  unfold extractGroupMetadata.
  destruct (getBinaryNodeChild result "group") as [group|]; [|discriminate].
  destruct (attrs group !! "id") as [gid|]; [|discriminate].
  intros [= <-]. simpl.
  eexists _, group. split; [reflexivity|]. split; [reflexivity|]. split.
  - now rewrite length_map.
  - induction (getBinaryNodeChildren group "participant") as [|n l IH]; simpl.
    + constructor.
    + constructor; [apply extractParticipant_phoneNumber | exact IH].
Qed.

End GroupParticipants.

(** ** [getUSyncDevices] without a query *)

Section USyncLocal.
Context `{WABinary} {W : Type} `{Collaborators W} (config : SocketConfig W).

Lemma splitCached_nothing cache useCache users :
  splitCached config cache useCache users [] = ([], []).
Proof. reflexivity. Qed.

(** X8. When every input of [getUSyncDevices] decodes to a user and a device
    number (in particular when there is no input), the inputs are the result,
    each with its user, device and JID, and nothing else happens: no cache
    lookup, no USync query, no change of state. *)
Theorem getUSyncDevices_all_explicit (jids : list (option string))
  (useCache ignoreZeroDevices : bool) (s : Socket W) :
  (forall j, In j jids ->
     exists x d n, j = Some x /\ jidDecode x = Some d /\ device d = Some n
                   /\ 0 <= n /\ user d <> "") ->
  getUSyncDevices config jids useCache ignoreZeroDevices s
  = (inr (omap (fun j => x ← j; d ← jidDecode x;
                         Some {| d_user := user d; d_device := device d; d_jid := x |})
               jids), s).
Proof.
  intros Hall.
  assert (Hc : explicitDevices jids
               = omap (fun j => x ← j; d ← jidDecode x;
                                Some {| d_user := user d; d_device := device d; d_jid := x |})
                      jids
               /\ jidsWithUser jids = []).
  { induction jids as [|j l IH]; [split; reflexivity|].
    destruct (Hall j (or_introl eq_refl)) as (x & d & n & -> & Hd & Hn & Hpos & Hu).
    destruct IH as [IH1 IH2]; [intros k Hk; apply Hall; now right|].
    unfold explicitDevices, jidsWithUser in *. cbn [omap list_omap].
    rewrite (classifyJid_explicit x d n Hd Hn Hpos Hu). simpl. rewrite Hd. simpl.
    rewrite Hn, IH1, IH2. split; reflexivity. }
  destruct Hc as [He Hj]. unfold getUSyncDevices. rewrite Hj, He. simpl.
  rewrite app_nil_r. reflexivity.
Qed.

Lemma splitCached_hits cache users (rest : list (string * option string))
  (dss : list (list DeviceWithJid)) :
  Forall2 (fun e ds => exists u, snd e = Some u /\ u <> ""
                                 /\ (cacheHasMget config = true -> In u users)
                                 /\ cache !! u = Some ds) rest dss ->
  splitCached config cache true users rest = (List.concat dss, []).
Proof.
  induction 1 as [|[jid user] ds rest dss (u & Hu & Hne & Hin & Hc) _ IH]; [reflexivity|].
  simpl in Hu. subst user. cbn [splitCached]. rewrite IH.
  unfold cachedDevicesFor, JS.keyOf. simpl.
  destruct (cacheHasMget config).
  - assert (existsb (String.eqb u) users = true) as ->.
    { apply existsb_exists. exists u. split; [auto|apply String.eqb_refl]. }
    rewrite Hc. reflexivity.
  - rewrite Hc. reflexivity.
Qed.

(** X9. With [useCache], inputs without a device whose users are all in the
    user-devices cache are answered from the cache: the result is the cached
    lists, in the order of the inputs, and there is no USync query and no
    change of state. *)
Theorem getUSyncDevices_cached (jids : list (option string))
  (dss : list (list DeviceWithJid)) (ignoreZeroDevices : bool) (s : Socket W) :
  Forall2 (fun j ds => exists x d, j = Some x /\ jidDecode x = Some d
                                   /\ device d = None /\ user d <> ""
                                   /\ userDevicesCache s !! user d = Some ds) jids dss ->
  getUSyncDevices config jids true ignoreZeroDevices s = (inr (List.concat dss), s).
Proof.
  intros Hall.
  assert (Hc : explicitDevices jids = []
               /\ Forall2 (fun e ds => exists u, snd e = Some u /\ u <> ""
                                                 /\ userDevicesCache s !! u = Some ds)
                          (jidsWithUser jids) dss).
  { induction Hall as [|j ds l dss (x & d & -> & Hd & Hn & Hu & Hc) _ [IH1 IH2]];
      [split; [reflexivity|constructor]|].
    unfold explicitDevices, jidsWithUser in *. cbn [omap list_omap].
    unfold classifyJid at 1 3. simpl. rewrite Hd, Hn. simpl.
    split; [exact IH1|]. constructor; [|exact IH2]. simpl. eauto. }
  destruct Hc as [He Hj]. unfold getUSyncDevices. rewrite He. rewrite bind_gets.
  set (rest := jidsWithUser jids) in *.
  erewrite splitCached_hits; [reflexivity|].
  clear -Hj. induction Hj as [|e ds rest dss (u & Hu & Hne & Hc) Hj IH]; [constructor|].
  constructor.
  - exists u. split; [exact Hu|]. split; [exact Hne|]. split; [|exact Hc].
    intros _. simpl. rewrite Hu. simpl. rewrite (truthyStr_ne u Hne). left. reflexivity.
  - eapply Forall2_impl; [exact IH|]. intros e' ds' (u' & Hu' & Hne' & Hin & Hc').
    exists u'. split; [exact Hu'|]. split; [exact Hne'|]. split; [|exact Hc'].
    intros Hm. simpl. destruct (if JS.truthy (snd e) then snd e else None); [right|]; auto.
Qed.

End USyncLocal.

(** ** [assertSessions] and the session cache *)

Section SessionFacts.
Context `{WABinary} {W : Type} `{Collaborators W} (config : SocketConfig W).

Lemma uniqFrom_In seen l x : In x (JS.uniqFrom seen l) -> In x l.
Proof.
  revert seen. induction l as [|y l IH]; intros seen; simpl; [auto|].
  destruct (existsb (String.eqb y) seen).
  - intros Hx. right. eapply IH, Hx.
  - intros [->|Hx]; [now left|]. right. eapply IH, Hx.
Qed.

Lemma uniqFrom_complete seen l x :
  In x l -> In x seen \/ In x (JS.uniqFrom seen l).
Proof.
  revert seen. induction l as [|y l IH]; intros seen; simpl; [contradiction|].
  intros [->|Hx].
  - destruct (existsb (String.eqb x) seen) eqn:E.
    + left. apply existsb_exists in E as (z & Hz & Ez).
      apply String.eqb_eq in Ez. now subst.
    + right. now left.
  - destruct (existsb (String.eqb y) seen).
    + apply IH, Hx.
    + destruct (IH (y :: seen) Hx) as [[->|Hs]|Hu]; [right; now left|now left|right; now right].
Qed.

Lemma uniq_In l x : In x (JS.uniq l) <-> In x l.
Proof.
  split; [apply uniqFrom_In|].
  intros Hx. destruct (uniqFrom_complete [] l x Hx) as [[]|Hu]. exact Hu.
Qed.

(** The session check never overwrites an entry of the cache, and a JID that
    is not reported has a session on record. *)
Lemma jidsWithoutSession_inr (l : list string) (s s' : Socket W) (req : list string) :
  jidsWithoutSession l s = (inr req, s') ->
  (forall k v, peerSessionsCache s !! k = Some v -> peerSessionsCache s' !! k = Some v)
  /\ (forall j, In j l ->
      peerSessionsCache s' !! jidToSignalProtocolAddress j = Some true \/ In j req)
  /\ (forall j, In j req -> In j l).
Proof.
  revert s req. induction l as [|j r IH]; intros s req Hr.
  - simpl in Hr. inv_ret Hr. subst. repeat split; auto; contradiction.
  - cbn [jidsWithoutSession] in Hr. rewrite bind_gets in Hr.
    inv_bind Hr. rename a into known, s0 into s1, Hrun into Hk.
    inv_bind Hr. rename a into more, s0 into s2, Hrun into Hm.
    inv_ret Hr. subst s2.
    destruct (IH _ _ Hm) as (Hmono & Hall & Hsub).
    assert (Hs1 : (forall k v, peerSessionsCache s !! k = Some v ->
                               peerSessionsCache s1 !! k = Some v)
                  /\ peerSessionsCache s1 !! jidToSignalProtocolAddress j = Some known).
    { destruct (peerSessionsCache s !! jidToSignalProtocolAddress j) as [b|] eqn:Ec.
      - inv_ret Hk. subst. auto.
      - inv_bind Hk. inv_bind Hk. inv_ret Hk. subst.
        unfold modify in Hrun0. apply (f_equal snd) in Hrun0. simpl in Hrun0.
        subst s1. simpl.
        assert (Hw : peerSessionsCache s0 = peerSessionsCache s).
        { eapply frames_run; [|exact Hrun]. apply frames_zoom. reflexivity. }
        rewrite Hw. split; [|apply lookup_insert_eq].
        intros k v Hkv. rewrite lookup_insert_ne; [exact Hkv|]. congruence. }
    destruct Hs1 as [Hmono1 Hj]. split; [|split].
    + intros k v Hkv. apply Hmono, Hmono1, Hkv.
    + intros x [<-|Hx].
      * destruct known; [left; apply Hmono, Hj|right; subst; now left].
      * destruct (Hall x Hx) as [Ht|Hin]; [now left|right].
        subst. destruct known; [exact Hin|now right].
    + intros x Hx. subst. destruct known; [right; apply Hsub, Hx|].
      destruct Hx as [<-|Hx]; [now left|right; apply Hsub, Hx].
Qed.

Lemma markFetched_lookup (wireJids : list string) (c : gmap string bool) :
  (forall k, c !! k = Some true ->
             fold_left (fun c w => <[jidToSignalProtocolAddress w := true]> c) wireJids c !! k
             = Some true)
  /\ (forall w, In w wireJids ->
                fold_left (fun c w => <[jidToSignalProtocolAddress w := true]> c) wireJids c
                  !! jidToSignalProtocolAddress w = Some true).
Proof.
  revert c. induction wireJids as [|x l IH]; intros c; simpl.
  - split; [auto|contradiction].
  - destruct (IH (<[jidToSignalProtocolAddress x := true]> c)) as [IH1 IH2]. split.
    + intros k Hk. apply IH1.
      destruct (decide (k = jidToSignalProtocolAddress x)) as [->|Hne].
      * apply lookup_insert_eq.
      * rewrite lookup_insert_ne by congruence. exact Hk.
    + intros w [->|Hw]; [|apply IH2, Hw].
      apply IH1, lookup_insert_eq.
Qed.

(** X10. A successful [assertSessionsInternal] never takes a session off the
    record: an address cached as [true] stays so; and every input that is a
    LID user (hosted or not) ends with its address cached as [true]. *)
Theorem assertSessionsInternal_cache (jids : list string) (s s' : Socket W) (b : bool) :
  assertSessionsInternal jids s = (inr b, s') ->
  (forall k, peerSessionsCache s !! k = Some true -> peerSessionsCache s' !! k = Some true)
  /\ (forall j, In j jids -> isLidUser j || isHostedLidUser j = true ->
      peerSessionsCache s' !! jidToSignalProtocolAddress j = Some true).
Proof.
  unfold assertSessionsInternal. intros Hr.
  inv_bind Hr. rename a into req, s0 into s1, Hrun into Hreq.
  destruct (jidsWithoutSession_inr _ _ _ _ Hreq) as (Hmono & Hall & Hsub).
  destruct req as [|r0 req].
  - inv_ret Hr. subst. split; [intros k; apply Hmono|].
    intros j Hj _. destruct (Hall j (proj2 (uniq_In _ _) Hj)) as [Ht|[]]. exact Ht.
  - inv_bind Hr. rename a into mapped, s0 into s2, Hrun into Hmap.
    inv_bind Hr. rename a into result, s0 into s3, Hrun into Hq.
    inv_bind Hr. rename s0 into s4, Hrun into Hinj.
    inv_bind Hr. rename s0 into s5, Hrun into Hmark. inv_ret Hr. subst s5.
    unfold modify in Hmark. apply (f_equal snd) in Hmark. cbn [snd] in Hmark.
    subst s'. unfold setPeerSessionsCache. cbn [peerSessionsCache].
    assert (Hc : peerSessionsCache s4 = peerSessionsCache s1).
    { transitivity (peerSessionsCache s3);
        [eapply frames_run; [|exact Hinj]; apply frames_zoom; reflexivity|].
      transitivity (peerSessionsCache s2);
        [eapply frames_run; [|exact Hq]; apply frames_zoom; reflexivity|].
      eapply frames_run; [|exact Hmap]. apply frames_zoom. reflexivity. }
    rewrite Hc.
    match goal with |- context [fold_left _ ?ws _] => set (wireJids := ws) end.
    destruct (markFetched_lookup wireJids (peerSessionsCache s1)) as [Hkeep Hset].
    split; [intros k Hk; apply Hkeep, Hmono, Hk|].
    intros j Hj Hlid. destruct (Hall j (proj2 (uniq_In _ _) Hj)) as [Ht|Hin].
    + apply Hkeep, Ht.
    + apply Hset. unfold wireJids. apply in_or_app. left.
      apply List.filter_In. split; [exact Hin|exact Hlid].
Qed.

Lemma jidsWithoutSession_cached (l : list string) (s : Socket W) :
  (forall j, In j l -> peerSessionsCache s !! jidToSignalProtocolAddress j = Some true) ->
  jidsWithoutSession l s = (inr [], s).
Proof.
  induction l as [|j r IH]; intros Hall; [reflexivity|].
  cbn [jidsWithoutSession]. rewrite bind_gets, (Hall j (or_introl eq_refl)).
  unfold mbind at 1, M_bind at 1. unfold mret at 1, M_ret at 1.
  rewrite (bind_run _ _ _ _ _ (IH (fun x Hx => Hall x (or_intror Hx)))). reflexivity.
Qed.

(** X11. When the peer-sessions cache holds [true] for the address of every input
    (in particular for no input), [assertSessions] returns [false] and does
    nothing: no session is validated, no key is fetched, the state is as
    before. *)
Theorem assertSessions_cached (jids : list string) (s : Socket W) :
  (forall j, In j jids -> peerSessionsCache s !! jidToSignalProtocolAddress j = Some true) ->
  assertSessions config jids s = (inr false, s).
Proof.
  intros Hall.
  assert (Hi : assertSessionsInternal jids s = (inr false, s)).
  { unfold assertSessionsInternal.
    rewrite (bind_run _ _ _ _ _ (jidsWithoutSession_cached (JS.uniq jids) s
               (fun j Hj => Hall j (proj1 (uniq_In _ _) Hj)))).
    reflexivity. }
  unfold assertSessions.
  destruct (compatV6GroupSend config); [unfold tryCatch; rewrite Hi; reflexivity|exact Hi].
Qed.

(** X12. With [compatV6GroupSend], [assertSessions] never throws: when
    [assertSessionsInternal] throws, it returns [false], in the state the
    failure left. *)
Theorem assertSessions_compat (jids : list string) (s : Socket W) :
  compatV6GroupSend config = true ->
  exists b s',
    assertSessions config jids s = (inr b, s')
    /\ (forall e s1, assertSessionsInternal jids s = (inl e, s1) -> b = false /\ s' = s1).
Proof.
  intros Hc. unfold assertSessions, tryCatch. rewrite Hc.
  destruct (assertSessionsInternal jids s) as [[e|b] s1].
  - exists false, s1. split; [reflexivity|]. intros e' s2 [= _ <-]. auto.
  - exists b, s1. split; [reflexivity|]. discriminate.
Qed.

End SessionFacts.

(** ** Receipts *)

Section ReceiptFacts.
Context `{WABinary} {W : Type} `{Collaborators W}.

Ltac lookups :=
  repeat first
    [ rewrite lookup_insert_eq
    | rewrite lookup_insert_ne by discriminate
    | rewrite lookup_singleton_eq
    | rewrite lookup_singleton_ne by discriminate
    | rewrite lookup_empty ].

Lemma omap_item_ids (ids : list string) :
  omap (fun item => if hasTag "item" item then attrs item !! "id" else None)
       (List.map (fun id => Node "item" {["id" := id]} NoContent) ids) = ids.
Proof.
  induction ids as [|i l IH]; [reflexivity|].
  cbn [List.map omap list_omap]. unfold hasTag at 1. cbn [tag attrs].
  change (String.eqb "item" "item") with true. cbn iota.
  rewrite lookup_singleton_eq. cbn [option_map]. f_equal. exact IH.
Qed.

(** A node handed to [sendNode] is on record even when its transmission
    fails. *)
Lemma sendNode_sent (node : BinaryNode) (s : Socket W) :
  sent (snd (sendNode node s)) = sent s ++ [node].
Proof.
  unfold sendNode, mbind, M_bind, modify, io, zoom. simpl.
  destruct (transmit node (world s)) as [[e|[]] w]; reflexivity.
Qed.

Lemma receiptIds_built (a : gmap string string) (first : string) (rest : list string) :
  a !! "id" = Some first ->
  receiptIds
    (Node "receipt" a
       match rest with
       | [] => NoContent
       | _ => Children
                [Node "list" ∅
                   (Children (List.map (fun id => Node "item" {["id" := id]} NoContent)
                                       rest))]
       end) = first :: rest.
Proof.
  intros Ha. unfold receiptIds. cbn [attrs]. rewrite Ha. f_equal.
  destruct rest as [|r0 rest']; [reflexivity|].
  pose proof (omap_item_ids (r0 :: rest')) as Hi.
  unfold childNodes. simpl. simpl in Hi. rewrite app_nil_r. exact Hi.
Qed.

Lemma sendReceipt_any (jid : string) (participant : option string)
  (first : string) (rest : list string) (type : option string) (s : Socket W) :
  let run := sendReceipt jid participant (Some (first :: rest)) type s in
  (sent (snd run) = sent s /\ exists e, fst run = inl e)
  \/ exists node, sent (snd run) = sent s ++ [node]
                  /\ isReceiptFor jid participant (first :: rest) type node.
Proof.
  unfold sendReceipt. cbv zeta.
  assert (Hread : bool_decide (type = Some "read") || bool_decide (type = Some "read-self")
                  = true <-> type = Some "read" \/ type = Some "read-self").
  { rewrite orb_true_iff, !bool_decide_eq_true. reflexivity. }
  destruct (bool_decide (type = Some "read") || bool_decide (type = Some "read-self")).
  - (* a read receipt: the timestamp is taken first *)
    rewrite bind_bind.
    destruct (io unixTimestampSeconds s) as [[e|t] s1] eqn:Et.
    + left. rewrite (bind_fail _ _ _ _ _ Et). cbn [fst snd]. split; [|eauto].
      eapply frames_run; [|exact Et]. apply frames_io, _.
    + rewrite (bind_run _ _ _ _ _ Et).
      rewrite bind_run with (a := <["t" := JS.showZ t]> ({["id" := first]} : gmap string string))
                            (s1 := s1) by reflexivity.
      right. eexists. split.
      { rewrite sendNode_sent. f_equal. eapply frames_run; [|exact Et]. apply frames_io, _. }
      unfold isReceiptFor. cbn [tag attrs].
      destruct (bool_decide (type = Some "sender") && (isPnUser jid || isLidUser jid));
        destruct participant as [p|]; try destruct (JS.truthyStr p) eqn:Ep;
        destruct type as [ty|]; try destruct (JS.truthyStr ty) eqn:Ety;
        (split; [reflexivity|]);
        (split; [apply receiptIds_built; lookups; reflexivity|]);
        cbn [JS.truthy]; rewrite ?Ep, ?Ety; lookups;
        (split; [reflexivity|]);
        (split; [split; [intros _; apply Hread; reflexivity|eauto]|]);
        repeat split.
  - (* any other receipt *)
    rewrite bind_run with (a := ({["id" := first]} : gmap string string)) (s1 := s)
      by reflexivity.
    right. eexists. split; [apply sendNode_sent|].
    unfold isReceiptFor. cbn [tag attrs].
    assert (Hno : ~ (type = Some "read" \/ type = Some "read-self")).
    { intros Hc. apply Hread in Hc. discriminate. }
    destruct (bool_decide (type = Some "sender") && (isPnUser jid || isLidUser jid));
      destruct participant as [p|]; try destruct (JS.truthyStr p) eqn:Ep;
      destruct type as [ty|]; try destruct (JS.truthyStr ty) eqn:Ety;
      (split; [reflexivity|]);
      (split; [apply receiptIds_built; lookups; reflexivity|]);
      cbn [JS.truthy]; rewrite ?Ep, ?Ety; lookups;
      (split; [reflexivity|]);
      (split; [split; [intros [x Hx]; discriminate|intros Hc; contradiction]|]);
      repeat split.
Qed.

(** X13. A successful [sendReceipt] hands exactly one node to [sendNode]: a
    [<receipt>] that names the message ids in order (the first as [id], the
    others as [<item>]s of a [<list>]), has the type given, a timestamp
    exactly when the type is [read] or [read-self], and the chat either as
    [to] or, for a [sender] receipt to a PN or LID user, as [recipient]. *)
Theorem sendReceipt_receipt (jid : string) (participant : option string)
  (messageIds : list string) (type : option string) (s s' : Socket W) :
  sendReceipt jid participant (Some messageIds) type s = (inr tt, s') ->
  exists node,
    sent s' = sent s ++ [node]
    /\ isReceiptFor jid participant messageIds type node.
Proof.
  intros Hr. destruct messageIds as [|first rest]; [discriminate|].
  pose proof (sendReceipt_any jid participant first rest type s) as Ha.
  cbv zeta in Ha. rewrite Hr in Ha. cbn [fst snd] in Ha.
  destruct Ha as [[_ [e He]]|Hn]; [discriminate|exact Hn].
Qed.

End ReceiptFacts.

Section ReceiptBatches.
Context `{WABinary} {W : Type} `{Collaborators W} `{ReceiptCollaborators W}.

(** The receipts of a batch, sent in turn until one fails: those sent are
    for the first entries of the batch, and for all of them when the run
    succeeds. *)
Lemma forEach_sendReceipt_any (type : option string)
  (recps : list (string * option string * list string)) (s : Socket W) :
  let run := forEach (fun recp : string * option string * list string =>
                        let '(jid, participant, messageIds) := recp in
                        sendReceipt jid participant (Some messageIds) type) recps s in
  exists nodes,
    sent (snd run) = sent s ++ nodes
    /\ Forall2 (fun recp node =>
                  isReceiptFor (fst (fst recp)) (snd (fst recp)) (snd recp) type node)
               (take (length nodes) recps) nodes
    /\ (fst run = inr tt -> length nodes = length recps).
Proof.
  revert s. induction recps as [|[[jid participant] ids] recps IH]; intros s; cbn [forEach].
  - exists []. rewrite app_nil_r. repeat split. constructor.
  - cbv zeta. destruct ids as [|first rest].
    + (* no ids: the call throws and the batch stops *)
      exists []. rewrite app_nil_r. split; [reflexivity|]. split; [constructor|discriminate].
    + pose proof (sendReceipt_any jid participant first rest type s) as Ha. cbv zeta in Ha.
      destruct (sendReceipt jid participant (Some (first :: rest)) type s)
        as [[e|[]] s1] eqn:Er; cbn [fst snd] in Ha.
      * rewrite (bind_fail _ _ _ _ _ Er). cbn [fst snd].
        destruct Ha as [[Hs _]|(node & Hs & Hn)].
        -- exists []. rewrite app_nil_r. split; [exact Hs|]. split; [constructor|discriminate].
        -- exists [node]. split; [exact Hs|]. split; [|discriminate].
           cbn [length take]. constructor; [exact Hn|constructor].
      * rewrite (bind_run _ _ _ _ _ Er).
        destruct Ha as [[_ [e He]]|(node & Hs & Hn)]; [discriminate|].
        destruct (IH s1) as (nodes & Hs1 & Hall & Hlen).
        exists (node :: nodes). split; [|split].
        -- rewrite Hs1, Hs, <- app_assoc. reflexivity.
        -- cbn [length take]. constructor; [exact Hn|exact Hall].
        -- intros Hok. cbn [length]. f_equal. apply Hlen, Hok.
Qed.

(** X14. A successful [sendReceipts] sends one receipt for each entry of
    [aggregateMessageKeysNotFromMe(keys)], in order, each for the chat, the
    participant and the message ids of its entry. *)
Theorem sendReceipts_receipts (keys : list WAMessageKey) (type : option string)
  (s s' : Socket W) :
  sendReceipts keys type s = (inr tt, s') ->
  exists nodes,
    sent s' = sent s ++ nodes
    /\ Forall2 (fun recp node =>
                  isReceiptFor (fst (fst recp)) (snd (fst recp)) (snd recp) type node)
               (aggregateMessageKeysNotFromMe keys) nodes.
Proof.
  intros Hr. unfold sendReceipts in Hr.
  destruct (forEach_sendReceipt_any type (aggregateMessageKeysNotFromMe keys) s)
    as (nodes & Hs & Hall & Hlen).
  rewrite Hr in Hs, Hlen. cbn [fst snd] in *.
  exists nodes. split; [exact Hs|].
  rewrite (Hlen eq_refl), firstn_all in Hall. exact Hall.
Qed.

Lemma readReceipt_node (jid : string) (participant : option string)
  (ids : list string) (type : string) (node : BinaryNode) :
  type = "read" \/ type = "read-self" ->
  isReceiptFor jid participant ids (Some type) node -> isReadReceiptNode node.
Proof.
  intros Ht (Htag & _ & Hty & Hts & _). split; [exact Htag|]. split.
  - apply Hts. destruct Ht as [->| ->]; auto.
  - rewrite Hty. destruct Ht as [->| ->]; auto.
Qed.

(** X15. Whatever [readMessages] hands to [sendNode], whether it ends well or
    throws part way, is a read receipt: a [<receipt>] with a timestamp, of
    type [read] or [read-self]; when it ends well there is one for each
    aggregated entry. *)
Theorem readMessages_read_receipts (keys : list WAMessageKey) (s : Socket W) :
  exists nodes,
    sent (snd (readMessages keys s)) = sent s ++ nodes
    /\ Forall isReadReceiptNode nodes
    /\ (fst (readMessages keys s) = inr tt ->
        length nodes = length (aggregateMessageKeysNotFromMe keys)).
Proof.
  unfold readMessages.
  destruct (io fetchPrivacySettings s) as [[e|settings] s1] eqn:Ef.
  - rewrite (bind_fail _ _ _ _ _ Ef). exists []. rewrite app_nil_r. cbn [fst snd].
    split; [eapply frames_run; [|exact Ef]; apply frames_io, _|].
    split; [constructor|discriminate].
  - rewrite (bind_run _ _ _ _ _ Ef). cbv zeta. unfold sendReceipts.
    set (readType := if bool_decide _ then "read" else "read-self").
    assert (Hty : readType = "read" \/ readType = "read-self").
    { unfold readType. destruct (bool_decide _); auto. }
    destruct (forEach_sendReceipt_any (Some readType) (aggregateMessageKeysNotFromMe keys) s1)
      as (nodes & Hs & Hall & Hlen).
    exists nodes. split; [|split; [|exact Hlen]].
    + rewrite Hs. f_equal. eapply frames_run; [|exact Ef]. apply frames_io, _.
    + clear -Hall Hty. revert Hall. generalize (take (length nodes) (aggregateMessageKeysNotFromMe keys)).
      intros l Hall. induction Hall as [|recp node l nodes Hn _ IH]; constructor; [|exact IH].
      eapply readReceipt_node; [exact Hty|exact Hn].
Qed.

End ReceiptBatches.

(** ** [createParticipantNodes] in the compatibility mode *)

Section ParticipantNodesCompat.
Context `{WABinary} {W : Type} `{Collaborators W} (config : SocketConfig W).

Lemma warnings_io {A} (m : M W A) (s : Socket W) :
  warnings (snd (io m s)) = warnings s.
Proof. unfold io, zoom. destruct (m (world s)). reflexivity. Qed.

Lemma warnings_encryptPairwise jid data (s : Socket W) :
  warnings (snd (encryptPairwise jid data s)) = warnings s.
Proof.
  unfold encryptPairwise, mbind, M_bind.
  pose proof (warnings_io (encryptMessage jid data) s) as Hw.
  destruct (io (encryptMessage jid data) s) as [[e|r] s1]; cbn [snd] in *; [exact Hw|].
  exact Hw.
Qed.

(** In the compatibility mode a task of [createParticipantNodes] always
    returns: with an envelope, or with none and, when the encryption threw,
    a warning. *)
Lemma encryptFor_compat extraAttrs (entry : option string * IMessage) (s : Socket W) :
  compatV6GroupSend config = true ->
  exists node flag s' failed,
    encryptFor config extraAttrs None entry s = (inr (node, flag), s')
    /\ warnings s' = warnings s ++ repeat "error encrypting for device ignored" failed
    /\ (match node with Some _ => 1 | None => 0 end + failed
        = if JS.truthy (fst entry) then 1 else 0)%nat.
Proof.
  intros Hc. destruct entry as [[jid|] message]; unfold encryptFor; cbn [fst JS.truthy].
  2:{ exists None, false, s, 0%nat. rewrite app_nil_r. auto. }
  destruct (JS.truthyStr jid); cbn [negb].
  2:{ exists None, false, s, 0%nat. rewrite app_nil_r. auto. }
  rewrite bind_run with (a := message) (s1 := s) by reflexivity.
  unfold tryCatch. rewrite Hc.
  pose proof (warnings_encryptPairwise jid (encodeWAMessage message) s) as Hw.
  unfold mbind at 1, M_bind at 1.
  destruct (encryptPairwise jid (encodeWAMessage message) s) as [[e|[type ciphertext]] s1];
    cbn [snd] in Hw.
  - eexists None, false, _, 1%nat. split; [reflexivity|]. cbn. rewrite Hw. auto.
  - eexists (Some _), _, s1, 0%nat. split; [reflexivity|]. rewrite app_nil_r. auto.
Qed.

Lemma mapM_encryptFor_compat extraAttrs (entries : list (option string * IMessage))
  (s : Socket W) :
  compatV6GroupSend config = true ->
  exists results s' failed,
    mapM (encryptFor config extraAttrs None) entries s = (inr results, s')
    /\ warnings s' = warnings s ++ repeat "error encrypting for device ignored" failed
    /\ (length (omap fst results) + failed
        = length (List.filter (fun e => JS.truthy (fst e)) entries))%nat.
Proof.
  intros Hc. revert s. induction entries as [|entry entries IH]; intros s.
  - exists [], s, 0%nat. rewrite app_nil_r. auto.
  - destruct (encryptFor_compat extraAttrs entry s Hc) as (node & flag & s1 & f1 & H1 & Hw1 & Hn1).
    destruct (IH s1) as (results & s2 & f2 & H2 & Hw2 & Hn2).
    exists ((node, flag) :: results), s2, (f1 + f2)%nat. split; [|split].
    + cbn [mapM]. rewrite (bind_run _ _ _ _ _ H1), (bind_run _ _ _ _ _ H2). reflexivity.
    + rewrite Hw2, Hw1, repeat_app, app_assoc. reflexivity.
    + cbn [omap list_omap fst List.filter].
      destruct node, (JS.truthy (fst entry)); cbn [length] in *; lia.
Qed.

(** X16. With [compatV6GroupSend] and no DSM message, once the patch callback has
    answered, [createParticipantNodes] returns: each recipient with a
    non-empty JID gets an envelope, or else its encryption threw and a
    warning was logged. *)
Theorem createParticipantNodes_compat (jids : list string) (message : IMessage)
  (extraAttrs : option (gmap string string)) (s s1 : Socket W) (patched : PatchResult) :
  compatV6GroupSend config = true ->
  jids <> [] ->
  callPatch config message (Some jids) s = (inr patched, s1) ->
  exists nodes flag s' failed,
    createParticipantNodes config jids message extraAttrs None s = (inr (nodes, flag), s')
    /\ warnings s' = warnings s ++ repeat "error encrypting for device ignored" failed
    /\ (length nodes + failed
        = match patched with
          | PatchedOne _ => length (List.filter JS.truthyStr jids)
          | PatchedMany l => length (List.filter (fun e => JS.truthy (fst e)) l)
          end)%nat.
Proof.
  intros Hc Hne Hp. unfold createParticipantNodes.
  destruct jids as [|j0 jids]; [contradiction|].
  rewrite (bind_run _ _ _ _ _ Hp).
  assert (Hw1 : warnings s1 = warnings s).
  { unfold callPatch in Hp.
    destruct (patchMessageBeforeSending config) as [patch|]; [|discriminate].
    pose proof (warnings_io (patch message (Some (j0 :: jids))) s) as Hw.
    rewrite Hp in Hw. exact Hw. }
  match goal with |- context [mapM _ ?es] => set (entries := es) end.
  destruct (mapM_encryptFor_compat (default ∅ extraAttrs) entries s1 Hc)
    as (results & s2 & failed & Hm & Hw & Hn).
  exists (omap fst results), (existsb snd results), s2, failed.
  split; [rewrite (bind_run _ _ _ _ _ Hm); reflexivity|].
  split; [rewrite Hw, Hw1; reflexivity|].
  rewrite Hn. unfold entries. destruct patched as [m|l]; [|reflexivity].
  generalize (j0 :: jids). intros l. induction l as [|x l IH]; [reflexivity|].
  cbn [List.map List.filter fst JS.truthy]. destruct (JS.truthyStr x); cbn [length]; lia.
Qed.

End ParticipantNodesCompat.

(** ** [relayMessage]: newsletters *)

Section RelayNewsletter.
Context `{WABinary} {W : Type} `{Collaborators W} (config : SocketConfig W).




End RelayNewsletter.

(** ** What [relayMessage] leaves alone *)

Ltac unwritten_step :=
  first
    [ solve [eauto with frames typeclass_instances]
    | apply frames_modify; intros;
      first [ reflexivity | apply unwritten_encrypted | apply unwritten_senderKeyMemory ]
    | frames_step ].

Ltac unwritten_tac := repeat unwritten_step.

Section UnwrittenFrames.
Context `{WABinary} {W : Type} `{Collaborators W} (config : SocketConfig W).
Context {X : Type} (f : Socket W -> X) `{!Unwritten f}.

Lemma frames_encryptPairwise jid data : frames f (encryptPairwise jid data).
Proof. unfold encryptPairwise. unwritten_tac. Qed.

Hint Resolve frames_encryptPairwise : frames.

Lemma frames_encryptFor extraAttrs dsm entry :
  frames f (encryptFor config extraAttrs dsm entry).
Proof. unfold encryptFor. unwritten_tac. Qed.

Hint Resolve frames_encryptFor : frames.

Lemma frames_createParticipantNodes jids message extraAttrs dsm :
  frames f (createParticipantNodes config jids message extraAttrs dsm).
Proof. unfold createParticipantNodes. unwritten_tac. Qed.

Hint Resolve frames_createParticipantNodes : frames.

Lemma frames_relayToGroup jid message participant isStatus statusJidList
  useUserDevicesCache useCachedGroupMetadata devices0 attrs0 extraAttrs :
  frames f (relayToGroup config jid message participant isStatus statusJidList
              useUserDevicesCache useCachedGroupMetadata devices0 attrs0 extraAttrs).
Proof. unfold relayToGroup. unwritten_tac. Qed.

Lemma frames_relayDirect jid destUser isLid message meMsg participant devices0 attrs0
  extraAttrs :
  frames f (relayDirect config jid destUser isLid message meMsg participant devices0
              attrs0 extraAttrs).
Proof. unfold relayDirect, directRecipients. unwritten_tac. Qed.

End UnwrittenFrames.

#[global] Hint Resolve frames_encryptPairwise frames_encryptFor
  frames_createParticipantNodes frames_relayToGroup frames_relayDirect : frames.

Section RelayEffects.
Context `{WABinary} {W : Type} `{Collaborators W} (config : SocketConfig W).

Lemma sendsOneMessage_throw {A} (e : Err) : sendsOneMessage (throw e : M (Socket W) A).
Proof. intros s. left. simpl. eauto. Qed.

Lemma sendsOneMessage_bind {A B} (m : M (Socket W) A) (k : A -> M (Socket W) B) :
  frames sent m -> (forall a, sendsOneMessage (k a)) -> sendsOneMessage (m ≫= k).
Proof.
  intros Hm Hk s. unfold mbind, M_bind. specialize (Hm s).
  destruct (m s) as [[e|a] s1]; cbn [fst snd] in *; [left; eauto|].
  rewrite <- Hm. apply Hk.
Qed.

Lemma sendsOneMessage_send {B} (node : BinaryNode) (post : M (Socket W) B) :
  tag node = "message" -> frames sent post -> sendsOneMessage (sendNode node;; post).
Proof.
  intros Ht Hpost s. right. exists node. split; [|exact Ht].
  unfold mbind, M_bind. pose proof (sendNode_sent node s) as Hs.
  destruct (sendNode node s) as [[e|[]] s1]; cbn [snd] in *; [exact Hs|].
  rewrite <- Hs. apply Hpost.
Qed.

(** X18. [relayMessage] hands at most one node to [sendNode], however it ends:
    either it throws before it gets there and nothing is handed over, or one
    [<message>] is. *)
Theorem relayMessage_sends_one_message (jid : string) (message : IMessage)
  (opts : MessageRelayOptions) :
  sendsOneMessage (relayMessage config jid message opts).
Proof.
  unfold relayMessage.
  destruct (jidDecode jid) as [decoded|]; [|apply sendsOneMessage_throw].
  apply sendsOneMessage_bind; [frames_tac|]. intros msgId.
  apply sendsOneMessage_bind; [frames_tac|]. intros [devices0 attrs1].
  destruct (String.eqb (server decoded) "newsletter").
  - apply sendsOneMessage_bind; [frames_tac|]. intros patched.
    apply sendsOneMessage_send; [reflexivity|frames_tac].
  - apply sendsOneMessage_bind.
    + destruct (String.eqb (server decoded) "g.us" || String.eqb jid statusJid);
        [apply frames_relayToGroup, _|apply frames_relayDirect, _].
    + intros parts. apply sendsOneMessage_send; [reflexivity|unwritten_tac].
Qed.

End RelayEffects.

Section RelayGroupPatch.
Context `{WABinary} {W : Type} `{Collaborators W} (config : SocketConfig W).

Lemma callPatch_inr message recipients (s s' : Socket W) result :
  callPatch config message recipients s = (inr result, s') ->
  exists patch w',
    patchMessageBeforeSending config = Some patch
    /\ patch message recipients (world s) = (inr result, w').
Proof.
  unfold callPatch. destruct (patchMessageBeforeSending config) as [patch|]; [|discriminate].
  unfold io, zoom. destruct (patch message recipients (world s)) as [r w'] eqn:Ep.
  intros [= -> _]. eauto.
Qed.

Lemma relayToGroup_patched jid message participant isStatus statusJidList
  useUserDevicesCache useCachedGroupMetadata devices0 attrs0 extraAttrs
  (s s' : Socket W) parts :
  relayToGroup config jid message participant isStatus statusJidList
    useUserDevicesCache useCachedGroupMetadata devices0 attrs0 extraAttrs s
  = (inr parts, s') ->
  exists patch patchedMessage w w',
    patchMessageBeforeSending config = Some patch
    /\ patch message None w = (inr (PatchedOne patchedMessage), w').
Proof.
  intros Hr. unfold relayToGroup in Hr.
  inv_bind Hr. inv_bind Hr. inv_bind Hr. destruct a1 as [devices attrs1].
  inv_bind Hr. rename a1 into patched, Hrun2 into Hpatch.
  destruct patched as [patchedMessage|]; [|inv_ret Hr].
  apply callPatch_inr in Hpatch as (patch & w' & Hp & Hw). eauto 6.
Qed.

(** X19. With a patch callback that answers with an array (one message per
    recipient), a relay to a group or to the status feed never succeeds, and
    nothing is handed to [sendNode]. *)
Theorem relayMessage_group_per_jid_patch (jid : string) (message : IMessage)
  (opts : MessageRelayOptions) (s : Socket W) :
  isGroupOrStatus jid = true -> isNewsletter jid = false ->
  patchesPerRecipient config ->
  exists e,
    fst (relayMessage config jid message opts s) = inl e
    /\ sent (snd (relayMessage config jid message opts s)) = sent s.
Proof.
  intros Hg Hn Hpatch. unfold relayMessage.
  destruct (jidDecode jid) as [decoded|] eqn:Hd; [|eexists; split; reflexivity].
  rewrite (isNewsletter_decoded _ _ Hd) in Hn.
  rewrite (isGroupOrStatus_decoded _ _ Hd) in Hg. rewrite Hn, Hg.
  match goal with |- context [mbind ?k ?m s] => destruct (m s) as [[e|msgId] s1] eqn:Hid end.
  { rewrite (bind_fail _ _ _ _ _ Hid). exists e. split; [reflexivity|]. cbn [snd].
    destruct (JS.truthy (messageId opts)); [discriminate|]. framed Hid. }
  rewrite (bind_run _ _ _ _ _ Hid).
  assert (Hs1 : sent s1 = sent s).
  { destruct (JS.truthy (messageId opts)); [inv_ret Hid; congruence|framed Hid]. }
  match goal with |- context [mbind ?k ?m s1] => destruct (m s1) as [[e|[devices0 attrs1]] s2] eqn:Hdev end.
  { rewrite (bind_fail _ _ _ _ _ Hdev). exists e. split; [reflexivity|]. cbn [snd].
    rewrite <- Hs1. framed Hdev. }
  rewrite (bind_run _ _ _ _ _ Hdev).
  assert (Hs2 : sent s2 = sent s).
  { rewrite <- Hs1. framed Hdev. }
  match goal with |- context [mbind ?k ?m s2] => destruct (m s2) as [[e|parts] s3] eqn:Hparts end.
  - rewrite (bind_fail _ _ _ _ _ Hparts). exists e. split; [reflexivity|]. cbn [snd].
    rewrite <- Hs2. eapply frames_run; [|exact Hparts]. apply frames_relayToGroup, _.
  - exfalso. apply relayToGroup_patched in Hparts as (patch & m & w & w' & Hp & Hw).
    destruct (Hpatch _ _ _ _ _ _ Hp Hw) as [l Hl]. discriminate.
Qed.

End RelayGroupPatch.

Section RelayRecentMessages.
Context `{WABinary} {W : Type} `{Collaborators W} (config : SocketConfig W).

(** X20. A successful relay is kept for retries exactly when the recent message
    cache is enabled, the destination is not a newsletter and no retry
    participant was given; it is then recorded under the destination and the
    message id returned. *)
Theorem relayMessage_recent_messages (jid : string) (message : IMessage)
  (opts : MessageRelayOptions) (s s' : Socket W) (msgId : string) :
  relayMessage config jid message opts s = (inr msgId, s') ->
  recentMessages s'
  = if negb (isNewsletter jid) && enableRecentMessageCache config
       && negb (bool_decide (is_Some (participant opts)))
    then recentMessages s ++ [(jid, msgId, message)]
    else recentMessages s.
Proof.
  intros Hr. unfold relayMessage in Hr.
  destruct (jidDecode jid) as [decoded|] eqn:Hd; [|inv_ret Hr].
  rewrite (isNewsletter_decoded _ _ Hd).
  inv_bind Hr. rename a into msgId', s0 into s1, Hrun into Hid.
  inv_bind Hr. destruct a as [devices0 attrs1]. rename s0 into s2, Hrun into Hdev.
  rewrite !destinationJid_eq in Hr.
  assert (Hs1 : recentMessages s1 = recentMessages s).
  { destruct (JS.truthy (messageId opts)); [inv_ret Hid; congruence|framed Hid]. }
  assert (Hs2 : recentMessages s2 = recentMessages s).
  { rewrite <- Hs1. framed Hdev. }
  destruct (String.eqb (server decoded) "newsletter"); cbn [negb andb].
  - inv_bind Hr. rename s0 into s3, Hrun into Hpatch.
    inv_bind Hr. rename s0 into s4, Hrun into Hsend. inv_ret Hr. subst s4.
    rewrite <- Hs2. transitivity (recentMessages s3).
    + eapply frames_run; [|exact Hsend]. unfold sendNode. frames_tac.
    + framed Hpatch.
  - inv_bind Hr. rename a into parts, s0 into s3, Hrun into Hparts.
    inv_bind Hr. rename s0 into s4, Hrun into Hsend.
    inv_bind Hr. rename s0 into s5, Hrun into Hrec. inv_ret Hr. subst s5 msgId'.
    assert (Hs4 : recentMessages s4 = recentMessages s).
    { rewrite <- Hs2. transitivity (recentMessages s3).
      - eapply frames_run; [|exact Hsend]. unfold sendNode. frames_tac.
      - eapply frames_run; [|exact Hparts].
        destruct (String.eqb (server decoded) "g.us" || String.eqb jid statusJid);
          [apply frames_relayToGroup, _|apply frames_relayDirect, _]. }
    destruct (enableRecentMessageCache config
              && negb (bool_decide (is_Some (participant opts)))).
    + unfold modify in Hrec. apply (f_equal snd) in Hrec. cbn [snd] in Hrec.
      subst s'. cbn. rewrite Hs4. reflexivity.
    + inv_ret Hrec. congruence.
Qed.

End RelayRecentMessages.

Section RelayPeer.
Context `{WABinary} {W : Type} `{Collaborators W} (config : SocketConfig W).

(** X21. A successful fresh 1:1 relay with [category = peer] among the caller's
    attributes has no [<participants>] wrapper: the stanza keeps the
    category, and its children are at most one [<enc>] (that of the first
    envelope), then the device identity and business nodes if any, then the
    caller's [additionalNodes]. *)
Theorem relayMessage_peer (jid : string) (message : IMessage)
  (opts : MessageRelayOptions) (s s' : Socket W) (msgId : string)
  (a : gmap string string) :
  additionalAttributes opts = Some a -> a !! "category" = Some "peer" ->
  participant opts = None ->
  isGroupOrStatus jid = false -> isNewsletter jid = false ->
  relayMessage config jid message opts s = (inr msgId, s') ->
  exists stanza encs rest,
    sent s' = sent s ++ [stanza]
    /\ attrs stanza !! "category" = Some "peer"
    /\ childNodes stanza = encs ++ rest ++ default [] (additionalNodes opts)
    /\ Forall (fun n => tag n = "enc") encs
    /\ (length encs <= 1)%nat
    /\ Forall (fun n => tag n = "device-identity" \/ tag n = "biz") rest.
Proof.
  intros Ha Hcat Hp Hg Hn Hr. apply relayMessage_inr in Hr as (decoded & Hd & Hr).
  rewrite (isNewsletter_decoded _ _ Hd) in Hn.
  rewrite (isGroupOrStatus_decoded _ _ Hd) in Hg. rewrite Hn, Hg in Hr.
  destruct Hr as (parts & devices0 & attrs1 & extraAttrs & uc & gc & meMsg & s1 & s2
                  & Hty & Hsent1 & _ & _ & Hparts & Hsent & _ & _ & Hattrs).
  specialize (Hattrs Hp). rewrite Ha in Hattrs. cbn in Hattrs. subst attrs1.
  apply relayDirect_inr in Hparts as (Hsent2 & _ & _ & Hcontent & Hrattrs & Hshape & _).
  eexists _, _, _. split; [rewrite Hsent, Hsent2, Hsent1; reflexivity|].
  unfold assembleStanza. cbn [attrs childNodes content]. rewrite Hcontent, Hrattrs, Hcat, Hp.
  rewrite bool_decide_eq_true_2 by reflexivity. cbn [app].
  rewrite (app_assoc (if r_identity parts then _ else _) _ _).
  split; [|split; [reflexivity|]].
  - unfold routeStanza. rewrite lookup_insert_ne by discriminate.
    rewrite lookup_union_l'; [exact Hcat|]. rewrite Hcat. eauto.
  - split; [|split].
    + destruct (r_participants parts) as [|first more]; [constructor|].
      destruct (Hshape first (or_introl eq_refl)) as (j & t & c & -> & _).
      cbn. repeat constructor.
    + destruct (r_participants parts) as [|first more]; [cbn; lia|].
      destruct (childNodes first); cbn; lia.
    + apply Forall_app. split.
      * destruct (r_identity parts); repeat constructor.
      * destruct (getButtonType message); [|constructor].
        constructor; [now right|constructor].
Qed.

End RelayPeer.

Section RelayOwnDevice.
Context `{WABinary} {W : Type} `{Collaborators W} (config : SocketConfig W).

(** Lines 836-843: the sender's own primary device is among the recipients,
    found by the device query or added after it. *)
Lemma groupRecipients_own_device isStatus groupData statusJidList useCache attrs0
  (s s' : Socket W) devices attrs1 (myJid myUser : string) :
  groupRecipients config isStatus groupData statusJidList useCache attrs0 s
  = (inr (devices, attrs1), s') ->
  (if isLidGroupData groupData then meLid config else Some (meId config)) = Some myJid ->
  myJid <> "" -> user <$> jidDecode myJid = Some myUser -> myUser <> "" ->
  exists d, In d devices /\ d_user d = myUser /\ d_device d = Some 0.
Proof.
  intros Hr Hjid Hne Hu Hune. unfold groupRecipients in Hr.
  inv_bind Hr. inv_bind Hr. inv_bind Hr. rename a1 into additionalDevices.
  inv_ret Hr. injection H1 as <- _. clear Hrun Hrun0 Hrun1.
  rewrite Hjid. cbn [mbind option_bind]. rewrite Hu.
  destruct (existsb _ additionalDevices) eqn:Ex.
  - apply existsb_exists in Ex as (d & Hd & Hp). apply andb_prop in Hp as [Hp1 Hp2].
    exists d. split; [apply in_or_app; now left|].
    unfold JS.seq in Hp1. apply bool_decide_eq_true in Hp1, Hp2.
    injection Hp1 as Hp1. auto.
  - cbn [negb andb JS.truthy]. rewrite (truthyStr_ne _ Hne), (truthyStr_ne _ Hune).
    cbn [andb]. eexists. split; [apply in_or_app; right; left; reflexivity|].
    split; reflexivity.
Qed.

(** X22. In a fresh successful relay to a group or to the status feed, the
    sender's own primary device (device 0 of the PN user, or of the LID user
    in a LID-addressed group) is among the devices that get the sender key:
    the sender-key memory written back marks it. *)
Theorem relayMessage_group_own_device (jid : string) (message : IMessage)
  (opts : MessageRelayOptions) (s s' : Socket W) (msgId pnUser lidJid lidUser : string) :
  participant opts = None -> isGroupOrStatus jid = true -> isNewsletter jid = false ->
  meId config <> "" -> user <$> jidDecode (meId config) = Some pnUser -> pnUser <> "" ->
  meLid config = Some lidJid -> lidJid <> "" ->
  user <$> jidDecode lidJid = Some lidUser -> lidUser <> "" ->
  relayMessage config jid message opts s = (inr msgId, s') ->
  exists d,
    (d_user d = pnUser \/ d_user d = lidUser)
    /\ d_device d = Some 0
    /\ senderKeyMemory s' !! jid ≫= (fun m : gmap string bool => m !! senderIdOf d)
       = Some true.
Proof.
  intros Hp Hg Hn Hme Hpn Hpnu Hlid Hlne Hl Hlu Hr.
  apply relayMessage_inr in Hr as (decoded & Hd & Hr).
  rewrite (isNewsletter_decoded _ _ Hd) in Hn.
  rewrite (isGroupOrStatus_decoded _ _ Hd) in Hg. rewrite Hn, Hg, Hp in Hr.
  destruct Hr as (parts & devices0 & attrs1 & extraAttrs & uc & gc & meMsg & s1 & s2
                  & _ & _ & _ & Hmem1 & Hparts & _ & _ & Hmem & _).
  apply relayToGroup_inr in Hparts as (_ & _ & _ & _ & _ & Hfresh).
  destruct (Hfresh eq_refl) as (groupData & devices & attrs2 & sa & sb & Hdev & Hmap & _).
  assert (Hown : exists d, In d devices /\ (d_user d = pnUser \/ d_user d = lidUser)
                           /\ d_device d = Some 0).
  { destruct (isLidGroupData groupData) eqn:El.
    - destruct (groupRecipients_own_device _ _ _ _ _ _ _ _ _ lidJid lidUser Hdev)
        as (d & Hin & Hu & Hz); auto; [now rewrite El|]. eauto.
    - destruct (groupRecipients_own_device _ _ _ _ _ _ _ _ _ (meId config) pnUser Hdev)
        as (d & Hin & Hu & Hz); auto; [now rewrite El|]. eauto. }
  destruct Hown as (d & Hin & Hu & Hz). exists d. split; [exact Hu|]. split; [exact Hz|].
  rewrite Hmem, Hmap. cbn [mbind option_bind].
  apply markAll_marks. left. apply in_map. exact Hin.
Qed.

End RelayOwnDevice.

Section RelayStanzaId.
Context `{WABinary} {W : Type} `{Collaborators W} (config : SocketConfig W).

Lemma groupRecipients_attrs isStatus groupData statusJidList useCache attrs0
  (s s' : Socket W) devices attrs1 (k : string) :
  groupRecipients config isStatus groupData statusJidList useCache attrs0 s
  = (inr (devices, attrs1), s') ->
  k <> "addressing_mode" -> attrs1 !! k = attrs0 !! k.
Proof.
  intros Hr Hk. unfold groupRecipients in Hr.
  inv_bind Hr. inv_bind Hr. inv_bind Hr. inv_ret Hr. injection H1 as _ <-.
  destruct (negb isStatus); [|reflexivity].
  rewrite lookup_insert_ne by congruence. reflexivity.
Qed.

(** The attributes a group relay adds to the caller's are [addressing_mode]
    and [expiration]; the others come out as they went in. *)
Lemma relayToGroup_attrs jid message participant isStatus statusJidList
  useUserDevicesCache useCachedGroupMetadata devices0 attrs0 extraAttrs
  (s s' : Socket W) parts (k : string) :
  relayToGroup config jid message participant isStatus statusJidList
    useUserDevicesCache useCachedGroupMetadata devices0 attrs0 extraAttrs s
  = (inr parts, s') ->
  k <> "addressing_mode" -> k <> "expiration" ->
  r_attrs parts !! k = attrs0 !! k.
Proof.
  intros Hr Hk1 Hk2. unfold relayToGroup in Hr.
  inv_bind Hr. rename a into groupData.
  inv_bind Hr. inv_bind Hr. destruct a0 as [devices attrs1]. rename Hrun1 into Hdev.
  inv_bind Hr. rename a0 into patched.
  destruct patched as [patchedMessage|]; [|inv_ret Hr].
  inv_bind Hr. destruct a0 as [ciphertext skdm].
  inv_bind Hr. destruct a0 as [nodes identity].
  assert (Ha : attrs1 !! k = attrs0 !! k).
  { destruct participant.
    - inv_ret Hdev. now injection H1 as _ <-.
    - eapply groupRecipients_attrs; eauto. }
  assert (Hp : r_attrs parts
               = match groupData ≫= g_ephemeralDuration with
                 | Some e => if 0 <? e then <["expiration" := JS.showZ e]> attrs1 else attrs1
                 | None => attrs1
                 end).
  { destruct participant as [p|]; [destruct (JS.truthyStr (rp_jid p))|];
      inv_bind Hr;
      try match goal with x : (CiphertextType * Bytes)%type |- _ => destruct x end;
      inv_ret Hr; subst; reflexivity. }
  rewrite Hp, <- Ha.
  destruct (groupData ≫= g_ephemeralDuration) as [e|]; [|reflexivity].
  destruct (0 <? e); [|reflexivity].
  rewrite lookup_insert_ne by congruence. reflexivity.
Qed.

(** X23. The id [relayMessage] returns is the caller's [messageId] when one was
    given, and it is the [id] of the stanza sent, whose [type] is that of
    [getMessageType], unless the caller's [additionalAttributes] set [id] or
    [type] themselves. *)
Theorem relayMessage_stanza_id (jid : string) (message : IMessage)
  (opts : MessageRelayOptions) (s s' : Socket W) (msgId : string) :
  relayMessage config jid message opts s = (inr msgId, s') ->
  (JS.truthy (messageId opts) = true -> messageId opts = Some msgId)
  /\ exists stanza,
       sent s' = sent s ++ [stanza]
       /\ tag stanza = "message"
       /\ (default ∅ (additionalAttributes opts) !! "id" = None ->
           attrs stanza !! "id" = Some msgId)
       /\ (default ∅ (additionalAttributes opts) !! "type" = None ->
           attrs stanza !! "type" = Some (getMessageType message)).
Proof.
  intros Hr. unfold relayMessage in Hr.
  destruct (jidDecode jid) as [decoded|] eqn:Hd; [|inv_ret Hr].
  inv_bind Hr. rename a into msgId', s0 into s1, Hrun into Hid.
  inv_bind Hr. destruct a as [devices0 attrs1]. rename s0 into s2, Hrun into Hdev.
  rewrite !destinationJid_eq in Hr.
  assert (Hs1 : sent s1 = sent s).
  { destruct (JS.truthy (messageId opts)); [inv_ret Hid; congruence|framed Hid]. }
  assert (Hs2 : sent s2 = sent s) by (rewrite <- Hs1; framed Hdev).
  assert (Ha : forall k, k <> "device_fanout" ->
                         attrs1 !! k = default ∅ (additionalAttributes opts) !! k).
  { intros k Hk. destruct (participant opts) as [p|].
    - destruct (jidDecode (rp_jid p)); [|inv_ret Hdev].
      inv_ret Hdev. injection H1 as _ <-.
      destruct (negb _ && negb _); [|reflexivity].
      rewrite lookup_insert_ne by congruence. reflexivity.
    - inv_ret Hdev. now injection H1 as _ <-. }
  assert (Hmsg : msgId' = msgId
                 /\ exists stanza, sent s' = sent s ++ [stanza] /\ tag stanza = "message"
                      /\ forall k, (k = "id" \/ k = "type") ->
                           default ∅ (additionalAttributes opts) !! k = None ->
                           attrs stanza !! k
                           = (<["type" := getMessageType message]>
                                (<["id" := msgId']> (∅ : gmap string string))) !! k).
  { destruct (String.eqb (server decoded) "newsletter").
    - inv_bind Hr. rename s0 into s3, Hrun into Hpatch.
      inv_bind Hr. destruct a0. rename s0 into s4, Hrun into Hsend. inv_ret Hr. subst s4.
      split; [assumption|]. eexists. split.
      { rewrite (sendNode_inr _ _ _ Hsend). f_equal. rewrite <- Hs2. framed Hpatch. }
      split; [reflexivity|].
      { intros k Hk Hnone. cbn [attrs].
        rewrite lookup_union_r by (rewrite Ha; [exact Hnone|destruct Hk as [->| ->]; discriminate]).
        destruct Hk as [->| ->]; repeat first
          [rewrite lookup_insert_eq|rewrite lookup_insert_ne by discriminate]; reflexivity. }
    - inv_bind Hr. rename a into parts, s0 into s3, Hrun into Hparts.
      inv_bind Hr. destruct a. rename s0 into s4, Hrun into Hsend.
      inv_bind Hr. rename s0 into s5, Hrun into Hrec. inv_ret Hr. subst s5.
      split; [assumption|]. eexists. split.
      { transitivity (sent s4).
        { destruct (enableRecentMessageCache config && _); [|inv_ret Hrec; congruence].
          unfold modify in Hrec. apply (f_equal snd) in Hrec. cbn [snd] in Hrec.
          now subst s'. }
        rewrite (sendNode_inr _ _ _ Hsend). f_equal. rewrite <- Hs2.
        eapply frames_run; [|exact Hparts].
        destruct (String.eqb (server decoded) "g.us" || String.eqb jid statusJid);
          [apply frames_relayToGroup, _|apply frames_relayDirect, _]. }
      split; [reflexivity|].
      { intros k Hk Hnone.
        assert (Hr_attrs : r_attrs parts !! k = None).
        { rewrite <- Hnone, <- Ha by (destruct Hk as [->| ->]; discriminate).
          destruct (String.eqb (server decoded) "g.us" || String.eqb jid statusJid).
          - eapply relayToGroup_attrs; [exact Hparts| |]; destruct Hk as [->| ->]; discriminate.
          - apply relayDirect_inr in Hparts as (_ & _ & _ & _ & -> & _). reflexivity. }
        unfold assembleStanza. cbn [attrs]. unfold routeStanza.
        assert (Hroute : forall (m : gmap string string) p,
                   (<["participant" := rp_jid p]> (<["to" := jid]> m)) !! k = m !! k
                   /\ (<["recipient" := jid]> (<["to" := rp_jid p]> m)) !! k = m !! k
                   /\ (<["to" := rp_jid p]> m) !! k = m !! k
                   /\ (<["to" := jid]> m) !! k = m !! k).
        { intros m p. destruct Hk as [->| ->];
            repeat split; repeat rewrite lookup_insert_ne by discriminate; reflexivity. }
        match goal with |- context [r_attrs parts ∪ ?base] => set (b := base) end.
        assert (Hbase : (r_attrs parts ∪ b) !! k
                        = (<["type" := getMessageType message]>
                             (<["id" := msgId']> (∅ : gmap string string))) !! k).
        { rewrite lookup_union_r by exact Hr_attrs. unfold b.
          destruct Hk as [->| ->]; repeat first
            [rewrite lookup_insert_eq|rewrite lookup_insert_ne by discriminate];
            reflexivity. }
        rewrite <- Hbase.
        destruct (participant opts) as [p|]; [|apply (Hroute _ {| rp_jid := ""; rp_count := 0 |})].
        destruct (isJidGroup jid); [apply Hroute|].
        destruct (areJidsSameUser (rp_jid p) (meId config)); apply Hroute. } }
  destruct Hmsg as (-> & stanza & Hsent & Htag & Hattrs). split.
  - intros Ht. rewrite Ht in Hid. inv_ret Hid.
    destruct (messageId opts) as [m|]; [|discriminate]. cbn in H1. now subst.
  - exists stanza. split; [exact Hsent|]. split; [exact Htag|]. split; intros Hnone.
    + rewrite (Hattrs "id") by auto.
      rewrite lookup_insert_ne by discriminate. apply lookup_insert_eq.
    + rewrite (Hattrs "type") by auto. apply lookup_insert_eq.
Qed.

End RelayStanzaId.

Section LIDMappingBatches.
Context `{WABinary}.

(** A truthy cache entry answers [getLIDForPN] and the store stays as it
    is. *)
Lemma getLIDForPN_cached (pn : string) (d : FullJid) (l : string) (st : LIDMappingStore) :
  isPnUser pn = true -> jidDecode pn = Some d ->
  mappingCache st !! ("pn:" +:+ user d) = Some l -> l <> "" ->
  getLIDForPN pn st = (inr (Some (l +:+ "@lid")), st).
Proof.
  intros Hpn Hd Hc Hl. unfold getLIDForPN. rewrite Hpn, Hd. cbn [negb].
  unfold mbind, M_bind, cacheGet, gets. cbn [fst snd]. rewrite Hc. cbn [JS.truthy].
  rewrite (truthyStr_ne _ Hl). cbn. rewrite (truthyStr_ne _ Hl). reflexivity.
Qed.

(** X24. [storeLIDPNMappings] of a whole batch, then [getLIDForPN]: when the
    valid pairs of the batch decode, each to a non-empty LID user, and the
    call has returned, [getLIDForPN] of the PN JID of every valid pair is
    answered from the cache, the store staying as it is, with the LID of a
    valid pair of the batch that has the same PN user. *)
Theorem storeLIDPNMappings_batch_lookup (pairs : list (string * string))
  (st st' : LIDMappingStore) :
  (forall j, isLidUser j = true -> isPnUser j = false) ->
  (forall p, In p pairs -> validPair p = true ->
     exists lu pu, pairUsers p = Some (lu, pu) /\ lu <> "") ->
  storeLIDPNMappings pairs st = (inr tt, st') ->
  forall p lu pu, In p pairs -> validPair p = true -> pairUsers p = Some (lu, pu) ->
    exists p' lu',
      In p' pairs /\ validPair p' = true /\ pairUsers p' = Some (lu', pu)
      /\ getLIDForPN (snd (orderedPair p)) st' = (inr (Some (lu' +:+ "@lid")), st').
Proof.
  intros Hexcl Hall Hrun p lu pu Hp Hv Hpu.
  destruct (storeLIDPNMappings_stored pairs st) as (st'' & Hrun' & Hstored).
  { intros q Hq Hvq. destruct (Hall q Hq Hvq) as (? & ? & -> & _). eauto. }
  rewrite Hrun in Hrun'. injection Hrun' as <-.
  assert (Hfound : exists p' lu', In p' pairs /\ validPair p' = true
                     /\ pairUsers p' = Some (lu', pu) /\ lu' <> ""
                     /\ mappingCache st' !! ("pn:" +:+ pu) = Some lu').
  { destruct (Hstored p lu pu Hp Hv Hpu) as [[_ Hc]|(p' & lu' & Hp' & Hv' & Hpp' & Hc & _)].
    - destruct (Hall p Hp Hv) as (lu2 & pu2 & Hpp2 & Hne). rewrite Hpu in Hpp2.
      injection Hpp2 as <- <-. exists p, lu. repeat split; auto.
    - destruct (Hall p' Hp' Hv') as (lu2 & pu2 & Hpp2 & Hne). rewrite Hpp' in Hpp2.
      injection Hpp2 as <- <-. exists p', lu'. repeat split; auto. }
  destruct Hfound as (p' & lu' & Hp' & Hv' & Hpp' & Hne & Hc).
  assert (Hpn : isPnUser (snd (orderedPair p)) = true).
  { destruct p as [a b]. unfold orderedPair, validPair in *. cbn [fst snd] in *.
    destruct (isLidUser a) eqn:Ea; cbn [snd].
    - rewrite (Hexcl a Ea) in Hv. cbn in Hv. rewrite orb_false_r in Hv.
      now destruct (isPnUser b).
    - cbn in Hv. now apply andb_true_iff in Hv as [? _]. }
  unfold pairUsers in Hpu.
  destruct (jidDecode (fst (orderedPair p))) as [dl|]; [|discriminate].
  destruct (jidDecode (snd (orderedPair p))) as [dp|] eqn:Edp; [|discriminate].
  cbn in Hpu. injection Hpu as <- <-.
  exists p', lu'. split; [exact Hp'|]. split; [exact Hv'|]. split; [exact Hpp'|].
  now apply (getLIDForPN_cached _ dp).
Qed.

End LIDMappingBatches.


Section ObjGroups.
Context {V : Type}.


End ObjGroups.

Section USyncFetch.
Context `{WABinary} {W : Type} `{Collaborators W} (config : SocketConfig W).






End USyncFetch.

Section GroupMappings.
Context `{WABinary} {W : Type} `{Collaborators W}.

Lemma truthy_keyOf (o : option string) : JS.truthy o = true -> o = Some (JS.keyOf o).
Proof. destruct o; [reflexivity|discriminate]. Qed.

(** The mappings collected from the participants: both JIDs of every
    participant with a LID of its own are keys, and every entry pairs the
    LID and the phone JID of one such participant. *)
Lemma lidMappings_collected (ps : list GroupParticipant) (m0 : gmap string string) :
  let step := fun (m : gmap string string) p =>
    if JS.truthy (p_lid p) && JS.truthy (JS.orElse (p_jid p) (p_id p))
       && negb (JS.seq (p_lid p) (JS.orElse (p_jid p) (p_id p)))
    then <[JS.keyOf (JS.orElse (p_jid p) (p_id p)) := JS.keyOf (p_lid p)]>
           (<[JS.keyOf (p_lid p) := JS.keyOf (JS.orElse (p_jid p) (p_id p))]> m)
    else m in
  let m := fold_left step ps m0 in
  (forall k, is_Some (m0 !! k) -> is_Some (m !! k))
  /\ (forall p, In p ps -> hasDistinctLid p = true ->
      is_Some (m !! JS.keyOf (p_lid p)) /\ is_Some (m !! JS.keyOf (phoneJidOf p)))
  /\ (forall k v, m !! k = Some v ->
      m0 !! k = Some v
      \/ (k <> v /\ exists p, In p ps /\ hasDistinctLid p = true
                     /\ ((p_lid p = Some k /\ phoneJidOf p = Some v)
                         \/ (p_lid p = Some v /\ phoneJidOf p = Some k))))
  /\ (existsb hasDistinctLid ps = false -> m = m0).
Proof.
  cbv zeta. revert m0. induction ps as [|p ps IH]; intros m0.
  - cbn. split; [auto|]. split; [tauto|]. split; [auto|]. reflexivity.
  - cbn [fold_left existsb].
    match goal with |- context [fold_left ?f ps ?a] => set (step := f); set (m1 := a) end.
    destruct (IH m1) as (Hkeep & Hkeys & Hfrom & Hsame). fold step in Hkeep, Hkeys, Hfrom, Hsame.
    assert (Hm1 : (hasDistinctLid p = false /\ m1 = m0)
                  \/ (hasDistinctLid p = true
                      /\ m1 = <[JS.keyOf (phoneJidOf p) := JS.keyOf (p_lid p)]>
                                (<[JS.keyOf (p_lid p) := JS.keyOf (phoneJidOf p)]> m0))).
    { unfold m1, hasDistinctLid, phoneJidOf.
      destruct (JS.truthy (p_lid p) && JS.truthy (JS.orElse (p_jid p) (p_id p))
                && negb (JS.seq (p_lid p) (JS.orElse (p_jid p) (p_id p)))); auto. }
    split; [|split; [|split]].
    + intros k Hk. apply Hkeep. destruct Hm1 as [[_ ->]|[_ ->]]; [exact Hk|].
      destruct (decide (k = JS.keyOf (phoneJidOf p))) as [->|?];
        [rewrite lookup_insert_eq; eauto|rewrite lookup_insert_ne by congruence].
      destruct (decide (k = JS.keyOf (p_lid p))) as [->|?];
        [rewrite lookup_insert_eq; eauto|rewrite lookup_insert_ne by congruence].
      exact Hk.
    + intros q [<-|Hq] Hd; [|now apply Hkeys].
      destruct Hm1 as [[Hf _]|[_ ->]]; [congruence|].
      split; apply Hkeep.
      * destruct (decide (JS.keyOf (p_lid p) = JS.keyOf (phoneJidOf p))) as [->|?];
          [rewrite lookup_insert_eq; eauto|rewrite lookup_insert_ne by congruence].
        rewrite lookup_insert_eq. eauto.
      * rewrite lookup_insert_eq. eauto.
    + intros k v Hkv. destruct (Hfrom k v Hkv) as [Hin|(Hne & q & Hq & Hd & Hpair)].
      * destruct Hm1 as [[_ ->]|[Hd ->]]; [now left|].
        assert (Hl : p_lid p = Some (JS.keyOf (p_lid p))).
        { apply truthy_keyOf. unfold hasDistinctLid in Hd.
          now apply andb_true_iff in Hd as [Hd _]; apply andb_true_iff in Hd as [? _]. }
        assert (Hp : phoneJidOf p = Some (JS.keyOf (phoneJidOf p))).
        { apply truthy_keyOf. unfold hasDistinctLid in Hd.
          now apply andb_true_iff in Hd as [Hd _]; apply andb_true_iff in Hd as [_ ?]. }
        assert (Hne : JS.keyOf (p_lid p) <> JS.keyOf (phoneJidOf p)).
        { unfold hasDistinctLid in Hd. apply andb_true_iff in Hd as [_ Hd].
          apply negb_true_iff, bool_decide_eq_false in Hd. congruence. }
        destruct (decide (k = JS.keyOf (phoneJidOf p))) as [->|Hk1].
        { rewrite lookup_insert_eq in Hin. injection Hin as <-. right.
          split; [congruence|]. exists p. split; [now left|]. split; [exact Hd|].
          right. split; congruence. }
        rewrite lookup_insert_ne in Hin by congruence.
        destruct (decide (k = JS.keyOf (p_lid p))) as [->|Hk2].
        { rewrite lookup_insert_eq in Hin. injection Hin as <-. right.
          split; [congruence|]. exists p. split; [now left|]. split; [exact Hd|].
          left. split; congruence. }
        rewrite lookup_insert_ne in Hin by congruence. now left.
      * right. split; [exact Hne|]. exists q. split; [now right|]. auto.
    + intros He. apply orb_false_iff in He as [Hp Hps].
      rewrite (Hsame Hps). destruct Hm1 as [[_ ->]|[Hd _]]; [reflexivity|congruence].
Qed.

Lemma lidMappings_nonempty (ps : list GroupParticipant) (m : gmap string string) :
  (forall p, In p ps -> hasDistinctLid p = true -> is_Some (m !! JS.keyOf (p_lid p))) ->
  existsb hasDistinctLid ps = true -> m <> ∅.
Proof.
  intros Hkeys He -> . apply existsb_exists in He as (p & Hp & Hd).
  destruct (Hkeys p Hp Hd) as [v Hv]. rewrite lookup_empty in Hv. discriminate.
Qed.

(** X26. The per-group LID mappings after [storeLIDMappingsAndParticipants], the
    clock not failing: the entries of other groups are as before; with no
    participant that has a LID apart from its phone JID the cache is not
    written at all (what it held for the group stays); otherwise the group's
    entry is replaced by mappings in which every such participant has both
    its JIDs as keys, and every entry pairs the LID and the phone JID of one
    of them, no JID being mapped to itself. *)
Theorem storeLIDMappingsAndParticipants_mappings (metadata : GroupMetadata)
  (ps : list GroupParticipant) (s : Socket W) (now : Z) (w : W) :
  g_participants metadata = Some ps ->
  dateNow (world s) = (inr now, w) ->
  exists s',
    storeLIDMappingsAndParticipants metadata s = (inr tt, s')
    /\ (forall g, g <> g_id metadata -> lidMappingCache s' !! g = lidMappingCache s !! g)
    /\ if existsb hasDistinctLid ps
       then exists m,
           getLIDMappings (g_id metadata) s' = (inr m, s')
           /\ (forall p, In p ps -> hasDistinctLid p = true ->
               is_Some (m !! JS.keyOf (p_lid p)) /\ is_Some (m !! JS.keyOf (phoneJidOf p)))
           /\ (forall k v, m !! k = Some v ->
               k <> v
               /\ exists p, In p ps /\ hasDistinctLid p = true
                    /\ ((p_lid p = Some k /\ phoneJidOf p = Some v)
                        \/ (p_lid p = Some v /\ phoneJidOf p = Some k)))
       else lidMappingCache s' = lidMappingCache s.
Proof.
  intros Hps Hnow. unfold storeLIDMappingsAndParticipants, tryCatch. rewrite Hps.
  destruct (lidMappings_collected ps ∅) as (_ & Hkeys & Hfrom & Hsame). cbv zeta in *.
  match type of Hsame with _ -> ?x = _ => set (m := x) in * end.
  unfold mbind, M_bind at 1. unfold io, zoom at 1. rewrite Hnow.
  unfold mbind, M_bind, modify. cbn [fst snd].
  destruct (existsb hasDistinctLid ps) eqn:He.
  - assert (Hne : m <> ∅).
    { apply (lidMappings_nonempty ps); [|exact He]. intros p Hp Hd. now apply Hkeys. }
    rewrite bool_decide_eq_false_2 by exact Hne.
    eexists. split; [reflexivity|]. cbn [lidMappingCache setLidMappingCache
      setGroupMetadataCache setWorld]. split.
    + intros g Hg. now rewrite lookup_insert_ne by congruence.
    + exists m. split.
      * unfold getLIDMappings, gets. f_equal. f_equal. cbn [lidMappingCache setLidMappingCache].
        now rewrite lookup_insert_eq.
      * split; [exact Hkeys|]. intros k v Hkv.
        destruct (Hfrom k v Hkv) as [Hin|?]; [|assumption].
        rewrite lookup_empty in Hin. discriminate.
  - rewrite (Hsame eq_refl). rewrite bool_decide_eq_true_2 by reflexivity.
    eexists. split; [reflexivity|]. cbn. split; [reflexivity|reflexivity].
Qed.

End GroupMappings.

Section RelayAttributes.
Context `{WABinary} {W : Type} `{Collaborators W} (config : SocketConfig W).

(** The stanza of a successful relay: its attributes, apart from those the
    relay sets itself, are the caller's, completed by [id] and [type]; the
    caller's nodes are its last children, except in a newsletter. *)
Lemma relayMessage_stanza (jid : string) (message : IMessage)
  (opts : MessageRelayOptions) (s s' : Socket W) (msgId : string) :
  relayMessage config jid message opts s = (inr msgId, s') ->
  (JS.truthy (messageId opts) = true -> messageId opts = Some msgId)
  /\ exists stanza,
    sent s' = sent s ++ [stanza]
    /\ (forall k, ~ In k relayOwnAttributes ->
        attrs stanza !! k
        = (default ∅ (additionalAttributes opts)
             ∪ <["type" := getMessageType message]> {["id" := msgId]}) !! k)
    /\ (isNewsletter jid = false ->
        exists body, childNodes stanza = body ++ default [] (additionalNodes opts)).
Proof.
  intros Hr. unfold relayMessage in Hr.
  destruct (jidDecode jid) as [decoded|] eqn:Hd; [|inv_ret Hr].
  inv_bind Hr. rename a into msgId', s0 into s1, Hrun into Hid.
  inv_bind Hr. destruct a as [devices0 attrs1]. rename s0 into s2, Hrun into Hdev.
  rewrite !destinationJid_eq in Hr.
  assert (Hs1 : sent s1 = sent s).
  { destruct (JS.truthy (messageId opts)); [inv_ret Hid; congruence|framed Hid]. }
  assert (Hs2 : sent s2 = sent s) by (rewrite <- Hs1; framed Hdev).
  assert (Ha : forall k, k <> "device_fanout" ->
                         attrs1 !! k = default ∅ (additionalAttributes opts) !! k).
  { intros k Hk. destruct (participant opts) as [p|].
    - destruct (jidDecode (rp_jid p)); [|inv_ret Hdev].
      inv_ret Hdev. injection H1 as _ <-.
      destruct (negb _ && negb _); [|reflexivity].
      rewrite lookup_insert_ne by congruence. reflexivity.
    - inv_ret Hdev. now injection H1 as _ <-. }
  assert (Hown : forall k, ~ In k relayOwnAttributes ->
                   k <> "to" /\ k <> "participant" /\ k <> "recipient"
                   /\ k <> "device_fanout" /\ k <> "addressing_mode" /\ k <> "expiration").
  { intros k Hk. unfold relayOwnAttributes in Hk. cbn [In] in Hk.
    repeat split; intros ->; tauto. }
  assert (Hunion : forall (a a' b b' : gmap string string) k,
             a !! k = a' !! k -> b !! k = b' !! k -> (a ∪ b) !! k = (a' ∪ b') !! k).
  { intros a a' b b' k Ha' Hb'. rewrite !lookup_union, Ha', Hb'. reflexivity. }
  rewrite (isNewsletter_decoded _ _ Hd).
  assert (Hmsg : msgId' = msgId
    /\ exists stanza,
    sent s' = sent s ++ [stanza]
    /\ (forall k, ~ In k relayOwnAttributes ->
        attrs stanza !! k
        = (default ∅ (additionalAttributes opts)
             ∪ <["type" := getMessageType message]> {["id" := msgId']}) !! k)
    /\ (String.eqb (server decoded) "newsletter" = false ->
        exists body, childNodes stanza = body ++ default [] (additionalNodes opts))).
  { destruct (String.eqb (server decoded) "newsletter").
  - inv_bind Hr. rename s0 into s3, Hrun into Hpatch.
    inv_bind Hr. destruct a0. rename s0 into s4, Hrun into Hsend. inv_ret Hr. subst s4.
    split; [assumption|]. eexists. split.
    { rewrite (sendNode_inr _ _ _ Hsend). f_equal. rewrite <- Hs2. framed Hpatch. }
    split; [|discriminate].
    intros k Hk. destruct (Hown k Hk) as (Hto & _ & _ & Hf & _).
    cbn [attrs]. apply Hunion; [now apply Ha|].
    destruct (decide (k = "type")) as [->|Hty];
      [now rewrite !lookup_insert_eq|rewrite !(lookup_insert_ne _ "type") by congruence].
    destruct (decide (k = "id")) as [->|Hi];
      [rewrite lookup_insert_eq; symmetry; apply lookup_singleton_eq|].
    rewrite lookup_insert_ne by congruence.
    rewrite !lookup_singleton_ne by congruence. reflexivity.
  - inv_bind Hr. rename a into parts, s0 into s3, Hrun into Hparts.
    inv_bind Hr. destruct a. rename s0 into s4, Hrun into Hsend.
    inv_bind Hr. rename s0 into s5, Hrun into Hrec. inv_ret Hr. subst s5.
    split; [assumption|]. eexists. split.
    { transitivity (sent s4).
      { destruct (enableRecentMessageCache config && _); [|inv_ret Hrec; congruence].
        unfold modify in Hrec. apply (f_equal snd) in Hrec. cbn [snd] in Hrec.
        now subst s'. }
      rewrite (sendNode_inr _ _ _ Hsend). f_equal. rewrite <- Hs2.
      eapply frames_run; [|exact Hparts].
      destruct (String.eqb (server decoded) "g.us" || String.eqb jid statusJid);
        [apply frames_relayToGroup, _|apply frames_relayDirect, _]. }
    split.
    + intros k Hk. destruct (Hown k Hk) as (Hto & Hpa & Hre & Hf & Ham & Hex).
      assert (Hr_attrs : r_attrs parts !! k = default ∅ (additionalAttributes opts) !! k).
      { rewrite <- Ha by exact Hf.
        destruct (String.eqb (server decoded) "g.us" || String.eqb jid statusJid).
        - eapply relayToGroup_attrs; [exact Hparts| |]; assumption.
        - apply relayDirect_inr in Hparts as (_ & _ & _ & _ & -> & _). reflexivity. }
      unfold assembleStanza. cbn [attrs]. unfold routeStanza.
      match goal with |- context [r_attrs parts ∪ ?base] => set (b := base) end.
      assert (Hbase : (r_attrs parts ∪ b) !! k
                      = (default ∅ (additionalAttributes opts)
                           ∪ <["type" := getMessageType message]> {["id" := msgId']}) !! k).
      { apply Hunion; [exact Hr_attrs|]. unfold b.
        destruct (decide (k = "type")) as [->|Hty];
          [now rewrite !lookup_insert_eq|rewrite !(lookup_insert_ne _ "type") by congruence].
        rewrite lookup_insert_ne by congruence. reflexivity. }
      destruct (participant opts) as [p|].
      * destruct (isJidGroup jid); [|destruct (areJidsSameUser (rp_jid p) (meId config))];
          repeat rewrite lookup_insert_ne by congruence; exact Hbase.
      * rewrite lookup_insert_ne by congruence. exact Hbase.
    + intros _. unfold assembleStanza. cbn [childNodes content].
      eexists. rewrite !app_assoc. reflexivity. }
  destruct Hmsg as (-> & Hstanza). split; [|exact Hstanza].
  intros Ht. rewrite Ht in Hid. inv_ret Hid.
  destruct (messageId opts) as [m|]; [|discriminate]. cbn in H1. now subst.
Qed.

(** X27. The caller's [additionalAttributes] and [additionalNodes] in the stanza:
    every additional attribute is an attribute of the [<message>] sent, with
    its value ([id] and [type] included, which then replace the relay's),
    apart from those the relay sets itself ([to], [participant],
    [recipient], [device_fanout], [addressing_mode], [expiration]); the relay
    adds no attribute but these and [id] and [type]; and the additional nodes
    are the last children of the stanza, except in a newsletter. *)
Theorem relayMessage_additions (jid : string) (message : IMessage)
  (opts : MessageRelayOptions) (s s' : Socket W) (msgId : string) :
  relayMessage config jid message opts s = (inr msgId, s') ->
  exists stanza,
    sent s' = sent s ++ [stanza]
    /\ (forall k v, default ∅ (additionalAttributes opts) !! k = Some v ->
        ~ In k relayOwnAttributes -> attrs stanza !! k = Some v)
    /\ (forall k, default ∅ (additionalAttributes opts) !! k = None ->
        ~ In k relayOwnAttributes -> k <> "id" -> k <> "type" ->
        attrs stanza !! k = None)
    /\ (isNewsletter jid = false ->
        exists body, childNodes stanza = body ++ default [] (additionalNodes opts)).
Proof.
  intros Hr. apply relayMessage_stanza in Hr as (_ & stanza & Hsent & Hattrs & Hnodes).
  exists stanza. split; [exact Hsent|]. split; [|split; [|exact Hnodes]].
  - intros k v Hkv Hk. rewrite (Hattrs k Hk). now apply lookup_union_Some_l.
  - intros k Hnone Hk Hid Hty. rewrite (Hattrs k Hk).
    apply lookup_union_None. split; [exact Hnone|].
    rewrite lookup_insert_ne by congruence. now apply lookup_singleton_ne.
Qed.

End RelayAttributes.

Section SendMessage.
Context `{WABinary} {W : Type} `{Collaborators W} `{SendCollaborators W}.
Variable config : SocketConfig W.
Variable emitOwnEvents : bool.

(** X28. In a group, content with [disappearingMessagesInChat] sends no message:
    the call is one [set] query to the group, for [<ephemeral>] with the
    duration (the default one for [true]) or for [<not_ephemeral>] when the
    value is [false] or 0; nothing is handed to [sendNode], nothing but the
    outside world changes, and the call resolves to [undefined], the caller's
    objects untouched. *)
Theorem sendMessage_disappearing_in_group (jid : string) (content : AnyMessageContent)
  (options : MiscMessageGenerationOptions) (d : bool + Z) (s : Socket W) :
  isJidGroup jid = true ->
  disappearingMessagesInChat content = Some d ->
  let value := match d with
               | inl true => WA_DEFAULT_EPHEMERAL
               | inl false => 0
               | inr n => n
               end in
  let toggle :=
    Node "iq" (<["to" := jid]> (<["xmlns" := "w:g2"]> {["type" := "set"]}))
      (Children
         [if value =? 0 then Node "not_ephemeral" ∅ NoContent
          else Node "ephemeral" {["expiration" := JS.showZ value]} NoContent]) in
  let run := sendMessage config emitOwnEvents jid content options s in
  snd run = setWorld (snd (query toggle (world s))) s
  /\ fst run = match fst (query toggle (world s)) with
               | inr _ => inr (None, content, options)
               | inl e => inl e
               end.
Proof.
  intros Hg Hd value toggle run. unfold run, sendMessage. rewrite Hd, Hg.
  unfold groupToggleEphemeral, groupQuery, mbind, M_bind, io, zoom.
  assert (Hv : match d with
               | inl b => if b then WA_DEFAULT_EPHEMERAL else 0
               | inr n => n
               end = value).
  { unfold value. destruct d as [[|]|]; reflexivity. }
  rewrite Hv.
  assert (Hnode : (if negb (value =? 0)
                   then Node "ephemeral" {["expiration" := JS.showZ value]} NoContent
                   else Node "not_ephemeral" ∅ NoContent)
                  = (if value =? 0 then Node "not_ephemeral" ∅ NoContent
                     else Node "ephemeral" {["expiration" := JS.showZ value]} NoContent)).
  { destruct (value =? 0); reflexivity. }
  rewrite Hnode. fold toggle.
  destruct (query toggle (world s)) as [[e|r] w]; split; reflexivity.
Qed.

(** X29. A message that [sendMessage] relays: when the call returns it resolves
    to the message generated, exactly one [<message>] has been handed to
    [sendNode], its [id] is the id in the key of that message (when there is
    one), it has the [edit] attribute that goes with a deletion, an edit or
    a pin and no such attribute otherwise, and, except in a newsletter, its
    children end with the [<meta>] node of a poll or an event.  The caller's
    [content] and [options] are written to only for a group with
    [compatV6GroupSend]. *)
Theorem sendMessage_relayed (jid : string) (content content' : AnyMessageContent)
  (options options' : MiscMessageGenerationOptions) (result : option WAMessage)
  (s s' : Socket W) :
  (isJidGroup jid = false \/ disappearingMessagesInChat content = None) ->
  sendMessage config emitOwnEvents jid content options s
  = (inr (result, content', options'), s') ->
  exists fullMsg stanza,
    fst (generateWAMessage jid content options (world s)) = inr fullMsg
    /\ result = Some fullMsg
    /\ sent s' = sent s ++ [stanza]
    /\ (JS.truthy (wm_keyId fullMsg) = true -> attrs stanza !! "id" = wm_keyId fullMsg)
    /\ attrs stanza !! "edit" = editAttributes content !! "edit"
    /\ (isNewsletter jid = false ->
        exists body, childNodes stanza = body ++ metaNodes content)
    /\ (isJidGroup jid && compatV6GroupSend config = false ->
        content' = content /\ options' = options).
Proof.
  intros Hnormal Hr. unfold sendMessage in Hr.
  assert (Ht : match disappearingMessagesInChat content with
               | Some d => if isJidGroup jid then Some d else None
               | None => None
               end = None).
  { destruct Hnormal as [-> | ->]; [destruct (disappearingMessagesInChat content)|];
      reflexivity. }
  rewrite Ht in Hr. clear Ht.
  inv_bind Hr. rename a into fullMsg, s0 into s1, Hrun into Hgen.
  destruct (if isJidGroup jid && compatV6GroupSend config
            then normalizeGroupJidsInContent jid content options
            else (content, options)) as [c1 o1] eqn:Hnorm.
  inv_bind Hr. rename a into msgId, s0 into s2, Hrun into Hrelay.
  inv_bind Hr. rename s0 into s3, Hrun into Hupsert.
  apply ret_inr in Hr as [Hres <-]. injection Hres as <- <- <-.
  apply relayMessage_stanza in Hrelay as (Hid & stanza & Hsent & Hattrs & Hnodes).
  cbn [messageId additionalAttributes additionalNodes from_option id] in *.
  assert (Hs1 : sent s1 = sent s) by (eapply frames_run; [apply frames_io, _|exact Hgen]).
  assert (Hs3 : sent s3 = sent s2).
  { destruct emitOwnEvents; [|apply ret_inr in Hupsert as [_ <-]; reflexivity].
    eapply frames_run; [apply frames_io, _|exact Hupsert]. }
  assert (Hedit : forall k, k <> "edit" -> editAttributes content !! k = None).
  { intros k Hk. unfold editAttributes.
    destruct (c_delete content) as [key|];
      [destruct (optPred isJidGroup (dk_remoteJid key) && negb (dk_fromMe key))
      |destruct (c_edit content); [|destruct (c_pin content)]];
      try apply lookup_empty; apply lookup_singleton_ne; congruence. }
  exists fullMsg, stanza. split.
  { unfold io, zoom in Hgen.
    destruct (generateWAMessage jid content options (world s)) as [r w].
    now injection Hgen as -> _. }
  split; [reflexivity|].
  split; [now rewrite Hs3, Hsent, Hs1|]. split; [|split; [|split; [exact Hnodes|]]].
  - intros Htruthy. rewrite (Hid Htruthy).
    rewrite Hattrs by (unfold relayOwnAttributes; cbn [In];
                       intros Hin; repeat destruct Hin as [Hin|Hin]; discriminate || tauto).
    rewrite lookup_union_r by (apply Hedit; discriminate).
    rewrite lookup_insert_ne by discriminate. apply lookup_singleton_eq.
  - rewrite Hattrs by (unfold relayOwnAttributes; cbn [In];
                       intros Hin; repeat destruct Hin as [Hin|Hin]; discriminate || tauto).
    rewrite lookup_union. rewrite lookup_insert_ne by discriminate.
    rewrite lookup_singleton_ne by discriminate.
    destruct (editAttributes content !! "edit"); reflexivity.
  - intros Hoff. rewrite Hoff in Hnorm. now injection Hnorm as <- <-.
Qed.

End SendMessage.

Section GroupFetchFacts.
Context `{WABinary} {W : Type} `{Collaborators W} `{GroupEvents W}.




End GroupFetchFacts.

(** ** The sample environment: checks, witnesses, counterexamples *)

Import Sample Runs.

Lemma splitAtFirst_substring (c : ascii) (s : string) :
  forall i k r, substring i k s = String c r -> is_Some (splitAtFirst c s).
Proof.
  induction s as [|a s IH]; intros i k r Hs.
  - destruct i, k; discriminate.
  - simpl. destruct (Ascii.eqb_spec a c) as [->|Hne]; [eauto|].
    destruct i as [|i].
    + destruct k; simpl in Hs; [discriminate|]. injection Hs as -> _. contradiction.
    + simpl in Hs. destruct (IH _ _ _ Hs) as [[u v] ->]. eauto.
Qed.

Lemma endsWith_at_decodes (j suffix : string) :
  JS.endsWith j (String "@" suffix) = true -> is_Some (decodeJid j).
Proof.
  unfold JS.endsWith. intros He. apply andb_prop in He as [_ He].
  apply String.eqb_eq in He. apply splitAtFirst_substring in He as [[u v] Hs].
  unfold decodeJid. rewrite Hs. eauto.
Qed.

(** The sample helpers agree: a LID or PN user JID decodes. *)
Lemma sample_decodesUsers : decodesUsers.
Proof. intros j [Hj|Hj]; exact (endsWith_at_decodes _ _ Hj). Qed.

Lemma identityPatch_keeps_recipients (compat : bool) :
  patchKeepsRecipients (configWith compat identityPatch).
Proof. intros patch m r w l w' [= <-] Hp. discriminate. Qed.

Lemma identityPatch_uniform (compat : bool) :
  patchesUniformly (configWith compat identityPatch).
Proof. intros patch m r w res w' [= <-] [= <- _]. eauto. Qed.

Lemma strictGroupSend_run : strictGroupSend = (inr "MSG1", snd strictGroupSend).
Proof. vm_compute. reflexivity. Qed.

Lemma groupRetry_run : groupRetry = (inr "MSG1", snd groupRetry).
Proof. vm_compute. reflexivity. Qed.

Lemma directSend_run : directSend = (inr "MSG1", snd directSend).
Proof. vm_compute. reflexivity. Qed.


Lemma echoedSend_run : echoedSend = (inr "MSG1", snd echoedSend).
Proof. vm_compute. reflexivity. Qed.


Lemma groupRetry_stanza : last (sent (snd groupRetry)) = Some (stanzaOf groupRetry).
Proof. vm_compute. reflexivity. Qed.


Lemma echoedSend_stanza : last (sent (snd echoedSend)) = Some (stanzaOf echoedSend).
Proof. vm_compute. reflexivity. Qed.

Lemma groupJid_isGroupOrStatus : isGroupOrStatus groupJid = true.
Proof. vm_compute. reflexivity. Qed.

Lemma groupJid_not_newsletter : isNewsletter groupJid = false.
Proof. vm_compute. reflexivity. Qed.

Lemma peer_not_groupOrStatus : isGroupOrStatus peer = false.
Proof. vm_compute. reflexivity. Qed.

Lemma peer_not_newsletter : isNewsletter peer = false.
Proof. vm_compute. reflexivity. Qed.

(** *** C1 *)



(** A device for which the encryption throws: with [compatV6GroupSend] the
    relay goes through, the device has no envelope, a warning is logged, and
    the device is marked in the sender-key-memory all the same; in strict
    mode the relay throws. *)
Example compatGroupSendWithoutSession_run :
  fst compatGroupSendWithoutSession = inr "MSG1"
  /\ envelopeJids (childNodes (stanzaOf compatGroupSendWithoutSession))
     = ["777@s.whatsapp.net"; "4242@lid"; "4242:3@lid"; "5511999@s.whatsapp.net"]
  /\ senderKeyMemory (snd compatGroupSendWithoutSession) !! groupJid
       ≫= (fun m : gmap string bool => m !! peerDevice) = Some true
  /\ warnings (snd compatGroupSendWithoutSession) = ["error encrypting for device ignored"]
  /\ fst strictGroupSendWithoutSession = inl "No session record".
Proof. vm_compute. repeat split. Qed.

(** *** C2 *)

(** C2 as worded fails: a retry resend to a group succeeds and carries no
    [<enc type=skmsg>]. *)
Lemma oneSkmsgIffGroupOrStatus_fails : ~ oneSkmsgIffGroupOrStatus compatConfig.
Proof.
  intros Hc.
  specialize (Hc groupJid textMessage (retryOptions peerDevice 2) freshSocket
                 (snd groupRetry) "MSG1" (stanzaOf groupRetry) groupRetry_run
                 groupRetry_stanza).
  assert (Hnone : countSkmsg (childNodes (stanzaOf groupRetry)) = 0%nat)
    by (vm_compute; reflexivity).
  rewrite Hnone, groupJid_isGroupOrStatus in Hc. discriminate Hc.
Qed.

Lemma relayMessage_skmsg_count_witness :
  exists stanza,
    sent (snd strictGroupSend) = sent knownDeviceSocket ++ [stanza]
    /\ countSkmsg (childNodes stanza)
       = if isNewsletter groupJid then 0%nat
         else ((if isGroupOrStatus groupJid && negb (isRetryResend plainOptions)
                then 1 else 0)
               + countSkmsg (default [] (additionalNodes plainOptions)))%nat.
Proof.
  apply (relayMessage_skmsg_count strictConfig groupJid textMessage plainOptions
           knownDeviceSocket (snd strictGroupSend) "MSG1").
  exact strictGroupSend_run.
Defined.

(** *** C3 *)

Lemma relayMessage_pkmsg_device_identity_witness :
  exists stanza,
    sent (snd directSend) = sent freshSocket ++ [stanza]
    /\ hasDeviceIdentity stanza = true.
Proof.
  apply (relayMessage_pkmsg_device_identity compatConfig peer textMessage plainOptions
           freshSocket (snd directSend) "MSG1" peer).
  - exact directSend_run.
  - vm_compute. auto.
Defined.

(** *** C4 *)

(** C4 as worded fails: under a patch callback that names the sender's
    device, a 1:1 relay addresses an envelope to it. *)
Lemma noEnvelopeForSenderDevice_fails : ~ noEnvelopeForSenderDevice echoConfig.
Proof.
  intros Hc.
  specialize (Hc peer textMessage plainOptions freshSocket
                 (snd echoedSend) "MSG1" (stanzaOf echoedSend)
                 peer_not_groupOrStatus peer_not_newsletter echoedSend_run
                 echoedSend_stanza me).
  assert (Hin : In me (envelopeJids (childNodes (stanzaOf echoedSend))))
    by (vm_compute; auto).
  destruct (Hc Hin) as [Hne _]. apply Hne. reflexivity.
Qed.

Lemma relayMessage_direct_skips_sender_witness :
  exists stanza built,
    sent (snd directSend) = sent freshSocket ++ [stanza]
    /\ childNodes stanza = built ++ default [] (additionalNodes plainOptions)
    /\ forall j, In j (envelopeJids built) ->
                 j <> meId compatConfig /\ Some j <> meLid compatConfig.
Proof.
  apply (relayMessage_direct_skips_sender compatConfig peer textMessage plainOptions
           freshSocket (snd directSend) "MSG1").
  - exact (identityPatch_keeps_recipients true).
  - exact peer_not_groupOrStatus.
  - exact peer_not_newsletter.
  - exact directSend_run.
Defined.

(** *** C5 *)



(** *** C6 *)

(** After a PN user has been given a second LID user, the first LID user
    still leads to the PN user, and the PN user to the second: both
    directions of the first pair are populated, and the round trip from it
    ends at the second. *)
Lemma remappedStore_lookups :
  pnUserOf remappedStore "9001" = Some "5511999"
  /\ lidUserOf remappedStore "5511999" = Some "9002"
  /\ fst (getPNForLID "9001@lid" remappedStore) = inr (Some "5511999@s.whatsapp.net")
  /\ fst (getLIDForPN "5511999@s.whatsapp.net" (snd (getPNForLID "9001@lid" remappedStore)))
     = inr (Some "9002@lid").
Proof. vm_compute. repeat split. Qed.

Lemma roundTripWhenPopulated_fails : ~ roundTripWhenPopulated.
Proof.
  intros Hclaim.
  destruct (Hclaim remappedStore "9001@lid" "5511999" "9001") as (st1 & st2 & H1 & H2);
    try (vm_compute; reflexivity).
  { exists "9002". vm_compute. reflexivity. }
  destruct remappedStore_lookups as (_ & _ & _ & Hback).
  change ("5511999" +:+ "@s.whatsapp.net") with "5511999@s.whatsapp.net" in H1, H2.
  rewrite H1 in Hback. cbn [snd] in Hback. rewrite H2 in Hback. cbn [fst] in Hback.
  discriminate.
Qed.

Lemma getLIDForPN_getPNForLID_witness :
  exists st1 st2,
    getPNForLID "9001@lid" mappedStore = (inr (Some "5511999@s.whatsapp.net"), st1)
    /\ getLIDForPN "5511999@s.whatsapp.net" st1 = (inr (Some "9001@lid"), st2)
    /\ ("9001@lid" = "9001" +:+ "@lid" ->
        getLIDForPN "5511999@s.whatsapp.net" st1 = (inr (Some "9001@lid"), st2)).
Proof.
  apply (getLIDForPN_getPNForLID mappedStore "9001@lid" "5511999" "9001");
    vm_compute; reflexivity.
Defined.

(** *** C7 *)

Lemma storeLIDPNMappings_skips_invalid_witness :
  exists st' stv,
    storeLIDPNMappings mixedBatch emptyLidMapping = (inr tt, st')
    /\ storeLIDPNMappings (List.filter validPair mixedBatch) emptyLidMapping = (inr tt, stv)
    /\ mappingCache st' = mappingCache stv
    /\ lidMappingKeys st' = lidMappingKeys stv
    /\ lidWarnings stv = lidWarnings emptyLidMapping
    /\ lidWarnings st'
       = lidWarnings emptyLidMapping
         ++ List.map invalidMappingMessage
              (List.filter (fun p => negb (validPair p)) mixedBatch)
    /\ forall p, In p mixedBatch -> validPair p = true ->
       exists lu pu,
         pairUsers p = Some (lu, pu)
         /\ ((existingLidUserOf emptyLidMapping pu = Some lu
              /\ (lu <> "" -> mappingCache st' !! ("pn:" +:+ pu) = Some lu))
             \/ exists p' lu',
                  In p' mixedBatch /\ validPair p' = true /\ pairUsers p' = Some (lu', pu)
                  /\ storedAs mixedBatch st' lu' pu).
Proof.
  apply (storeLIDPNMappings_skips_invalid mixedBatch emptyLidMapping).
  exact sample_decodesUsers.
Defined.

(** The valid pair of the batch is stored in both directions, and the two
    others are warned about. *)
Example mixedBatch_stored :
  let st' := snd (storeLIDPNMappings mixedBatch emptyLidMapping) in
  lidMappingKeys st' !! "5511999" = Some "9001"
  /\ lidMappingKeys st' !! "9001_reverse" = Some "5511999"
  /\ lidWarnings st'
     = ["Invalid LID-PN mapping: not-a-jid, 5511999@s.whatsapp.net";
        "Invalid LID-PN mapping: 120363@g.us, 777@lid"].
Proof. vm_compute. repeat split. Qed.

(** *** C8 *)

(** An input that decodes to a device number and an empty user fails the
    guard of line 303: it is normalised and fetched, and what comes out are
    the devices the server lists, not the input. *)
Lemma deviceOnlyJid_fetched :
  jidDecode deviceOnlyJid = Some {| user := ""; server := "s.whatsapp.net"; device := Some 5 |}
  /\ jidsWithUser [Some deviceOnlyJid] = [("@s.whatsapp.net", Some "")]
  /\ getUSyncDevices compatConfig [Some deviceOnlyJid] true false freshSocket
     = (inr [{| d_user := ""; d_device := Some 0; d_jid := "@s.whatsapp.net" |};
             {| d_user := ""; d_device := Some 3; d_jid := ":3@s.whatsapp.net" |}],
        snd (getUSyncDevices compatConfig [Some deviceOnlyJid] true false freshSocket)).
Proof. vm_compute. repeat split. Qed.

Lemma explicitDeviceIsPassedThrough_fails : ~ explicitDeviceIsPassedThrough compatConfig.
Proof.
  intros Hclaim.
  destruct deviceOnlyJid_fetched as (Hd & _ & Hrun).
  destruct (Hclaim [Some deviceOnlyJid] true false freshSocket _ _ deviceOnlyJid _ 5
              (or_introl eq_refl) Hd eq_refl ltac:(lia) Hrun) as [Hin _].
  cbn [In] in Hin. destruct Hin as [Hin|[Hin|[]]]; discriminate.
Qed.

Lemma getUSyncDevices_explicit_device_witness :
  let jids := [Some peer; Some peerDevice] in
  let others := List.filter (fun j => negb (isPassedThrough j)) jids in
  let passed := {| d_user := "777"; d_device := Some 3; d_jid := peerDevice |} in
  ~ In (Some peerDevice) others
  /\ getUSyncDevices compatConfig jids true false freshSocket
     = (match fst (getUSyncDevices compatConfig others true false freshSocket) with
        | inr out => inr (explicitDevices jids ++ out)
        | inl e => inl e
        end,
        snd (getUSyncDevices compatConfig others true false freshSocket))
  /\ In passed (explicitDevices jids)
  /\ forall out s',
       getUSyncDevices compatConfig jids true false freshSocket = (inr out, s') ->
       In passed out.
Proof.
  apply (getUSyncDevices_explicit_device compatConfig [Some peer; Some peerDevice]
           true false freshSocket peerDevice
           {| user := "777"; server := "s.whatsapp.net"; device := Some 3 |} 3).
  - right. left. reflexivity.
  - vm_compute. reflexivity.
  - reflexivity.
  - lia.
  - discriminate.
Defined.

(** *** C9 *)

Lemma sampleMetadata_extracted : exists metadata, sampleMetadata = inr metadata.
Proof. vm_compute. eexists. reflexivity. Qed.

Lemma extractGroupMetadata_id_eq_jid_witness :
  exists metadata ps group,
    sampleMetadata = inr metadata
    /\ g_participants metadata = Some ps
    /\ getBinaryNodeChild groupReply "group" = Some group
    /\ ps = List.map (fun n => extractParticipant None (g_id metadata) (attrs n))
                     (getBinaryNodeChildren group "participant")
    /\ Forall (fun p => p_id p = p_jid p) ps
    /\ Forall2 (fun n p => p_id p = resolvedPhoneJid None (g_id metadata) (attrs n))
               (getBinaryNodeChildren group "participant") ps.
Proof.
  destruct sampleMetadata_extracted as [metadata E].
  exists metadata.
  destruct (extractGroupMetadata_id_eq_jid toNumber groupReply None metadata E)
    as (ps & group & Hrest).
  exists ps, group. split; [exact E|exact Hrest].
Defined.

(** *** C10 *)

Lemma sendReceipt_missing_ids_witness :
  sendReceipt peer None (Some []) (Some "read") freshSocket
  = (inl "missing ids in receipt", freshSocket)
  /\ sent (snd (sendReceipt peer None (Some []) (Some "read") freshSocket))
     = sent freshSocket.
Proof.
  apply (sendReceipt_missing_ids peer None (Some []) (Some "read") freshSocket).
  right. reflexivity.
Defined.
(** ** The sample environment: witnesses of the further properties *)

Import MoreSample.

Lemma mappedStore_forward :
  getLIDForPN "5511999@s.whatsapp.net" mappedStore
  = (inr (Some "9001@lid"), snd (getLIDForPN "5511999@s.whatsapp.net" mappedStore)).
Proof. vm_compute. reflexivity. Qed.

Lemma mappedStore_reverse :
  getPNForLID "9001@lid" mappedStore
  = (inr (Some "5511999@s.whatsapp.net"), snd (getPNForLID "9001@lid" mappedStore)).
Proof. vm_compute. reflexivity. Qed.

Lemma getLIDForPN_lookup_witness :
  let st' := snd (getLIDForPN "5511999@s.whatsapp.net" mappedStore) in
  Some "9001@lid"
  = (if isPnUser "5511999@s.whatsapp.net"
     then match jidDecode "5511999@s.whatsapp.net" with
          | Some d => (fun l => l +:+ "@lid") <$> lidUserOf mappedStore (user d)
          | None => None
          end
     else None)
  /\ lidMappingKeys st' = lidMappingKeys mappedStore
  /\ lidWarnings st' = lidWarnings mappedStore
  /\ forall p, lidUserOf st' p = lidUserOf mappedStore p.
Proof.
  exact (getLIDForPN_lookup "5511999@s.whatsapp.net" mappedStore _ _ mappedStore_forward).
Defined.

Lemma getPNForLID_lookup_witness :
  let st' := snd (getPNForLID "9001@lid" mappedStore) in
  Some "5511999@s.whatsapp.net"
  = (if isLidUser "9001@lid"
     then match jidDecode "9001@lid" with
          | Some d => (fun p => p +:+ "@s.whatsapp.net") <$> pnUserOf mappedStore (user d)
          | None => None
          end
     else None)
  /\ lidMappingKeys st' = lidMappingKeys mappedStore
  /\ lidWarnings st' = lidWarnings mappedStore
  /\ (forall p, lidUserOf st' p = lidUserOf mappedStore p)
  /\ (forall l, pnUserOf st' l = pnUserOf mappedStore l).
Proof.
  exact (getPNForLID_lookup "9001@lid" mappedStore _ _ mappedStore_reverse).
Defined.

Lemma endsWith_last (s suffix : string) :
  JS.endsWith s suffix = true -> suffix <> "" ->
  String.get (String.length s - 1) s = String.get (String.length suffix - 1) suffix.
Proof.
  unfold JS.endsWith. intros He Hne. apply andb_prop in He as [Hk Hs].
  apply Nat.leb_le in Hk. apply String.eqb_eq in Hs.
  assert (Hpos : (0 < String.length suffix)%nat).
  { destruct suffix; [contradiction|simpl; lia]. }
  rewrite <- Hs at 2.
  rewrite substring_correct1 by lia. f_equal. lia.
Qed.

(** No JID is both a LID user and a PN user for the sample helpers. *)
Lemma sample_exclusive (j : string) : isLidUser j = true -> isPnUser j = false.
Proof.
  intros Hl. destruct (isPnUser j) eqn:Hp; [|reflexivity].
  apply endsWith_last in Hl; [|discriminate].
  apply endsWith_last in Hp; [|discriminate].
  rewrite Hl in Hp. discriminate Hp.
Qed.

Lemma storeLIDPNMappings_then_lookup_witness :
  exists st1 st2 st3,
    storeLIDPNMappings [("9001@lid", "5511999@s.whatsapp.net")] emptyLidMapping
    = (inr tt, st1)
    /\ getLIDForPN "5511999@s.whatsapp.net" st1 = (inr (Some ("9001" +:+ "@lid")), st2)
    /\ getPNForLID "9001@lid" st1 = (inr (Some ("5511999" +:+ "@s.whatsapp.net")), st3).
Proof.
  apply (storeLIDPNMappings_then_lookup "9001@lid" "5511999@s.whatsapp.net" "9001" "5511999"
           emptyLidMapping);
    try (vm_compute; reflexivity); try discriminate.
  left. vm_compute. discriminate.
Defined.

Lemma storeLIDPNMappings_pair_order_witness :
  fst (storeLIDPNMappings (List.map swapPair mixedBatch) emptyLidMapping)
  = fst (storeLIDPNMappings mixedBatch emptyLidMapping)
  /\ mappingCache (snd (storeLIDPNMappings (List.map swapPair mixedBatch) emptyLidMapping))
     = mappingCache (snd (storeLIDPNMappings mixedBatch emptyLidMapping))
  /\ lidMappingKeys (snd (storeLIDPNMappings (List.map swapPair mixedBatch) emptyLidMapping))
     = lidMappingKeys (snd (storeLIDPNMappings mixedBatch emptyLidMapping)).
Proof.
  exact (storeLIDPNMappings_pair_order mixedBatch emptyLidMapping sample_exclusive).
Defined.

Lemma sampleGroupMetadata_run :
  exists metadata, sampleGroupMetadata = (inr metadata, snd sampleGroupMetadata).
Proof. eexists. vm_compute. reflexivity. Qed.

Lemma groupMetadata_cached_witness :
  exists metadata c ps,
    sampleGroupMetadata = (inr metadata, snd sampleGroupMetadata)
    /\ g_participants metadata = Some ps
    /\ getCachedGroupMetadata (g_id metadata) (snd sampleGroupMetadata)
       = (inr (Some c), snd sampleGroupMetadata)
    /\ c_participants c = List.map p_id ps
    /\ c_addressingMode c = g_addressingMode metadata.
Proof.
  destruct sampleGroupMetadata_run as [metadata E]. exists metadata.
  destruct (groupMetadata_cached groupJid freshSocket (snd sampleGroupMetadata) metadata)
    as (c & ps & Hrest).
  - intros w. exists 1700000000000, w. reflexivity.
  - exact E.
  - exists c, ps. split; [exact E|exact Hrest].
Defined.

Lemma extractGroupMetadata_phoneNumber_witness :
  exists metadata ps group,
    sampleMetadata = inr metadata
    /\ g_participants metadata = Some ps
    /\ getBinaryNodeChild groupReply "group" = Some group
    /\ length ps = length (getBinaryNodeChildren group "participant")
    /\ Forall (fun p => (p_phoneNumber p = None /\ p_id p = p_lid p)
                        \/ (p_phoneNumber p = p_id p /\ p_id p <> p_lid p)) ps.
Proof.
  destruct sampleMetadata_extracted as [metadata E]. exists metadata.
  destruct (extractGroupMetadata_phoneNumber toNumber groupReply None metadata E)
    as (ps & group & Hrest).
  exists ps, group. split; [exact E|exact Hrest].
Defined.

Lemma getUSyncDevices_all_explicit_witness :
  getUSyncDevices compatConfig [Some peerDevice] true false freshSocket
  = (inr (omap (fun j => x ← j; d ← jidDecode x;
                          Some {| d_user := user d; d_device := device d; d_jid := x |})
               [Some peerDevice]), freshSocket).
Proof.
  apply (getUSyncDevices_all_explicit compatConfig [Some peerDevice] true false freshSocket).
  intros j [<-|[]].
  exists peerDevice, {| user := "777"; server := "s.whatsapp.net"; device := Some 3 |}, 3.
  split; [reflexivity|]. split; [vm_compute; reflexivity|].
  split; [reflexivity|]. split; [lia|discriminate].
Defined.

Lemma getUSyncDevices_cached_witness :
  getUSyncDevices compatConfig [Some peer] true false cachedSocket
  = (inr (List.concat [cachedDevices]), cachedSocket).
Proof.
  apply (getUSyncDevices_cached compatConfig [Some peer] [cachedDevices] false cachedSocket).
  constructor; [|constructor].
  exists peer, {| user := "777"; server := "s.whatsapp.net"; device := None |}.
  split; [reflexivity|]. split; [vm_compute; reflexivity|].
  split; [reflexivity|]. split; [discriminate|vm_compute; reflexivity].
Defined.

Lemma lidSessions_run :
  assertSessionsInternal ["4242@lid"; peer] freshSocket
  = (inr true, snd (assertSessionsInternal ["4242@lid"; peer] freshSocket)).
Proof. vm_compute. reflexivity. Qed.

Lemma assertSessionsInternal_cache_witness :
  (forall k, peerSessionsCache freshSocket !! k = Some true ->
             peerSessionsCache (snd (assertSessionsInternal ["4242@lid"; peer] freshSocket))
               !! k = Some true)
  /\ (forall j, In j ["4242@lid"; peer] -> isLidUser j || isHostedLidUser j = true ->
      peerSessionsCache (snd (assertSessionsInternal ["4242@lid"; peer] freshSocket))
        !! jidToSignalProtocolAddress j = Some true).
Proof.
  exact (assertSessionsInternal_cache ["4242@lid"; peer] freshSocket _ true lidSessions_run).
Defined.

Lemma assertSessions_cached_witness :
  assertSessions strictConfig [peerDevice; peerDevice] sessionSocket
  = (inr false, sessionSocket).
Proof.
  apply (assertSessions_cached strictConfig [peerDevice; peerDevice] sessionSocket).
  intros j [<-|[<-|[]]]; vm_compute; reflexivity.
Defined.

Lemma assertSessions_compat_witness :
  exists b s',
    assertSessions compatConfig [peer] freshSocket = (inr b, s')
    /\ (forall e s1, assertSessionsInternal [peer] freshSocket = (inl e, s1) ->
                     b = false /\ s' = s1).
Proof.
  apply (assertSessions_compat compatConfig [peer] freshSocket). reflexivity.
Defined.

Lemma readReceipt_run :
  sendReceipt peer None (Some ["A1"; "A2"]) (Some "read") freshSocket
  = (inr tt, snd (sendReceipt peer None (Some ["A1"; "A2"]) (Some "read") freshSocket)).
Proof. vm_compute. reflexivity. Qed.

Lemma sendReceipt_receipt_witness :
  exists node,
    sent (snd (sendReceipt peer None (Some ["A1"; "A2"]) (Some "read") freshSocket))
    = sent freshSocket ++ [node]
    /\ isReceiptFor peer None ["A1"; "A2"] (Some "read") node.
Proof.
  exact (sendReceipt_receipt peer None ["A1"; "A2"] (Some "read") freshSocket _
           readReceipt_run).
Defined.

Lemma sendReceipts_run :
  sendReceipts unreadKeys (Some "played") freshSocket
  = (inr tt, snd (sendReceipts unreadKeys (Some "played") freshSocket)).
Proof. vm_compute. reflexivity. Qed.

Lemma sendReceipts_receipts_witness :
  exists nodes,
    sent (snd (sendReceipts unreadKeys (Some "played") freshSocket))
    = sent freshSocket ++ nodes
    /\ Forall2 (fun recp node =>
                  isReceiptFor (fst (fst recp)) (snd (fst recp)) (snd recp)
                               (Some "played") node)
               (aggregateMessageKeysNotFromMe unreadKeys) nodes.
Proof.
  exact (sendReceipts_receipts unreadKeys (Some "played") freshSocket _ sendReceipts_run).
Defined.

Lemma identityPatch_returns :
  callPatch compatConfig textMessage (Some [peerDevice]) freshSocket
  = (inr (PatchedOne textMessage), freshSocket).
Proof. vm_compute. reflexivity. Qed.

Lemma createParticipantNodes_compat_witness :
  exists nodes flag s' failed,
    createParticipantNodes compatConfig [peerDevice] textMessage None None freshSocket
    = (inr (nodes, flag), s')
    /\ warnings s'
       = warnings freshSocket ++ repeat "error encrypting for device ignored" failed
    /\ (length nodes + failed = length (List.filter JS.truthyStr [peerDevice]))%nat.
Proof.
  apply (createParticipantNodes_compat compatConfig [peerDevice] textMessage None
           freshSocket freshSocket (PatchedOne textMessage)).
  - reflexivity.
  - discriminate.
  - exact identityPatch_returns.
Defined.




Lemma echoConfig_per_recipient : patchesPerRecipient echoConfig.
Proof.
  intros patch message recipients w result w' [= <-] [= <- _]. eauto.
Qed.

Lemma relayMessage_group_per_jid_patch_witness :
  exists e,
    fst (relayMessage echoConfig groupJid textMessage plainOptions freshSocket) = inl e
    /\ sent (snd (relayMessage echoConfig groupJid textMessage plainOptions freshSocket))
       = sent freshSocket.
Proof.
  exact (relayMessage_group_per_jid_patch echoConfig groupJid textMessage plainOptions
           freshSocket groupJid_isGroupOrStatus groupJid_not_newsletter
           echoConfig_per_recipient).
Defined.

Lemma relayMessage_recent_messages_witness :
  recentMessages (snd directSend)
  = if negb (isNewsletter peer) && enableRecentMessageCache compatConfig
       && negb (bool_decide (is_Some (participant plainOptions)))
    then recentMessages freshSocket ++ [(peer, "MSG1", textMessage)]
    else recentMessages freshSocket.
Proof.
  exact (relayMessage_recent_messages compatConfig peer textMessage plainOptions
           freshSocket _ "MSG1" directSend_run).
Defined.

Lemma peerSend_run : peerSend = (inr "MSG1", snd peerSend).
Proof. vm_compute. reflexivity. Qed.

Lemma ownJid_not_groupOrStatus : isGroupOrStatus ownJid = false.
Proof. vm_compute. reflexivity. Qed.

Lemma ownJid_not_newsletter : isNewsletter ownJid = false.
Proof. vm_compute. reflexivity. Qed.

Lemma peerAttributes_category : peerAttributes !! "category" = Some "peer".
Proof. vm_compute. reflexivity. Qed.

Lemma relayMessage_peer_witness :
  exists stanza encs rest,
    sent (snd peerSend) = sent freshSocket ++ [stanza]
    /\ attrs stanza !! "category" = Some "peer"
    /\ childNodes stanza = encs ++ rest ++ default [] (additionalNodes peerOptions)
    /\ Forall (fun n => tag n = "enc") encs
    /\ (length encs <= 1)%nat
    /\ Forall (fun n => tag n = "device-identity" \/ tag n = "biz") rest.
Proof.
  exact (relayMessage_peer compatConfig ownJid textMessage peerOptions freshSocket _ "MSG1"
           peerAttributes eq_refl peerAttributes_category eq_refl
           ownJid_not_groupOrStatus ownJid_not_newsletter peerSend_run).
Defined.

Lemma groupSend_run : groupSend = (inr "MSG1", snd groupSend).
Proof. vm_compute. reflexivity. Qed.

Lemma me_decodes : user <$> jidDecode (meId compatConfig) = Some "5511999".
Proof. vm_compute. reflexivity. Qed.

Lemma meLid_decodes : user <$> jidDecode "9001:3@lid" = Some "9001".
Proof. vm_compute. reflexivity. Qed.

Lemma relayMessage_group_own_device_witness :
  exists d,
    (d_user d = "5511999" \/ d_user d = "9001")
    /\ d_device d = Some 0
    /\ senderKeyMemory (snd groupSend) !! groupJid
         ≫= (fun m : gmap string bool => m !! senderIdOf d) = Some true.
Proof.
  apply (relayMessage_group_own_device compatConfig groupJid textMessage plainOptions
           freshSocket (snd groupSend) "MSG1" "5511999" "9001:3@lid" "9001");
    try discriminate.
  - reflexivity.
  - exact groupJid_isGroupOrStatus.
  - exact groupJid_not_newsletter.
  - exact me_decodes.
  - reflexivity.
  - exact meLid_decodes.
  - exact groupSend_run.
Defined.

Lemma relayMessage_stanza_id_witness :
  (JS.truthy (messageId plainOptions) = true -> messageId plainOptions = Some "MSG1")
  /\ exists stanza,
       sent (snd directSend) = sent freshSocket ++ [stanza]
       /\ tag stanza = "message"
       /\ (default ∅ (additionalAttributes plainOptions) !! "id" = None ->
           attrs stanza !! "id" = Some "MSG1")
       /\ (default ∅ (additionalAttributes plainOptions) !! "type" = None ->
           attrs stanza !! "type" = Some (getMessageType textMessage)).
Proof.
  exact (relayMessage_stanza_id compatConfig peer textMessage plainOptions freshSocket _
           "MSG1" directSend_run).
Defined.

Lemma renumberedBatch_run :
  storeLIDPNMappings renumberedBatch emptyLidMapping = (inr tt, renumberedStore).
Proof. vm_compute. reflexivity. Qed.

Lemma storeLIDPNMappings_batch_lookup_witness :
  exists p' lu',
    In p' renumberedBatch /\ validPair p' = true /\ pairUsers p' = Some (lu', "5511999")
    /\ getLIDForPN (snd (orderedPair ("9001@lid", "5511999@s.whatsapp.net"))) renumberedStore
       = (inr (Some (lu' +:+ "@lid")), renumberedStore).
Proof.
  apply (storeLIDPNMappings_batch_lookup renumberedBatch emptyLidMapping renumberedStore
           sample_exclusive) with (lu := "9001").
  - intros p [<-|[<-|[<-|[]]]] Hv.
    + exists "9001", "5511999". split; [vm_compute; reflexivity|discriminate].
    + vm_compute in Hv. discriminate.
    + exists "9002", "5511999". split; [vm_compute; reflexivity|discriminate].
  - exact renumberedBatch_run.
  - left. reflexivity.
  - vm_compute. reflexivity.
  - vm_compute. reflexivity.
Defined.

(** The lookup finds the LID user of the later pair of the batch. *)
Example renumberedBatch_lookup :
  fst (getLIDForPN "5511999@s.whatsapp.net" renumberedStore) = inr (Some "9002@lid").
Proof. vm_compute. reflexivity. Qed.



(** With a key store that rejects the write, the same call returns the same
    devices and caches them; the [device-list] is not written and the
    failure is logged. *)
Example deviceFetchRejected_run :
  fst deviceFetchRejected = inr fetchedDevices
  /\ userDevicesCache (snd deviceFetchRejected) = userDevicesCache (snd deviceFetch)
  /\ deviceList (snd deviceFetchRejected) = deviceList cachedSocket
  /\ deviceList (snd deviceFetch) <> deviceList cachedSocket
  /\ warnings (snd deviceFetchRejected) = ["failed to store user device lists"].
Proof.
  split; [vm_compute; reflexivity|]. split; [vm_compute; reflexivity|].
  split; [vm_compute; reflexivity|]. split; [|vm_compute; reflexivity].
  intros Heq. apply (f_equal (fun m => m !! "999")) in Heq. vm_compute in Heq. discriminate.
Qed.

Lemma storeLIDMappingsAndParticipants_mappings_witness :
  exists s',
    storeLIDMappingsAndParticipants (bareGroup groupJid twoMembers) freshSocket = (inr tt, s')
    /\ (forall g, g <> g_id (bareGroup groupJid twoMembers) ->
        lidMappingCache s' !! g = lidMappingCache freshSocket !! g)
    /\ if existsb hasDistinctLid twoMembers
       then exists m,
           getLIDMappings (g_id (bareGroup groupJid twoMembers)) s' = (inr m, s')
           /\ (forall p, In p twoMembers -> hasDistinctLid p = true ->
               is_Some (m !! JS.keyOf (p_lid p)) /\ is_Some (m !! JS.keyOf (phoneJidOf p)))
           /\ (forall k v, m !! k = Some v ->
               k <> v
               /\ exists p, In p twoMembers /\ hasDistinctLid p = true
                    /\ ((p_lid p = Some k /\ phoneJidOf p = Some v)
                        \/ (p_lid p = Some v /\ phoneJidOf p = Some k)))
       else lidMappingCache s' = lidMappingCache freshSocket.
Proof.
  apply (storeLIDMappingsAndParticipants_mappings (bareGroup groupJid twoMembers) twoMembers
           freshSocket 1700000000000 []); reflexivity.
Defined.

Lemma relayMessage_additions_witness :
  exists stanza,
    sent (snd peerSend) = sent freshSocket ++ [stanza]
    /\ (forall k v, default ∅ (additionalAttributes peerOptions) !! k = Some v ->
        ~ In k relayOwnAttributes -> attrs stanza !! k = Some v)
    /\ (forall k, default ∅ (additionalAttributes peerOptions) !! k = None ->
        ~ In k relayOwnAttributes -> k <> "id" -> k <> "type" ->
        attrs stanza !! k = None)
    /\ (isNewsletter ownJid = false ->
        exists body, childNodes stanza = body ++ default [] (additionalNodes peerOptions)).
Proof.
  exact (relayMessage_additions compatConfig ownJid textMessage peerOptions freshSocket
           (snd peerSend) "MSG1" peerSend_run).
Defined.

Lemma sendMessage_disappearing_in_group_witness :
  let toggle :=
    Node "iq" (<["to" := groupJid]> (<["xmlns" := "w:g2"]> {["type" := "set"]}))
      (Children [Node "ephemeral" {["expiration" := "604800"]} NoContent]) in
  let run := sendMessage compatConfig true groupJid timerContent sendOptions freshSocket in
  snd run = setWorld (snd (query toggle (world freshSocket))) freshSocket
  /\ fst run = match fst (query toggle (world freshSocket)) with
               | inr _ => inr (None, timerContent, sendOptions)
               | inl e => inl e
               end.
Proof.
  exact (sendMessage_disappearing_in_group compatConfig true groupJid timerContent sendOptions
           (inl true) freshSocket eq_refl eq_refl).
Defined.

Lemma deleteSend_run :
  deleteSend = (inr (Some generated, deletion, sendOptions), snd deleteSend).
Proof. vm_compute. reflexivity. Qed.

Lemma sendMessage_relayed_witness :
  exists fullMsg stanza,
    fst (generateWAMessage groupJid deletion sendOptions (world freshSocket)) = inr fullMsg
    /\ Some generated = Some fullMsg
    /\ sent (snd deleteSend) = sent freshSocket ++ [stanza]
    /\ (JS.truthy (wm_keyId fullMsg) = true -> attrs stanza !! "id" = wm_keyId fullMsg)
    /\ attrs stanza !! "edit" = editAttributes deletion !! "edit"
    /\ (isNewsletter groupJid = false ->
        exists body, childNodes stanza = body ++ metaNodes deletion)
    /\ (isJidGroup groupJid && compatV6GroupSend compatConfig = false ->
        deletion = deletion /\ sendOptions = sendOptions).
Proof.
  apply (sendMessage_relayed compatConfig true groupJid deletion deletion sendOptions
           sendOptions (Some generated) freshSocket (snd deleteSend)).
  - right. reflexivity.
  - exact deleteSend_run.
Defined.



